(** * Microfossil 3D Viewer: scene assembly, labels, visibility and the
      tabbed description panel.

    A shallow embedding of [js/main.js], [js/labelUtils.js],
    [js/controls.js] and the specimen factories of [js/fossils/], with the
    properties of the specification proved (or refuted) about it.

    JavaScript objects are identified by references.  The parent/children
    relation of the three.js object graph is kept as a forest of trees; the
    fields the program assigns to after construction ([visible],
    [userData.components], a component's [visible] and [labels], an
    element's [parentNode], [style.display] and [style.opacity]) are kept
    as finite maps from references, one map per field.  JavaScript numbers
    are binary64 floats. *)

From Stdlib Require Import Floats.
From stdpp Require Import gmap strings list fin_maps.

Set Warnings "-inexact-float,-register-all".


(** ** Numbers and vectors (THREE.Vector3) *)

Record Vector3 := { vx : float; vy : float; vz : float }.

Definition distanceToSquared (a b : Vector3) : float :=
  let dx := (vx a - vx b)%float in
  let dy := (vy a - vy b)%float in
  let dz := (vz a - vz b)%float in
  (dx * dx + dy * dy + dz * dz)%float.

Definition distanceTo (a b : Vector3) : float :=
  PrimFloat.sqrt (distanceToSquared a b).

(** ** The object graph *)

Definition ref := nat.

(** The classes of three.js objects the program creates.  A [CSS2DObject]
    carries its overlay element, the anchor [position] given to
    [createLabel] and [userData.component]. *)
Inductive Kind :=
  | Scene
  | Group
  | Mesh
  | Light
  | CSS2DObject (element : ref) (position : Vector3) (component : option ref).

Inductive Object3D :=
  | Obj (id : ref) (kind : Kind) (children : list Object3D).

Definition obj_id (o : Object3D) : ref := match o with Obj i _ _ => i end.
Definition obj_kind (o : Object3D) : Kind := match o with Obj _ k _ => k end.
Definition obj_children (o : Object3D) : list Object3D :=
  match o with Obj _ _ cs => cs end.

(** [object instanceof CSS2DObject] *)
Definition isCSS2DObject (o : Object3D) : bool :=
  match obj_kind o with CSS2DObject _ _ _ => true | _ => false end.

(** [Object3D.traverse]: the callback sees the object itself, then each
    child's traversal in order. *)
Fixpoint traverse (o : Object3D) : list Object3D :=
  match o with
  | Obj _ _ cs => o :: flat_map traverse cs
  end.

(** The first object with reference [r] in the tree, if any. *)
Fixpoint find_object (r : ref) (o : Object3D) : option Object3D :=
  match o with
  | Obj i _ cs =>
      if decide (i = r) then Some o
      else (fix first (l : list Object3D) : option Object3D :=
              match l with
              | [] => None
              | c :: rest =>
                  match find_object r c with
                  | Some x => Some x
                  | None => first rest
                  end
              end) cs
  end.

Fixpoint find_in_forest (r : ref) (l : list Object3D) : option Object3D :=
  match l with
  | [] => None
  | o :: rest =>
      match find_object r o with
      | Some x => Some x
      | None => find_in_forest r rest
      end
  end.

(** The tree without the objects referenced by [r] below its root. *)
Fixpoint prune (r : ref) (o : Object3D) : Object3D :=
  match o with
  | Obj i k cs =>
      Obj i k
        ((fix keep (l : list Object3D) : list Object3D :=
            match l with
            | [] => []
            | c :: rest =>
                if decide (obj_id c = r) then keep rest
                else prune r c :: keep rest
            end) cs)
  end.

Definition prune_forest (r : ref) (l : list Object3D) : list Object3D :=
  map (prune r) (filter (λ c, obj_id c ≠ r) l).

(** [children.indexOf(object)] followed by [splice]: the first child with
    reference [r] is taken out. *)
Fixpoint take_child (r : ref) (l : list Object3D)
  : option (Object3D * list Object3D) :=
  match l with
  | [] => None
  | c :: rest =>
      if decide (obj_id c = r) then Some (c, rest)
      else match take_child r rest with
           | Some (x, rest') => Some (x, c :: rest')
           | None => None
           end
  end.

(** ** Records of the program *)

(** The entries of [window.labels], built by [addLabel]. *)
Record LabelInfo := {
  li_object : option ref;
  li_element : ref;
  li_component : option ref
}.

(** The entries of a component's own [labels] array. *)
Record LabelHandle := {
  lh_object : ref;
  lh_element : ref
}.

(** A component record as the factories write it: [mesh] or [group] holds
    the subtree, [labels] does not exist until the first label is added. *)
Record Component := {
  name : string;
  displayName : string;
  mesh : option ref;
  group : option ref;
  visible : bool;
  labels : option (list LabelHandle)
}.

Definition set_comp_visible (v : bool) (c : Component) : Component :=
  {| name := name c; displayName := displayName c; mesh := mesh c;
     group := group c; visible := v; labels := labels c |}.

Definition push_comp_label (h : LabelHandle) (c : Component) : Component :=
  {| name := name c; displayName := displayName c; mesh := mesh c;
     group := group c; visible := visible c;
     labels := Some (default [] (labels c) ++ [h]) |}.

(** Where an attached overlay element sits: below [#model-container]
    (the label renderer's layer is appended there by [init]) or somewhere
    else. *)
Inductive DomParent := InModelContainer | Elsewhere.

Global Instance DomParent_eq_dec : EqDecision DomParent.
Proof. solve_decision. Defined.

(** The three.js side of the state. *)
Record Graph := {
  scene : Object3D;
  detached : list Object3D;
  obj_visible : gmap ref bool;
  group_components : gmap ref (list ref)
}.

(** The overlay elements, one map per property; an element without a
    [parentNode] entry is not attached. *)
Record Dom := {
  className : gmap ref string;
  textContent : gmap ref string;
  parentNode : gmap ref DomParent;
  display : gmap ref string;
  opacity : gmap ref string
}.

(** A checkbox of the component panel. *)
Record ComponentToggle := {
  toggle_id : string;
  toggle_checked : bool;
  toggle_text : string;
  toggle_component : ref
}.

(** The camera is in the hands of the OrbitControls: their constructor,
    [controls.update()] of every frame and [controls.reset()] recompute its
    position from the state they keep, with the damping and the rounding of
    three.js.  What main.js does to the camera is kept as it is written
    there: the position it wrote, and the call of the controls that
    followed.  The position the camera has in a frame is an input of that
    frame ([updateLabels]). *)
Inductive CameraPosition :=
  | ControlsCreated (written : Vector3)
  | ControlsReset (written : Vector3).

(** Module variables of main.js other than the scene, and the panels. *)
Record View := {
  crossSectionEnabled : bool;
  clippingPlanes : list (Vector3 * float);
  fossilType : string;
  componentToggles : list ComponentToggle;
  fossilInfo : string;
  cameraPosition : CameraPosition
}.

Record State := {
  next_ref : ref;
  graph : Graph;
  components : gmap ref Component;
  dom : Dom;
  window_labels : list LabelInfo;
  labelContainer : bool;
  currentModel : option ref;
  view : View
}.

(** *** Field updates *)

Definition graph_with_scene (v : Object3D) (g : Graph) : Graph :=
  {| scene := v; detached := detached g; obj_visible := obj_visible g;
     group_components := group_components g |}.
Definition graph_with_detached (v : list Object3D) (g : Graph) : Graph :=
  {| scene := scene g; detached := v; obj_visible := obj_visible g;
     group_components := group_components g |}.
Definition graph_with_visible (v : gmap ref bool) (g : Graph) : Graph :=
  {| scene := scene g; detached := detached g; obj_visible := v;
     group_components := group_components g |}.
Definition graph_with_components (v : gmap ref (list ref)) (g : Graph) : Graph :=
  {| scene := scene g; detached := detached g; obj_visible := obj_visible g;
     group_components := v |}.

Definition dom_with_className (v : gmap ref string) (d : Dom) : Dom :=
  {| className := v; textContent := textContent d; parentNode := parentNode d;
     display := display d; opacity := opacity d |}.
Definition dom_with_textContent (v : gmap ref string) (d : Dom) : Dom :=
  {| className := className d; textContent := v; parentNode := parentNode d;
     display := display d; opacity := opacity d |}.
Definition dom_with_parentNode (v : gmap ref DomParent) (d : Dom) : Dom :=
  {| className := className d; textContent := textContent d; parentNode := v;
     display := display d; opacity := opacity d |}.
Definition dom_with_display (v : gmap ref string) (d : Dom) : Dom :=
  {| className := className d; textContent := textContent d;
     parentNode := parentNode d; display := v; opacity := opacity d |}.
Definition dom_with_opacity (v : gmap ref string) (d : Dom) : Dom :=
  {| className := className d; textContent := textContent d;
     parentNode := parentNode d; display := display d; opacity := v |}.

Definition with_next_ref (v : ref) (s : State) : State :=
  {| next_ref := v; graph := graph s; components := components s; dom := dom s;
     window_labels := window_labels s; labelContainer := labelContainer s;
     currentModel := currentModel s; view := view s |}.
Definition with_graph (v : Graph) (s : State) : State :=
  {| next_ref := next_ref s; graph := v; components := components s;
     dom := dom s; window_labels := window_labels s;
     labelContainer := labelContainer s; currentModel := currentModel s;
     view := view s |}.
Definition with_components (v : gmap ref Component) (s : State) : State :=
  {| next_ref := next_ref s; graph := graph s; components := v; dom := dom s;
     window_labels := window_labels s; labelContainer := labelContainer s;
     currentModel := currentModel s; view := view s |}.
Definition with_dom (v : Dom) (s : State) : State :=
  {| next_ref := next_ref s; graph := graph s; components := components s;
     dom := v; window_labels := window_labels s;
     labelContainer := labelContainer s; currentModel := currentModel s;
     view := view s |}.
Definition with_window_labels (v : list LabelInfo) (s : State) : State :=
  {| next_ref := next_ref s; graph := graph s; components := components s;
     dom := dom s; window_labels := v; labelContainer := labelContainer s;
     currentModel := currentModel s; view := view s |}.
Definition with_currentModel (v : option ref) (s : State) : State :=
  {| next_ref := next_ref s; graph := graph s; components := components s;
     dom := dom s; window_labels := window_labels s;
     labelContainer := labelContainer s; currentModel := v; view := view s |}.
Definition with_view (v : View) (s : State) : State :=
  {| next_ref := next_ref s; graph := graph s; components := components s;
     dom := dom s; window_labels := window_labels s;
     labelContainer := labelContainer s; currentModel := currentModel s;
     view := v |}.

(** A fresh reference for [new ...] and [document.createElement]. *)
Definition alloc (s : State) : ref * State :=
  (next_ref s, with_next_ref (S (next_ref s)) s).

(** [object.visible]; three.js objects are created visible. *)
Definition is_visible (s : State) (r : ref) : bool :=
  default true (obj_visible (graph s) !! r).

Definition set_visible (r : ref) (v : bool) (s : State) : State :=
  with_graph (graph_with_visible (<[r := v]> (obj_visible (graph s))) (graph s)) s.

(** [element.parentNode.removeChild(element)] *)
Definition removeChild (e : ref) (s : State) : State :=
  with_dom (dom_with_parentNode (delete e (parentNode (dom s))) (dom s)) s.

Definition set_display (e : ref) (v : string) (s : State) : State :=
  with_dom (dom_with_display (<[e := v]> (display (dom s))) (dom s)) s.

Definition set_opacity (e : ref) (v : string) (s : State) : State :=
  with_dom (dom_with_opacity (<[e := v]> (opacity (dom s))) (dom s)) s.

(** ** three.js operations the program calls (three@0.160.0, pinned by the
    import map of index.html) *)

(** The listener every CSS2DObject installs for its own [removed] event:
    the elements of the CSS2DObjects in its subtree leave their parents. *)
Definition onRemoved (o : Object3D) (s : State) : State :=
  if isCSS2DObject o then
    fold_left
      (λ s x, match obj_kind x with
              | CSS2DObject e _ _ => removeChild e s
              | _ => s
              end)
      (traverse o) s
  else s.

(** [scene.remove(object)]: only a direct child is removed; it loses its
    parent and receives the [removed] event. *)
Definition scene_remove (r : ref) (s : State) : State :=
  match scene (graph s) with
  | Obj i k cs =>
      match take_child r cs with
      | Some (o, rest) =>
          onRemoved o
            (with_graph
               (graph_with_detached (o :: detached (graph s))
                  (graph_with_scene (Obj i k rest) (graph s))) s)
      | None => s
      end
  end.

(** [scene.add(object)]: the object leaves its previous parent, if it has
    one (it is removed from it and receives the [removed] event), and
    becomes the last child of the scene.  Adding the scene to itself is
    refused.  The objects without a parent are the roots of [detached]. *)
Definition scene_add (r : ref) (s : State) : State :=
  match scene (graph s) with
  | Obj i k cs =>
      if decide (r = i) then s
      else
        match find_in_forest r (Obj i k cs :: detached (graph s)) with
        | None => s
        | Some o =>
            match prune r (Obj i k cs) with
            | Obj i' k' cs' =>
                let s' :=
                  with_graph
                    (graph_with_detached
                       (prune_forest r (detached (graph s)))
                       (graph_with_scene (Obj i' k' (cs' ++ [o])) (graph s))) s in
                if decide (r ∈ map obj_id (detached (graph s))) then s'
                else onRemoved o s'
            end
        end
  end.

(** ** js/labelUtils.js *)

(** [createLabel(text, position, component)] *)
Definition createLabel (text : string) (position : Vector3)
    (component : option ref) (s : State) : Object3D * State :=
  let '(labelElement, s) := alloc s in
  let s := with_dom (dom_with_className
                       (<[labelElement := "fossil-label"]> (className (dom s)))
                       (dom s)) s in
  let s := with_dom (dom_with_textContent
                       (<[labelElement := text]> (textContent (dom s)))
                       (dom s)) s in
  let '(label, s) := alloc s in
  (Obj label (CSS2DObject labelElement position component) [], s).

(** [object.add(child)] on an object under construction, held by value. *)
Definition add_child (child : Object3D) (parent : Object3D) : Object3D :=
  match parent with
  | Obj i k cs => Obj i k (cs ++ [child])
  end.

(** [addLabel(scene, labelsArray, text, position, component)].  Its first
    argument is the group the factory is building; every caller passes
    [window.labels || []] as [labelsArray], and [window.labels] is an array
    from the moment main.js is loaded. *)
Definition addLabel (text : string) (position : Vector3)
    (component : option ref) (gs : Object3D * State) : Object3D * State :=
  let '(grp, s) := gs in
  let '(label, s) := createLabel text position component s in
  let grp := add_child label grp in
  match obj_kind label with
  | CSS2DObject element _ _ =>
      let labelInfo := {| li_object := Some (obj_id label);
                          li_element := element;
                          li_component := component |} in
      let s := with_window_labels (window_labels s ++ [labelInfo]) s in
      let s := match component with
               | Some c =>
                   with_components
                     (alter (push_comp_label
                               {| lh_object := obj_id label;
                                  lh_element := element |}) c (components s)) s
               | None => s
               end in
      (grp, s)
  | _ => (grp, s)
  end.

(** The first loop of the [window.labels] clean-up: an element that has a
    parent is taken out of it. *)
Definition detachLabelElement (s : State) (label : LabelInfo) : State :=
  match parentNode (dom s) !! li_element label with
  | Some _ => removeChild (li_element label) s
  | None => s
  end.

(** [window.labelContainer.querySelectorAll('.fossil-label')] followed by
    [removeChild] on each element found. *)
Definition sweepContainer (s : State) : State :=
  with_dom
    (dom_with_parentNode
       (filter (λ ep, ¬ (ep.2 = InModelContainer
                          ∧ className (dom s) !! ep.1 = Some "fossil-label"))
          (parentNode (dom s)))
       (dom s)) s.

(** [removeAllLabels(scene)] *)
Definition removeAllLabels (s : State) : State :=
  let objectsToRemove :=
    map obj_id (filter (λ o, isCSS2DObject o = true) (traverse (scene (graph s)))) in
  let s := fold_left (λ s object, scene_remove object s) objectsToRemove s in
  let s := fold_left detachLabelElement (window_labels s) s in
  let s := with_window_labels [] s in
  if labelContainer s then sweepContainer s else s.

(** The opacity chosen for a distance. *)
Definition opacityFor (distance : float) : string :=
  if (10 <? distance)%float then "0.3" else "1".

(** [updateLabels(labels, camera)]; [world] is the engine's
    [getWorldPosition] for this frame. *)
Definition updateLabel (world : ref → Vector3) (cameraPosition : Vector3)
    (s : State) (label : LabelInfo) : State :=
  match li_object label with
  | None => s
  | Some object =>
      let labelPosition := world object in
      let distance := distanceTo labelPosition cameraPosition in
      set_opacity (li_element label) (opacityFor distance) s
  end.

Definition updateLabels (world : ref → Vector3) (cameraPosition : Vector3)
    (labels : list LabelInfo) (s : State) : State :=
  fold_left (updateLabel world cameraPosition) labels s.

(** ** The specimen factories (js/fossils/) *)

Definition vec3 (x y z : float) : Vector3 := {| vx := x; vy := y; vz := z |}.

(** [new THREE.Group()] followed by [group.userData = { components: [] }] *)
Definition newModelGroup (s : State) : Object3D * State :=
  let '(g, s) := alloc s in
  (Obj g Group [],
   with_graph (graph_with_components
                 (<[g := []]> (group_components (graph s))) (graph s)) s).

(** [group.userData.components.push(component)] *)
Definition components_push (g : ref) (c : ref) (s : State) : State :=
  with_graph
    (graph_with_components
       (<[g := default [] (group_components (graph s) !! g) ++ [c]]>
          (group_components (graph s)))
       (graph s)) s.

(** Which field of the component record holds the subtree. *)
Inductive Subtree := AsMesh | AsGroup.

Record Part := {
  part_name : string;
  part_displayName : string;
  part_subtree : Subtree;
  part_label : string;
  part_anchor : Vector3
}.

(** The geometry of a part, then [group.add(...)].  The meshes inside a
    part's own group are geometry only (no label, no component record, no
    later assignment) and are left out. *)
Definition addSubtree (k : Subtree) (gs : Object3D * State)
  : ref * (Object3D * State) :=
  let '(grp, s) := gs in
  let '(m, s) := alloc s in
  (m, (add_child (Obj m (match k with AsMesh => Mesh | AsGroup => Group end) []) grp, s)).

(** The component record literal and its registration. *)
Definition registerComponent (p : Part) (m : ref) (gs : Object3D * State)
  : ref * (Object3D * State) :=
  let '(grp, s) := gs in
  let '(c, s) := alloc s in
  let component :=
    {| name := part_name p; displayName := part_displayName p;
       mesh := match part_subtree p with AsMesh => Some m | AsGroup => None end;
       group := match part_subtree p with AsMesh => None | AsGroup => Some m end;
       visible := true; labels := None |} in
  let s := with_components (<[c := component]> (components s)) s in
  (c, (grp, components_push (obj_id grp) c s)).

(** The shape shared by the [create...] functions of the factories:
    geometry, [group.add], component record, [components.push],
    [addLabel]. *)
Definition createPart (p : Part) (gs : Object3D * State) : Object3D * State :=
  let '(m, gs) := addSubtree (part_subtree p) gs in
  let '(c, gs) := registerComponent p m gs in
  addLabel (part_label p) (part_anchor p) (Some c) gs.

Module Fusuline.
Definition createShell := createPart
  {| part_name := "shell"; part_displayName := "Outer Shell";
     part_subtree := AsMesh; part_label := "Outer Shell (Test)";
     part_anchor := vec3 1.7 0 0 |}.
Definition createSepta := createPart
  {| part_name := "septa"; part_displayName := "Septa (Chamber Walls)";
     part_subtree := AsGroup; part_label := "Septa";
     part_anchor := vec3 0.5 0.2 0.5 |}.
Definition createAperture := createPart
  {| part_name := "aperture"; part_displayName := "Aperture (Opening)";
     part_subtree := AsMesh; part_label := "Aperture";
     part_anchor := vec3 1.7 0.3 0 |}.
Definition createChambers := createPart
  {| part_name := "chambers"; part_displayName := "Internal Chambers";
     part_subtree := AsGroup; part_label := "Chambers";
     part_anchor := vec3 (-0.5) 0.5 0.5 |}.
Definition createChomata := createPart
  {| part_name := "chomata"; part_displayName := "Chomata";
     part_subtree := AsGroup; part_label := "Chomata";
     part_anchor := vec3 (-0.4) 0.3 0.3 |}.
Definition createTunnel := createPart
  {| part_name := "tunnel"; part_displayName := "Tunnel";
     part_subtree := AsGroup; part_label := "Tunnel";
     part_anchor := vec3 0 0.2 0 |}.
Definition createCuniculus := createPart
  {| part_name := "cuniculus"; part_displayName := "Cuniculi";
     part_subtree := AsGroup; part_label := "Cuniculi";
     part_anchor := vec3 (-0.6) 0.4 0.3 |}.
Definition createSeptalPores := createPart
  {| part_name := "septalPores"; part_displayName := "Septal Pores";
     part_subtree := AsGroup; part_label := "Septal Pores";
     part_anchor := vec3 0.4 0 0.6 |}.

Definition createFusulineModel (s : State) : Object3D * State :=
  let fusulineGroup := newModelGroup s in
  let fusulineGroup := createShell fusulineGroup in
  let fusulineGroup := createSepta fusulineGroup in
  let fusulineGroup := createAperture fusulineGroup in
  let fusulineGroup := createChambers fusulineGroup in
  let fusulineGroup := createChomata fusulineGroup in
  let fusulineGroup := createTunnel fusulineGroup in
  let fusulineGroup := createCuniculus fusulineGroup in
  createSeptalPores fusulineGroup.
End Fusuline.

(** The file holds two listings of radiolarian.js; they differ in geometry
    and in the label anchors only.  The first one is followed. *)
Module Radiolarian.
Definition createSiliceousSkeleton := createPart
  {| part_name := "skeleton"; part_displayName := "Siliceous Skeleton";
     part_subtree := AsGroup; part_label := "Siliceous Skeleton";
     part_anchor := vec3 1.0 0.5 0 |}.
Definition createCentralCapsule := createPart
  {| part_name := "capsule"; part_displayName := "Central Capsule";
     part_subtree := AsGroup; part_label := "Central Capsule";
     part_anchor := vec3 0.2 (-0.6) 0.2 |}.
Definition createSpines := createPart
  {| part_name := "spines"; part_displayName := "Radial Spines";
     part_subtree := AsGroup; part_label := "Radial Spines";
     part_anchor := vec3 0 1.8 0 |}.
Definition createAxopods := createPart
  {| part_name := "axopods"; part_displayName := "Axopods";
     part_subtree := AsGroup; part_label := "Axopods";
     part_anchor := vec3 1.0 (-0.3) 0.8 |}.

Definition createRadiolarianModel (s : State) : Object3D * State :=
  let radGroup := newModelGroup s in
  let radGroup := createSiliceousSkeleton radGroup in
  let radGroup := createCentralCapsule radGroup in
  let radGroup := createSpines radGroup in
  createAxopods radGroup.
End Radiolarian.

Module Foraminifera.
Definition createTest := createPart
  {| part_name := "test"; part_displayName := "Test (Shell)";
     part_subtree := AsGroup; part_label := "Test (Shell)";
     part_anchor := vec3 0 1 0 |}.
Definition createChambers := createPart
  {| part_name := "chambers"; part_displayName := "Chambers";
     part_subtree := AsGroup; part_label := "Chambers";
     part_anchor := vec3 (-0.5) 0 0.5 |}.
Definition createAperture := createPart
  {| part_name := "aperture"; part_displayName := "Aperture (Opening)";
     part_subtree := AsMesh; part_label := "Aperture";
     part_anchor := vec3 1.1 0.3 0 |}.
Definition createPseudopodia := createPart
  {| part_name := "pseudopodia"; part_displayName := "Pseudopodia";
     part_subtree := AsGroup; part_label := "Pseudopodia";
     part_anchor := vec3 1.6 0.5 0.3 |}.
Definition createSymbioticAlgae := createPart
  {| part_name := "symbiotic_algae"; part_displayName := "Symbiotic Algae";
     part_subtree := AsGroup; part_label := "Symbiotic Algae";
     part_anchor := vec3 0.5 0.2 0.5 |}.
Definition createPoreSystem := createPart
  {| part_name := "pore_system"; part_displayName := "Pore System";
     part_subtree := AsGroup; part_label := "Pore System";
     part_anchor := vec3 0 (-0.8) 0.5 |}.

Definition createForaminiferaModel (s : State) : Object3D * State :=
  let foramGroup := newModelGroup s in
  let foramGroup := createTest foramGroup in
  let foramGroup := createChambers foramGroup in
  let foramGroup := createAperture foramGroup in
  let foramGroup := createPseudopodia foramGroup in
  let foramGroup := createSymbioticAlgae foramGroup in
  createPoreSystem foramGroup.
End Foraminifera.

Module Diatom.
(** A component record literal of the [components] array. *)
Definition newComponent (c : Component) (s : State) : ref * State :=
  let '(r, s) := alloc s in
  (r, with_components (<[r := c]> (components s)) s).

Definition createDiatomModel (s : State) : Object3D * State :=
  let diatomGroup := newModelGroup s in
  let '(diatom, diatomGroup) := addSubtree AsMesh diatomGroup in
  let '(ornamentGroup, diatomGroup) := addSubtree AsGroup diatomGroup in
  let '(chloroplastGroup, diatomGroup) := addSubtree AsGroup diatomGroup in
  let '(rapheGroup, diatomGroup) := addSubtree AsGroup diatomGroup in
  let '(grp, s) := diatomGroup in
  let '(c0, s) := newComponent
    {| name := "frustule"; displayName := "Frustule (Shell)";
       mesh := Some diatom; group := None; visible := true; labels := None |} s in
  let '(c1, s) := newComponent
    {| name := "ornaments"; displayName := "Surface Ornaments";
       mesh := None; group := Some ornamentGroup; visible := true;
       labels := None |} s in
  let '(c2, s) := newComponent
    {| name := "chloroplasts"; displayName := "Chloroplasts";
       mesh := None; group := Some chloroplastGroup; visible := true;
       labels := None |} s in
  let '(c3, s) := newComponent
    {| name := "raphe"; displayName := "Raphe System";
       mesh := None; group := Some rapheGroup; visible := true;
       labels := None |} s in
  let s := with_graph
             (graph_with_components
                (<[obj_id grp := [c0; c1; c2; c3]]> (group_components (graph s)))
                (graph s)) s in
  let diatomGroup := (grp, s) in
  let diatomGroup :=
    addLabel "Frustule" (vec3 0 0.4 0.9) (Some c0) diatomGroup in
  let diatomGroup :=
    addLabel "Surface Ornaments" (vec3 0.9 0.2 0) (Some c1) diatomGroup in
  let diatomGroup :=
    addLabel "Chloroplasts" (vec3 (-0.9) 0 0.2) (Some c2) diatomGroup in
  addLabel "Raphe" (vec3 0 0.3 (-0.9)) (Some c3) diatomGroup.
End Diatom.

Module Conodont.
Definition createElementBody := createPart
  {| part_name := "body"; part_displayName := "Element Body";
     part_subtree := AsMesh; part_label := "Element Body";
     part_anchor := vec3 0 0.3 0.3 |}.
Definition createDenticles := createPart
  {| part_name := "denticles"; part_displayName := "Denticles";
     part_subtree := AsGroup; part_label := "Denticles";
     part_anchor := vec3 0.4 0.4 0.3 |}.
Definition createWhiteMatter := createPart
  {| part_name := "whiteMatter"; part_displayName := "White Matter";
     part_subtree := AsMesh; part_label := "White Matter";
     part_anchor := vec3 (-0.3) 0.45 0.5 |}.
Definition cuspPart : Part :=
  {| part_name := "cusp"; part_displayName := "Main Cusp";
     part_subtree := AsMesh; part_label := "Main Cusp";
     part_anchor := vec3 (-0.3) 0.6 0.3 |}.
(** [createCusp] calls [createWhiteMatter] right after [group.add(cusp)],
    before it writes its own component record. *)
Definition createCusp (gs : Object3D * State) : Object3D * State :=
  let '(cusp, gs) := addSubtree AsMesh gs in
  let gs := createWhiteMatter gs in
  let '(c, gs) := registerComponent cuspPart cusp gs in
  addLabel (part_label cuspPart) (part_anchor cuspPart) (Some c) gs.
Definition createBasalCavity := createPart
  {| part_name := "basalCavity"; part_displayName := "Basal Cavity";
     part_subtree := AsMesh; part_label := "Basal Cavity";
     part_anchor := vec3 0 (-0.2) 0.3 |}.
Definition createGrowthLines := createPart
  {| part_name := "growthLines"; part_displayName := "Growth Lines";
     part_subtree := AsGroup; part_label := "Growth Lines";
     part_anchor := vec3 0.2 0.2 0.5 |}.

Definition createConodontModel (s : State) : Object3D * State :=
  let conodontGroup := newModelGroup s in
  let conodontGroup := createElementBody conodontGroup in
  let conodontGroup := createDenticles conodontGroup in
  let conodontGroup := createCusp conodontGroup in
  let conodontGroup := createBasalCavity conodontGroup in
  createGrowthLines conodontGroup.
End Conodont.

Module Ostracod.
Definition createCarapace := createPart
  {| part_name := "carapace"; part_displayName := "Carapace (Shell)";
     part_subtree := AsGroup; part_label := "Carapace";
     part_anchor := vec3 0 0.6 0.6 |}.
Definition createHinge := createPart
  {| part_name := "hinge"; part_displayName := "Hinge Line";
     part_subtree := AsMesh; part_label := "Hinge Line";
     part_anchor := vec3 0 0.5 0.3 |}.
Definition createAppendages := createPart
  {| part_name := "appendages"; part_displayName := "Appendages";
     part_subtree := AsGroup; part_label := "Appendages";
     part_anchor := vec3 0.2 (-0.7) 0.5 |}.
Definition createInternalBody := createPart
  {| part_name := "body"; part_displayName := "Internal Body";
     part_subtree := AsMesh; part_label := "Internal Body";
     part_anchor := vec3 0 0 0.7 |}.
Definition createMuscleScars := createPart
  {| part_name := "muscleScars"; part_displayName := "Muscle Scars";
     part_subtree := AsGroup; part_label := "Muscle Scars";
     part_anchor := vec3 (-0.2) 0.1 0.7 |}.
Definition createEyeSpots := createPart
  {| part_name := "eyeSpots"; part_displayName := "Eye Spots";
     part_subtree := AsGroup; part_label := "Eye Spots";
     part_anchor := vec3 0.6 0.5 0 |}.

Definition createOstracodModel (s : State) : Object3D * State :=
  let ostracodeGroup := newModelGroup s in
  let ostracodeGroup := createCarapace ostracodeGroup in
  let ostracodeGroup := createHinge ostracodeGroup in
  let ostracodeGroup := createAppendages ostracodeGroup in
  let ostracodeGroup := createInternalBody ostracodeGroup in
  let ostracodeGroup := createMuscleScars ostracodeGroup in
  createEyeSpots ostracodeGroup.
End Ostracod.

Module Acritarch.
Definition createVesicle := createPart
  {| part_name := "vesicle"; part_displayName := "Vesicle (Central Body)";
     part_subtree := AsMesh; part_label := "Vesicle";
     part_anchor := vec3 0 0.8 0 |}.
Definition createProcesses := createPart
  {| part_name := "processes"; part_displayName := "Processes (Spines)";
     part_subtree := AsGroup; part_label := "Processes";
     part_anchor := vec3 1.1 0 0.3 |}.
Definition createOperculum := createPart
  {| part_name := "operculum"; part_displayName := "Operculum (Opening)";
     part_subtree := AsMesh; part_label := "Operculum";
     part_anchor := vec3 0 0.3 1.0 |}.
Definition createInteriorStructure := createPart
  {| part_name := "interior"; part_displayName := "Interior Structure";
     part_subtree := AsMesh; part_label := "Interior";
     part_anchor := vec3 0 (-0.3) 0.5 |}.
Definition createWallUltrastructure := createPart
  {| part_name := "wallUltrastructure"; part_displayName := "Wall Ultrastructure";
     part_subtree := AsGroup; part_label := "Wall Ultrastructure";
     part_anchor := vec3 1.2 0.3 0 |}.
Definition createSurfaceOrnamentation := createPart
  {| part_name := "surfaceOrnamentation";
     part_displayName := "Surface Ornamentation";
     part_subtree := AsGroup; part_label := "Surface Ornamentation";
     part_anchor := vec3 (-0.5) 0.9 0.3 |}.

Definition createAcritarchModel (s : State) : Object3D * State :=
  let acritarchGroup := newModelGroup s in
  let acritarchGroup := createVesicle acritarchGroup in
  let acritarchGroup := createProcesses acritarchGroup in
  let acritarchGroup := createOperculum acritarchGroup in
  let acritarchGroup := createInteriorStructure acritarchGroup in
  let acritarchGroup := createWallUltrastructure acritarchGroup in
  createSurfaceOrnamentation acritarchGroup.
End Acritarch.

(** The keys of the [switch] in [loadFossil]. *)
Inductive Specimen :=
  | fusuline | radiolarian | foraminifera | diatom | conodont | ostracod
  | acritarch.

Definition specimenOfKey (type : string) : option Specimen :=
  if String.eqb type "fusuline" then Some fusuline
  else if String.eqb type "radiolarian" then Some radiolarian
  else if String.eqb type "foraminifera" then Some foraminifera
  else if String.eqb type "diatom" then Some diatom
  else if String.eqb type "conodont" then Some conodont
  else if String.eqb type "ostracod" then Some ostracod
  else if String.eqb type "acritarch" then Some acritarch
  else None.

Definition createModel (sp : Specimen) (s : State) : Object3D * State :=
  match sp with
  | fusuline => Fusuline.createFusulineModel s
  | radiolarian => Radiolarian.createRadiolarianModel s
  | foraminifera => Foraminifera.createForaminiferaModel s
  | diatom => Diatom.createDiatomModel s
  | conodont => Conodont.createConodontModel s
  | ostracod => Ostracod.createOstracodModel s
  | acritarch => Acritarch.createAcritarchModel s
  end.

(** ** Strings *)

(** A character of a string stands for one UTF-16 code unit of the
    JavaScript string, so that [String.length] is its [length]; the code
    units are taken below 256. *)

(** The double-quote character of the markup. *)
Definition dquote : string :=
  String (Ascii.Ascii false true false false false true false false) EmptyString.

(** [hay.includes(needle)] *)
Fixpoint includes (hay needle : string) : bool :=
  String.prefix needle hay
  || match hay with
     | EmptyString => false
     | String _ rest => includes rest needle
     end.

(** White space as [trim] sees it, among the code units below 256: tab,
    line feed, vertical tab, form feed, carriage return, space and the
    no-break space. *)
Definition isWhiteSpace (c : Ascii.ascii) : bool :=
  let n := Ascii.nat_of_ascii c in
  (9 <=? n)%nat && (n <=? 13)%nat || (n =? 32)%nat || (n =? 160)%nat.

Fixpoint trimStart (s : string) : string :=
  match s with
  | EmptyString => EmptyString
  | String c rest => if isWhiteSpace c then trimStart rest else s
  end.

Fixpoint trimEnd (s : string) : string :=
  match s with
  | EmptyString => EmptyString
  | String c rest =>
      match trimEnd rest with
      | EmptyString => if isWhiteSpace c then EmptyString else String c EmptyString
      | rest' => String c rest'
      end
  end.

Definition trim (s : string) : string := trimEnd (trimStart s).

(** ** The description document *)

(** A parsed document: elements (tag names in lower case, no attributes,
    as in the description texts) and text, held as it is serialised. *)
Inductive HtmlNode :=
  | Element (tagName : string) (childNodes : list HtmlNode)
  | TextNode (data : string).

Fixpoint outerHTML (n : HtmlNode) : string :=
  match n with
  | TextNode d => d
  | Element t cs =>
      "<" +:+ t +:+ ">"
      +:+ (fix inner (l : list HtmlNode) : string :=
             match l with
             | [] => ""
             | c :: rest => outerHTML c +:+ inner rest
             end) cs
      +:+ "</" +:+ t +:+ ">"
  end.

Fixpoint html_textContent (n : HtmlNode) : string :=
  match n with
  | TextNode d => d
  | Element _ cs =>
      (fix inner (l : list HtmlNode) : string :=
         match l with
         | [] => ""
         | c :: rest => html_textContent c +:+ inner rest
         end) cs
  end.

(** An element found in the document, with what the selectors and the
    sibling walk need: the element sibling before it and the nodes after
    it under the same parent. *)
Record Located := {
  loc_prev : option HtmlNode;
  loc_node : HtmlNode;
  loc_next : list HtmlNode
}.

(** The elements below [n] in document order. *)
Fixpoint descend (n : HtmlNode) : list Located :=
  match n with
  | TextNode _ => []
  | Element _ cs =>
      (fix siblings (prev : option HtmlNode) (l : list HtmlNode)
         : list Located :=
         match l with
         | [] => []
         | c :: rest =>
             match c with
             | TextNode _ => siblings prev rest
             | Element _ _ =>
                 {| loc_prev := prev; loc_node := c; loc_next := rest |}
                 :: descend c ++ siblings (Some c) rest
             end
         end) None cs
  end.

Definition tagIs (t : string) (n : HtmlNode) : bool :=
  match n with
  | Element t' _ => String.eqb t' t
  | TextNode _ => false
  end.

Definition querySelectorAll (sel : Located → bool) (doc : HtmlNode)
  : list Located :=
  List.filter sel (descend doc).

Definition querySelector (sel : Located → bool) (doc : HtmlNode)
  : option Located :=
  head (querySelectorAll sel doc).

(** The selectors ['h3'], ['h3 + p'], ['h4'] and ['em']. *)
Definition sel_h3 (l : Located) : bool := tagIs "h3" (loc_node l).
Definition sel_h3_plus_p (l : Located) : bool :=
  tagIs "p" (loc_node l)
  && match loc_prev l with Some p => tagIs "h3" p | None => false end.
Definition sel_h4 (l : Located) : bool := tagIs "h4" (loc_node l).
Definition sel_em (l : Located) : bool := tagIs "em" (loc_node l).

Record TabSection := {
  sec_id : string;
  sec_title : string;
  sec_content : string
}.

(** The [nextElementSibling] loop: the markup of the following element
    siblings up to the next [h4]. *)
Fixpoint collectSiblings (l : list HtmlNode) : string :=
  match l with
  | [] => ""
  | TextNode _ :: rest => collectSiblings rest
  | Element t cs :: rest =>
      if String.eqb t "h4" then ""
      else outerHTML (Element t cs) +:+ collectSiblings rest
  end.

(** The first [h4] whose text includes [needle]. *)
Definition findHeading (needle : string) (doc : HtmlNode) : option Located :=
  List.find (λ h, includes (html_textContent (loc_node h)) needle)
    (querySelectorAll sel_h4 doc).

Definition headingSection (id title needle : string) (doc : HtmlNode)
  : list TabSection :=
  match findHeading needle doc with
  | Some h =>
      [{| sec_id := id; sec_title := title;
          sec_content := outerHTML (loc_node h) +:+ collectSiblings (loc_next h) |}]
  | None => []
  end.

Definition overviewSection (doc : HtmlNode) : list TabSection :=
  match querySelector sel_h3_plus_p doc with
  | Some p =>
      [{| sec_id := "overview"; sec_title := "Overview";
          sec_content := outerHTML (loc_node p) |}]
  | None => []
  end.

(** The [sections] array before the source step. *)
Definition headedSections (doc : HtmlNode) : list TabSection :=
  overviewSection doc
  ++ headingSection "features" "Features" "Key Features" doc
  ++ headingSection "significance" "Significance" "Geological Significance" doc
  ++ headingSection "taxonomy" "Taxonomy" "Taxonomy" doc.

Definition appendContent (extra : string) (sec : TabSection) : TabSection :=
  {| sec_id := sec_id sec; sec_title := sec_title sec;
     sec_content := sec_content sec +:+ extra |}.

(** "Add source information to the taxonomy tab or create a new tab if
    needed". *)
Definition addSource (doc : HtmlNode) (sections : list TabSection)
  : list TabSection :=
  match querySelector sel_em doc with
  | Some sourceEm =>
      match last sections with
      | Some lastSection =>
          if String.eqb (sec_id lastSection) "taxonomy" then
            removelast sections
            ++ [appendContent (outerHTML (loc_node sourceEm)) lastSection]
          else
            sections
            ++ [{| sec_id := "source"; sec_title := "Source";
                   sec_content := outerHTML (loc_node sourceEm) |}]
      | None => sections
      end
  | None => sections
  end.

(** The [sections] array the tabs are made from. *)
Definition sectionsOf (doc : HtmlNode) : list TabSection :=
  addSource doc (headedSections doc).

Definition activeClass (index : nat) : string :=
  match index with O => "active" | S _ => "" end.

Definition tabButton (index : nat) (sec : TabSection) : string :=
  "<div class=" +:+ dquote +:+ "info-tab " +:+ activeClass index +:+ dquote
  +:+ " data-tab=" +:+ dquote +:+ sec_id sec +:+ dquote +:+ ">"
  +:+ sec_title sec +:+ "</div>".

Definition tabContent (index : nat) (sec : TabSection) : string :=
  "<div class=" +:+ dquote +:+ "info-content " +:+ activeClass index +:+ dquote
  +:+ " id=" +:+ dquote +:+ "tab-" +:+ sec_id sec +:+ dquote +:+ ">"
  +:+ sec_content sec +:+ "</div>".

Definition concatStrings (l : list string) : string :=
  fold_right String.append "" l.

(** [createTabbedContent], on the document the parser returned. *)
Definition createTabbedContent (doc : HtmlNode) : string :=
  let title := match querySelector sel_h3 doc with
               | Some h => outerHTML (loc_node h)
               | None => ""
               end in
  let sections := sectionsOf doc in
  title
  +:+ "<div class=" +:+ dquote +:+ "info-tabs" +:+ dquote +:+ ">"
  +:+ concatStrings (imap tabButton sections)
  +:+ "</div>"
  +:+ concatStrings (imap tabContent sections).

(** The value [updateFossilInfo] gives to the panel's [innerHTML];
    [parseFromString] is the browser's [DOMParser]. *)
Definition renderInfo (parseFromString : string → HtmlNode) (info : string)
  : string :=
  if (String.length (trim info) <? 50)%nat || negb (includes info "<h3>")
  then info
  else createTabbedContent (parseFromString info).

(** ** js/controls.js *)

Definition view_with_toggles (v : list ComponentToggle) (w : View) : View :=
  {| crossSectionEnabled := crossSectionEnabled w;
     clippingPlanes := clippingPlanes w; fossilType := fossilType w;
     componentToggles := v; fossilInfo := fossilInfo w;
     cameraPosition := cameraPosition w |}.
Definition view_with_info (v : string) (w : View) : View :=
  {| crossSectionEnabled := crossSectionEnabled w;
     clippingPlanes := clippingPlanes w; fossilType := fossilType w;
     componentToggles := componentToggles w; fossilInfo := v;
     cameraPosition := cameraPosition w |}.
Definition view_with_camera (v : CameraPosition) (w : View) : View :=
  {| crossSectionEnabled := crossSectionEnabled w;
     clippingPlanes := clippingPlanes w; fossilType := fossilType w;
     componentToggles := componentToggles w; fossilInfo := fossilInfo w;
     cameraPosition := v |}.
Definition view_with_fossilType (v : string) (w : View) : View :=
  {| crossSectionEnabled := crossSectionEnabled w;
     clippingPlanes := clippingPlanes w; fossilType := v;
     componentToggles := componentToggles w; fossilInfo := fossilInfo w;
     cameraPosition := cameraPosition w |}.
Definition view_with_crossSection (b : bool) (planes : list (Vector3 * float))
    (w : View) : View :=
  {| crossSectionEnabled := b; clippingPlanes := planes;
     fossilType := fossilType w; componentToggles := componentToggles w;
     fossilInfo := fossilInfo w; cameraPosition := cameraPosition w |}.

(** The checkbox made for one component; [displayName || name]. *)
Definition makeToggle (s : State) (c : ref) : option ComponentToggle :=
  match components s !! c with
  | Some component =>
      Some {| toggle_id := "toggle-" +:+ name component;
              toggle_checked := visible component;
              toggle_text := match displayName component with
                             | EmptyString => name component
                             | d => d
                             end;
              toggle_component := c |}
  | None => None
  end.

(** [updateComponentToggles(components)] *)
Definition updateComponentToggles (cs : list ref) (s : State) : State :=
  with_view (view_with_toggles (omap (makeToggle s) cs) (view s)) s.

(** [toggleComponentVisibility(component, isVisible)] *)
Definition toggleComponentVisibility (c : ref) (isVisible : bool) (s : State)
  : State :=
  match components s !! c with
  | None => s
  | Some component =>
      let mark (m : ref) (s : State) : State :=
        let s := set_visible m isVisible s in
        with_components (alter (set_comp_visible isVisible) c (components s)) s in
      let s := match mesh component with
               | Some m => mark m s
               | None =>
                   match group component with
                   | Some g => mark g s
                   | None => s
                   end
               end in
      match labels component with
      | Some ls =>
          fold_left
            (λ s label,
               set_display (lh_element label)
                 (if isVisible then "block" else "none") s)
            ls s
      | None => s
      end
  end.

(** ** js/main.js *)

(** [toggleLabels] *)
Definition toggleLabels (s : State) : State :=
  fold_left
    (λ s label,
       set_display (li_element label)
         (if String.eqb (default "" (display (dom s) !! li_element label)) "none"
          then "block" else "none") s)
    (window_labels s) s.

(** [toggleCrossSection] *)
Definition toggleCrossSection (s : State) : State :=
  let enabled := negb (crossSectionEnabled (view s)) in
  match currentModel s with
  | Some _ =>
      with_view
        (view_with_crossSection enabled
           (if enabled then [(vec3 0 1 0, 0%float)] else []) (view s)) s
  | None =>
      with_view
        (view_with_crossSection enabled (clippingPlanes (view s)) (view s)) s
  end.

(** [resetView]: [camera.position.set(0, 0, 5)], then [controls.reset()],
    which puts back the state the controls saved and recomputes the
    camera's position from it. *)
Definition resetView (s : State) : State :=
  with_view (view_with_camera (ControlsReset (vec3 0 0 5)) (view s)) s.

(** The number of [.fossil-label] elements attached in the document. *)
Definition countLabelElements (s : State) : nat :=
  size (filter (λ ep, className (dom s) !! ep.1 = Some "fossil-label")
          (parentNode (dom s))).

(** [window.checkForOrphanedLabels] *)
Definition checkForOrphanedLabels (s : State) : nat * State :=
  let s := removeAllLabels s in
  (countLabelElements s, s).

Section Viewer.

(** The texts returned by [getFusulineInfo] ... [getAcritarchInfo], and the
    browser's HTML parser. *)
Variable getInfo : Specimen → string.
Variable parseFromString : string → HtmlNode.

(** [updateFossilInfo(info)] *)
Definition updateFossilInfo (info : string) (s : State) : State :=
  with_view (view_with_info (renderInfo parseFromString info) (view s)) s.

(** The first part of [loadFossil]: "Clear previous model", "Clear all
    previous labels", "Reset cross-section". *)
Definition teardown (s : State) : State :=
  let s := match currentModel s with
           | Some m => scene_remove m s
           | None => s
           end in
  let s := removeAllLabels s in
  with_view (view_with_crossSection false [] (view s)) s.

(** The [switch]: a known key builds the model, which [currentModel] then
    refers to; no case matches any other key. *)
Definition build (type : string) (s : State) : list ref * string * State :=
  match specimenOfKey type with
  | Some sp =>
      let '(model, s) := createModel sp s in
      let s := with_graph
                 (graph_with_detached (model :: detached (graph s)) (graph s)) s in
      let s := with_currentModel (Some (obj_id model)) s in
      (default [] (group_components (graph s) !! obj_id model), getInfo sp, s)
  | None => ([], "", s)
  end.

(** "Setup model and update UI" *)
Definition attach (built : list ref * string * State) : State :=
  let '(comps, info, s) := built in
  let s := match currentModel s with
           | Some m => scene_add m s
           | None => s
           end in
  let s := updateComponentToggles comps s in
  let s := updateFossilInfo info s in
  resetView s.

(** [loadFossil(type)] *)
Definition loadFossil (type : string) (s : State) : State :=
  let s := teardown s in
  let s := with_view (view_with_fossilType type (view s)) s in
  attach (build type s).

(** [onFossilChange] for each selection of a sequence. *)
Definition loadAll (types : list string) (s : State) : State :=
  fold_left (λ s type, loadFossil type s) types s.

End Viewer.

(** The state [init] reaches before its first [loadFossil]: an empty scene
    with the three lights of [addLights], the label container set, the
    camera written at [z = 5] and given to the new OrbitControls. *)
Definition initial : State :=
  {| next_ref := 4;
     graph := {| scene := Obj 0 Scene [Obj 1 Light []; Obj 2 Light []; Obj 3 Light []];
                 detached := [];
                 obj_visible := ∅;
                 group_components := ∅ |};
     components := ∅;
     dom := {| className := ∅; textContent := ∅; parentNode := ∅;
               display := ∅; opacity := ∅ |};
     window_labels := [];
     labelContainer := true;
     currentModel := None;
     view := {| crossSectionEnabled := false; clippingPlanes := [];
                fossilType := "fusuline"; componentToggles := [];
                fossilInfo := "<p>Select a fossil to view information</p>";
                cameraPosition := ControlsCreated (vec3 0 0 5) |} |}.

(** ** Notions the properties are stated with *)

(** The subtree a component record holds: [mesh] if present, else [group]. *)
Definition subtreeOf (c : Component) : option ref :=
  match mesh c with
  | Some m => Some m
  | None => group c
  end.

(** An overlay element is shown unless its [style.display] is "none". *)
Definition shown (s : State) (e : ref) : bool :=
  negb (String.eqb (default "" (display (dom s) !! e)) "none").

Definition displayFor (isVisible : bool) : string :=
  if isVisible then "block" else "none".

Definition setLabelDisplays (isVisible : bool) (ls : list LabelHandle)
    (s : State) : State :=
  fold_left (λ s label, set_display (lh_element label) (displayFor isVisible) s)
    ls s.


(** A well-formed description document has a paragraph right after its
    title. *)
Definition wellFormedDocument (doc : HtmlNode) : Prop :=
  is_Some (querySelector sel_h3_plus_p doc).

(** The sections in front of the Taxonomy section. *)
Definition sectionsBeforeTaxonomy (doc : HtmlNode) : list TabSection :=
  overviewSection doc
  ++ headingSection "features" "Features" "Key Features" doc
  ++ headingSection "significance" "Significance" "Geological Significance" doc.

(** The references [removeAllLabels] collects in [objectsToRemove]. *)
Definition labelObjectRefs (o : Object3D) : list ref :=
  map obj_id (filter (λ o, isCSS2DObject o = true) (traverse o)).

(** The two halves of [removeAllLabels]: the scene part and the overlay
    part. *)
Definition removeLabelObjects (s : State) : State :=
  fold_left (λ s object, scene_remove object s)
    (labelObjectRefs (scene (graph s))) s.

Definition finishLabels (s : State) : State :=
  let s := fold_left detachLabelElement (window_labels s) s in
  let s := with_window_labels [] s in
  if labelContainer s then sweepContainer s else s.

(** The references of the scene's direct children. *)
Definition childRefs (s : State) : list ref :=
  map obj_id (obj_children (scene (graph s))).

(** References identify objects: no two objects of the scene share one. *)
Definition uniqueRefs (s : State) : Prop :=
  NoDup (map obj_id (traverse (scene (graph s)))).

(** The state with another [parentNode] map. *)
Definition set_parents (p : gmap ref DomParent) (s : State) : State :=
  with_dom (dom_with_parentNode p (dom s)) s.

(** No CSS2DObject in the tree. *)
Definition labelFree (o : Object3D) : Prop :=
  Forall (λ x, isCSS2DObject x = false) (traverse o).

(** The number of [addLabel] calls of each factory. *)
Definition labelCount (sp : Specimen) : nat :=
  match sp with
  | fusuline => 8
  | radiolarian => 4
  | foraminifera => 6
  | diatom => 4
  | conodont => 6
  | ostracod => 6
  | acritarch => 6
  end.

(** The invariant of the viewer's object graph: references identify the
    objects of the scene and were all handed out already, the root of the
    scene is no label, label objects sit only below the current model, and
    the current model, if there is one, is a child of the scene. *)
Definition wellFormed (s : State) : Prop :=
  uniqueRefs s
  ∧ Forall (λ r, r < next_ref s) (map obj_id (traverse (scene (graph s))))
  ∧ isCSS2DObject (scene (graph s)) = false
  ∧ Forall (λ c, currentModel s = Some (obj_id c) ∨ labelFree c)
      (obj_children (scene (graph s)))
  ∧ match currentModel s with
    | Some m => m ∈ childRefs s
    | None => True
    end.

(** The scene with the current model moved behind its other children. *)
Definition modelMovedLast (s : State) : Object3D :=
  match scene (graph s), currentModel s with
  | Obj i k cs, Some m =>
      match take_child m cs with
      | Some (o, rest) => Obj i k (rest ++ [o])
      | None => Obj i k cs
      end
  | sc, None => sc
  end.

(** Registration as the specification words it, for comparison with
    [components.push]: a name already present is refused. *)
Inductive RegisterOutcome :=
  | Registered (names : list string)
  | DuplicateNameError.

Definition register_spec (names : list string) (n : string) : RegisterOutcome :=
  if decide (n ∈ names) then DuplicateNameError else Registered (names ++ [n]).

(** Stand-ins for the description texts and the parser, for the concrete
    runs below. *)
Definition sampleInfo (sp : Specimen) : string := "<p>No description</p>".
Definition sampleParser (markup : string) : HtmlNode :=
  Element "body" [TextNode markup].

(** The names under which the components of group [g] are registered, in
    order. *)
Definition registeredNames (s : State) (g : ref) : list (option string) :=
  map (λ c, name <$> components s !! c)
    (default [] (group_components (graph s) !! g)).

(** What holds of a model group while a factory called in state [x] is
    building it, after [k] labels and the components [names]: its objects
    carry distinct references handed out since [x], the scene and the
    panels are as in [x], the global array grew by one entry per label
    object of the group, in order, and the group's [components] list holds
    [names]. *)
Definition Building (x : State) (k : nat) (names : list string)
    (gs : Object3D * State) : Prop :=
  let '(grp, s) := gs in
  obj_id grp = next_ref x
  ∧ next_ref x < next_ref s
  ∧ Forall (λ r, next_ref x ≤ r < next_ref s) (map obj_id (traverse grp))
  ∧ NoDup (map obj_id (traverse grp))
  ∧ (scene (graph s) = scene (graph x)
     ∧ detached (graph s) = detached (graph x)
     ∧ obj_visible (graph s) = obj_visible (graph x)
     ∧ currentModel s = currentModel x
     ∧ labelContainer s = labelContainer x
     ∧ view s = view x
     ∧ parentNode (dom s) = parentNode (dom x)
     ∧ display (dom s) = display (dom x))
  ∧ (∃ new, window_labels s = window_labels x ++ new
            ∧ omap li_object new = labelObjectRefs grp
            ∧ Forall (λ l, next_ref x ≤ li_element l < next_ref s
                           ∧ ∃ o, li_object l = Some o
                                  ∧ next_ref x ≤ o < next_ref s) new
            ∧ length new = k)
  ∧ Forall (λ c, c < next_ref s)
      (default [] (group_components (graph s) !! obj_id grp))
  ∧ registeredNames s (obj_id grp) = map Some names.

(** The state in which [loadFossil] calls the factory. *)
Definition factoryInput (type : string) (s : State) : State :=
  let t := teardown s in
  with_view (view_with_fossilType type (view t)) t.

(** The state in which [loadFossil] calls [scene.add]: the model is built
    and [currentModel] refers to it. *)
Definition modelBuilt (sp : Specimen) (x : State) : State :=
  let model := (createModel sp x).1 in
  let x' := (createModel sp x).2 in
  with_currentModel (Some (obj_id model))
    (with_graph (graph_with_detached (model :: detached (graph x')) (graph x')) x').

(** ** Concrete runs *)

(** The viewer after [init]: the fusuline is loaded. *)
Definition afterFusuline : State :=
  loadFossil sampleInfo sampleParser "fusuline" initial.

(** The same state once the label renderer has attached every overlay
    element below the label container. *)
Definition afterFirstFrame : State :=
  set_parents
    (list_to_map
       (map (λ l, (li_element l, InModelContainer)) (window_labels afterFusuline)))
    afterFusuline.

(** Three labels 15, 5 and 10 away from a camera at the origin. *)
Definition sampleLabels : list LabelInfo :=
  [ {| li_object := Some 1; li_element := 11; li_component := None |};
    {| li_object := Some 2; li_element := 12; li_component := None |};
    {| li_object := Some 3; li_element := 13; li_component := None |} ].

Definition sampleWorld (r : ref) : Vector3 :=
  match r with
  | 1 => vec3 0 0 15
  | 2 => vec3 3 4 0
  | _ => vec3 6 8 0
  end.

(** The record of the fusuline's shell after the load. *)
Definition shellComponent : Component :=
  {| name := "shell"; displayName := "Outer Shell"; mesh := Some 5;
     group := None; visible := true;
     labels := Some [{| lh_object := 8; lh_element := 7 |}] |}.

(** A description with a title, an overview, a feature list, a taxonomy
    section and a citation, and one without taxonomy. *)
Definition sampleDocument : HtmlNode :=
  Element "body"
    [ Element "h3" [TextNode "Diatom"];
      Element "p" [TextNode "Diatoms are photosynthetic microalgae."];
      Element "h4" [TextNode "Key Features:"];
      Element "ul" [Element "li" [TextNode "Frustule"];
                    Element "li" [TextNode "Ornaments"];
                    Element "li" [TextNode "Chloroplasts"]];
      Element "h4" [TextNode "Taxonomy & Classification:"];
      Element "p" [TextNode "Domain: Eukaryota"];
      Element "p" [Element "em" [TextNode "Data sourced from DiatomBase"]] ].

Definition sampleDocumentNoTaxonomy : HtmlNode :=
  Element "body"
    [ Element "h3" [TextNode "Diatom"];
      Element "p" [TextNode "Diatoms are photosynthetic microalgae."];
      Element "p" [Element "em" [TextNode "Data sourced from DiatomBase"]] ].

(** A part registered twice on one group. *)
Definition carapaceTwice : Object3D * State :=
  Ostracod.createCarapace (Ostracod.createCarapace (newModelGroup initial)).

Global Instance uniqueRefs_dec s : Decision (uniqueRefs s).
Proof. unfold uniqueRefs. apply _. Defined.

Global Instance labelFree_dec o : Decision (labelFree o).
Proof. unfold labelFree. apply _. Defined.

Global Instance wellFormed_dec s : Decision (wellFormed s).
Proof.
  unfold wellFormed, childRefs. destruct (currentModel s); apply _.
Defined.

(** ** Further notions *)

(** *** The description panel *)

(** [nodeType === 1]: the nodes [nextElementSibling] stops at. *)
Definition isElement (n : HtmlNode) : bool :=
  match n with
  | Element _ _ => true
  | TextNode _ => false
  end.

(** The [id] and [title] of a section, and the pairs [createTabbedContent]
    can push, in the order of its steps: the four headed sections, and the
    three that can stand in front of a Source section. *)
Definition sectionKind (sec : TabSection) : string * string :=
  (sec_id sec, sec_title sec).

Definition headedKinds : list (string * string) :=
  [("overview", "Overview"); ("features", "Features");
   ("significance", "Significance"); ("taxonomy", "Taxonomy")].

Definition sourceKinds : list (string * string) :=
  [("overview", "Overview"); ("features", "Features");
   ("significance", "Significance"); ("source", "Source")].

(** The opening tag of the tab bar. *)
Definition tabBarOpen : string :=
  "<div class=" +:+ dquote +:+ "info-tabs" +:+ dquote +:+ ">".

(** The panel once [innerHTML] holds the tabbed markup: the [.info-tab]
    elements with their [data-tab] and the [.info-content] elements with
    their [id], each with whether its class list holds "active". *)
Record InfoPanel := {
  panel_tabs : list (string * bool);
  panel_contents : list (string * bool)
}.

Definition hasActive (index : nat) : bool :=
  String.eqb (activeClass index) "active".

Definition panelOf (sections : list TabSection) : InfoPanel :=
  {| panel_tabs := imap (λ index sec, (sec_id sec, hasActive index)) sections;
     panel_contents :=
       imap (λ index sec, ("tab-" +:+ sec_id sec, hasActive index)) sections |}.

(** [document.getElementById(id).classList.add('active')]: the first
    element with the id gets the class; without such an element
    [getElementById] returns null and the access throws. *)
Fixpoint activateById (id : string) (l : list (string * bool))
  : option (list (string * bool)) :=
  match l with
  | [] => None
  | c :: rest =>
      if String.eqb c.1 id then Some ((c.1, true) :: rest)
      else (λ r, c :: r) <$> activateById id rest
  end.

(** The click listener of the tab at [index]; [None] when there is no such
    tab or the listener throws. *)
Definition clickTab (index : nat) (p : InfoPanel) : option InfoPanel :=
  match panel_tabs p !! index with
  | None => None
  | Some tab =>
      let tabs :=
        <[index := (tab.1, true)]> (map (λ t, (t.1, false)) (panel_tabs p)) in
      let tabContents := map (λ c, (c.1, false)) (panel_contents p) in
      match activateById ("tab-" +:+ tab.1) tabContents with
      | Some contents =>
          Some {| panel_tabs := tabs; panel_contents := contents |}
      | None => None
      end
  end.

(** The panel in which exactly the tab at [index] and the content of the
    same section are active. *)
Definition panelShowing (sections : list TabSection) (index : nat) : InfoPanel :=
  {| panel_tabs := imap (λ j sec, (sec_id sec, bool_decide (j = index))) sections;
     panel_contents :=
       imap (λ j sec, ("tab-" +:+ sec_id sec, bool_decide (j = index)))
         sections |}.

(** *** Labels and stores *)

(** The opacity [updateLabels] writes for element [e]: that of the last
    entry of [labels] with this element that has an [object]. *)
Definition writtenOpacity (world : ref → Vector3) (cameraPosition : Vector3)
    (labels : list LabelInfo) (e : ref) : option string :=
  last (omap (λ l, if decide (li_element l = e)
                   then (λ object,
                           opacityFor (distanceTo (world object) cameraPosition))
                        <$> li_object l
                   else None) labels).

(** The display [toggleLabels] gives to an element whose display is [d]. *)
Definition flippedDisplay (d : option string) : string :=
  if String.eqb (default "" d) "none" then "block" else "none".

(** The clipping planes are in place exactly when the cross-section is
    enabled. *)
Definition crossSectionConsistent (s : State) : Prop :=
  clippingPlanes (view s) ≠ [] ↔ crossSectionEnabled (view s) = true.

(** The first half of [toggleComponentVisibility]: the subtree's flag and
    the stored flag are written only when the record holds a subtree. *)
Definition markVisible (c : ref) (v : bool) (component : Component) (s : State)
  : State :=
  match subtreeOf component with
  | Some m =>
      with_components (alter (set_comp_visible v) c (components s))
        (set_visible m v s)
  | None => s
  end.

(** References not handed out yet carry no [visible] flag, no [display] and
    no parent. *)
Definition freshStores (s : State) : Prop :=
  map_Forall (λ r _, r < next_ref s) (obj_visible (graph s))
  ∧ map_Forall (λ r _, r < next_ref s) (display (dom s))
  ∧ map_Forall (λ r _, r < next_ref s) (parentNode (dom s)).

(** The handle [addLabel] pushes on component [c] for an entry of the
    global array that names it. *)
Definition handleOf (c : ref) (l : LabelInfo) : option LabelHandle :=
  if decide (li_component l = Some c)
  then (λ o, {| lh_object := o; lh_element := li_element l |}) <$> li_object l
  else None.

Definition handlesOf (c : ref) (ls : list LabelInfo) : list LabelHandle :=
  omap (handleOf c) ls.

(** What holds of the records while a factory called in state [x] is
    building a group: what was allocated before [x] is as in [x], every
    registered component was created since [x], is visible, holds a child of
    the group, and its [labels] are the handles of the entries added to the
    global array that name it; each such entry names a registered component
    and its element carries the class "fossil-label". *)
Definition Recorded (x : State) (gs : Object3D * State) : Prop :=
  let '(grp, s) := gs in
  let registered := default [] (group_components (graph s) !! obj_id grp) in
  (∀ r : ref, r < next_ref x →
        components s !! r = components x !! r
        ∧ className (dom s) !! r = className (dom x) !! r
        ∧ textContent (dom s) !! r = textContent (dom x) !! r)
  ∧ opacity (dom s) = opacity (dom x)
  ∧ ∃ new,
      window_labels s = window_labels x ++ new
      ∧ Forall (λ c : ref, next_ref x ≤ c
                     ∧ ∃ component m,
                         components s !! c = Some component
                         ∧ visible component = true
                         ∧ subtreeOf component = Some m
                         ∧ m ∈ map obj_id (obj_children grp)
                         ∧ default [] (labels component) = handlesOf c new)
          registered
      ∧ Forall (λ l, (∃ c, li_component l = Some c ∧ c ∈ registered)
                     ∧ className (dom s) !! li_element l = Some "fossil-label")
          new.

(** The [name]s of the component records of each factory, in the order of
    registration. *)
Definition componentNames (sp : Specimen) : list string :=
  match sp with
  | fusuline =>
      ["shell"; "septa"; "aperture"; "chambers"; "chomata"; "tunnel";
       "cuniculus"; "septalPores"]
  | radiolarian => ["skeleton"; "capsule"; "spines"; "axopods"]
  | foraminifera =>
      ["test"; "chambers"; "aperture"; "pseudopodia"; "symbiotic_algae";
       "pore_system"]
  | diatom => ["frustule"; "ornaments"; "chloroplasts"; "raphe"]
  | conodont =>
      ["body"; "denticles"; "whiteMatter"; "cusp"; "basalCavity"; "growthLines"]
  | ostracod =>
      ["carapace"; "hinge"; "appendages"; "body"; "muscleScars"; "eyeSpots"]
  | acritarch =>
      ["vesicle"; "processes"; "operculum"; "interior"; "wallUltrastructure";
       "surfaceOrnamentation"]
  end.

(** The children of the scene other than the current model. *)
Definition withoutCurrentModel (s : State) : list Object3D :=
  match currentModel s with
  | Some m =>
      match take_child m (obj_children (scene (graph s))) with
      | Some (_, rest) => rest
      | None => obj_children (scene (graph s))
      end
  | None => obj_children (scene (graph s))
  end.

(** Freshness can be checked by evaluation. *)
Definition freshStores_dec (s : State) : Decision (freshStores s).
Proof. unfold freshStores. apply _. Defined.

(** *** Further concrete inputs *)

(** The markup of a short description, and a parser that answers with the
    sample document. *)
Definition sampleMarkup : string :=
  "<h3>Diatom</h3><p>Diatoms are photosynthetic microalgae.</p>".

Definition sampleDocumentParser (markup : string) : HtmlNode := sampleDocument.

(** The entry of the global array and the handle of the shell's label after
    the fusuline is loaded. *)
Definition shellLabel : LabelInfo :=
  {| li_object := Some 8; li_element := 7; li_component := Some 6 |}.

Definition shellHandle : LabelHandle := {| lh_object := 8; lh_element := 7 |}.

(** A record that holds neither a mesh nor a group, with the shell's label,
    beside the records of the fusuline. *)
Definition bareComponent : Component :=
  {| name := "bare"; displayName := ""; mesh := None; group := None;
     visible := true; labels := Some [shellHandle] |}.

Definition withBareComponent : State :=
  with_components (<[100 := bareComponent]> (components afterFusuline))
    afterFusuline.

(** Siblings after a heading: a list, white space, a paragraph. *)
Definition sampleSiblings : list HtmlNode :=
  [ Element "ul" [Element "li" [TextNode "Frustule"]];
    TextNode " ";
    Element "p" [TextNode "Domain: Eukaryota"] ].

(** *** The viewer and its events *)

(** The label part of [animate]: [updateLabels] runs when the global array
    is not empty. *)
Definition animateLabels (world : ref → Vector3) (cameraPosition : Vector3)
    (s : State) : State :=
  match window_labels s with
  | [] => s
  | _ :: _ => updateLabels world cameraPosition (window_labels s) s
  end.

(** [labelRenderer.render(scene, camera)], over-approximated: the renderer
    sets the parent and the display of overlay elements; here it may set
    those of any elements that exist, in any way. *)
Definition renderLabels (parents : gmap ref DomParent)
    (displays : gmap ref string) (s : State) : State :=
  with_dom
    (dom_with_display (filter (λ ed, ed.1 < next_ref s) displays)
       (dom_with_parentNode (filter (λ ep, ep.1 < next_ref s) parents) (dom s)))
    s.

(** What can happen to the viewer once [init] has run: a selection in the
    fossil list, a change of the checkbox at a position of the component
    panel, a click on one of the three buttons, an animation frame with its
    label pass and its rendering of the overlay, and a call of the
    diagnostic from the console. *)
Inductive Event :=
  | SelectFossil (type : string)
  | ChangeCheckbox (index : nat) (checked : bool)
  | ClickToggleLabels
  | ClickToggleCrossSection
  | ClickResetView
  | AnimateLabels (world : ref → Vector3) (cameraPosition : Vector3)
  | RenderLabels (parents : gmap ref DomParent) (displays : gmap ref string)
  | CallCheckForOrphanedLabels.

Section Events.

Variable getInfo : Specimen → string.
Variable parseFromString : string → HtmlNode.

Definition handle (e : Event) (s : State) : State :=
  match e with
  | SelectFossil type => loadFossil getInfo parseFromString type s
  | ChangeCheckbox index checked =>
      match componentToggles (view s) !! index with
      | Some toggle =>
          toggleComponentVisibility (toggle_component toggle) checked s
      | None => s
      end
  | ClickToggleLabels => toggleLabels s
  | ClickToggleCrossSection => toggleCrossSection s
  | ClickResetView => resetView s
  | AnimateLabels world cameraPosition => animateLabels world cameraPosition s
  | RenderLabels parents displays => renderLabels parents displays s
  | CallCheckForOrphanedLabels => (checkForOrphanedLabels s).2
  end.

Definition run (events : list Event) (s : State) : State :=
  fold_left (λ s e, handle e s) events s.

End Events.

(** A component record refers to what exists: its own reference, its
    subtree and the elements of its labels were handed out. *)
Definition allocatedRecord (s : State) (c : ref) (component : Component) : Prop :=
  c < next_ref s
  ∧ (∀ m : ref, subtreeOf component = Some m → m < next_ref s)
  ∧ Forall (λ h, lh_element h < next_ref s) (default [] (labels component)).

Definition allocatedRecords (s : State) : Prop :=
  map_Forall (allocatedRecord s) (components s).

(** What the factories keep true of the group they build and of the
    records: the group is no label object and every record refers to what
    exists. *)
Definition soundGroup (gs : Object3D * State) : Prop :=
  allocatedRecords gs.2 ∧ isCSS2DObject gs.1 = false.

(** The invariant of the running viewer. *)
Definition viewerInvariant (s : State) : Prop :=
  wellFormed s
  ∧ freshStores s
  ∧ allocatedRecords s
  ∧ Forall (λ l, li_element l < next_ref s) (window_labels s)
  ∧ Forall (λ c, isCSS2DObject c = false) (obj_children (scene (graph s))).

(** ** The citation of a description *)

(** The citation as the specification has it, a trailing line of the
    document: the emphasis that makes up the last paragraph of the body. *)
Definition trailingCitation_spec (doc : HtmlNode) : option HtmlNode :=
  match doc with
  | Element _ childNodes =>
      match last (filter (λ n, isElement n = true) childNodes) with
      | Some (Element t [Element t' inner]) =>
          if String.eqb t "p" && String.eqb t' "em"
          then Some (Element t' inner) else None
      | _ => None
      end
  | TextNode _ => None
  end.

(** Where the specification puts the citation: with a trailing citation,
    its markup ends the Taxonomy section when a Taxonomy heading was
    recognised, and otherwise a last section titled "Source" holds it;
    without one, the sections are the headed ones. *)
Definition citationPlaced_spec (doc : HtmlNode) : Prop :=
  match trailingCitation_spec doc with
  | Some citation =>
      match findHeading "Taxonomy" doc with
      | Some h =>
          sectionsOf doc
          = sectionsBeforeTaxonomy doc
            ++ [{| sec_id := "taxonomy"; sec_title := "Taxonomy";
                   sec_content :=
                     (outerHTML (loc_node h) +:+ collectSiblings (loc_next h))
                     +:+ outerHTML citation |}]
      | None =>
          sectionsOf doc
          = headedSections doc
            ++ [{| sec_id := "source"; sec_title := "Source";
                   sec_content := outerHTML citation |}]
      end
  | None => sectionsOf doc = headedSections doc
  end.

(** A description whose overview has an emphasis of its own in front of the
    citation, and one with such an emphasis and no citation. *)
Definition sampleDocumentEmphasis : HtmlNode :=
  Element "body"
    [ Element "h3" [TextNode "Diatom"];
      Element "p" [TextNode "Diatoms are ";
                   Element "em" [TextNode "photosynthetic"];
                   TextNode " microalgae."];
      Element "h4" [TextNode "Taxonomy & Classification:"];
      Element "p" [TextNode "Domain: Eukaryota"];
      Element "p" [Element "em" [TextNode "Data sourced from DiatomBase"]] ].

Definition sampleDocumentNoCitation : HtmlNode :=
  Element "body"
    [ Element "h3" [TextNode "Diatom"];
      Element "p" [TextNode "Diatoms are ";
                   Element "em" [TextNode "photosynthetic"];
                   TextNode " microalgae."];
      Element "h4" [TextNode "Key Features:"];
      Element "ul" [Element "li" [TextNode "Frustule"]] ].
(** * Properties *)

(** ** The per-frame opacity rule *)

Lemma updateLabel_opacity_other world cam s l e :
  li_element l ≠ e →
  opacity (dom (updateLabel world cam s l)) !! e = opacity (dom s) !! e.
Proof.
  intros Hne. unfold updateLabel. destruct (li_object l); [|done].
  simpl. by rewrite lookup_insert_ne.
Qed.

Lemma updateLabels_cons world cam l labels s :
  updateLabels world cam (l :: labels) s
  = updateLabels world cam labels (updateLabel world cam s l).
Proof. reflexivity. Qed.

Lemma updateLabels_opacity_other world cam labels s e :
  e ∉ map li_element labels →
  opacity (dom (updateLabels world cam labels s)) !! e = opacity (dom s) !! e.
Proof.
  revert s. induction labels as [|l labels IH]; intros s Hnot; [done|].
  rewrite updateLabels_cons. simpl in Hnot.
  apply not_elem_of_cons in Hnot as [Hne Hnot].
  rewrite IH by done. by apply updateLabel_opacity_other.
Qed.

Lemma updateLabels_opacity world cam labels s l object :
  NoDup (map li_element labels) →
  l ∈ labels →
  li_object l = Some object →
  opacity (dom (updateLabels world cam labels s)) !! li_element l
  = Some (opacityFor (distanceTo (world object) cam)).
Proof.
  revert s. induction labels as [|a labels IH]; intros s Hnd Hin Hobj.
  - by apply elem_of_nil in Hin.
  - simpl in Hnd. apply NoDup_cons in Hnd as [Hfresh Hnd].
    rewrite updateLabels_cons.
    apply elem_of_cons in Hin as [->|Hin]; [|by apply IH].
    rewrite updateLabels_opacity_other by done.
    unfold updateLabel. rewrite Hobj. simpl. by rewrite lookup_insert_eq.
Qed.

(** C5: for every label the per-frame update processes, with the labels of
    the array owning distinct overlay elements, the element's opacity
    becomes "0.3" when the distance from the label's world position to the
    camera is strictly greater than 10 and "1" otherwise; a label 15 away
    gets "0.3", a label 5 away "1" and a label exactly 10 away "1". *)
Theorem updateLabels_distance_rule world cam labels s l object :
  NoDup (map li_element labels) →
  l ∈ labels →
  li_object l = Some object →
  let distance := distanceTo (world object) cam in
  opacity (dom (updateLabels world cam labels s)) !! li_element l
  = Some (if (10 <? distance)%float then "0.3" else "1")
  ∧ distanceTo (vec3 0 0 15) (vec3 0 0 0) = 15%float
  ∧ opacityFor 15 = "0.3"
  ∧ distanceTo (vec3 3 4 0) (vec3 0 0 0) = 5%float
  ∧ opacityFor 5 = "1"
  ∧ distanceTo (vec3 6 8 0) (vec3 0 0 0) = 10%float
  ∧ opacityFor 10 = "1".
Proof.
  intros Hnd Hin Hobj distance. split.
  - by apply updateLabels_opacity.
  - repeat split; vm_compute; reflexivity.
Qed.

(** ** Toggling a component *)

Lemma setLabelDisplays_frame v ls s :
  let s' := setLabelDisplays v ls s in
  next_ref s' = next_ref s ∧ graph s' = graph s
  ∧ components s' = components s ∧ window_labels s' = window_labels s
  ∧ labelContainer s' = labelContainer s ∧ currentModel s' = currentModel s
  ∧ view s' = view s
  ∧ className (dom s') = className (dom s)
  ∧ textContent (dom s') = textContent (dom s)
  ∧ parentNode (dom s') = parentNode (dom s)
  ∧ opacity (dom s') = opacity (dom s).
Proof.
  revert s. induction ls as [|h ls IH]; intros s; simpl; [by repeat split|].
  specialize (IH (set_display (lh_element h) (displayFor v) s)).
  simpl in IH. unfold setLabelDisplays in *. simpl.
  destruct IH as (-> & -> & -> & -> & -> & -> & -> & -> & -> & -> & ->).
  by repeat split.
Qed.

Lemma setLabelDisplays_other v ls s e :
  e ∉ map lh_element ls →
  display (dom (setLabelDisplays v ls s)) !! e = display (dom s) !! e.
Proof.
  revert s. induction ls as [|h ls IH]; intros s Hnot; [done|].
  simpl in Hnot. apply not_elem_of_cons in Hnot as [Hne Hnot].
  unfold setLabelDisplays in *. simpl. rewrite IH by done.
  simpl. by rewrite lookup_insert_ne.
Qed.

Lemma setLabelDisplays_member v ls s h :
  h ∈ ls →
  display (dom (setLabelDisplays v ls s)) !! lh_element h = Some (displayFor v).
Proof.
  revert s h. induction ls as [|a ls IH]; intros s h Hin.
  - by apply elem_of_nil in Hin.
  - unfold setLabelDisplays in *. simpl.
    destruct (decide (lh_element h ∈ map lh_element ls)) as [Hlater|Hnot].
    + apply list_elem_of_fmap in Hlater as (h' & Heq & Hin').
      rewrite Heq. by apply IH.
    + fold (setLabelDisplays v ls (set_display (lh_element a) (displayFor v) s)).
      rewrite setLabelDisplays_other by done.
      apply elem_of_cons in Hin as [->|Hin].
      * simpl. by rewrite lookup_insert_eq.
      * exfalso. apply Hnot. apply list_elem_of_fmap. by exists h.
Qed.

(** [toggleComponentVisibility] on a component that holds a subtree. *)
Lemma toggleComponentVisibility_unfold c v s component m :
  components s !! c = Some component →
  subtreeOf component = Some m →
  toggleComponentVisibility c v s
  = setLabelDisplays v (default [] (labels component))
      (with_components (alter (set_comp_visible v) c (components s))
         (set_visible m v s)).
Proof.
  intros Hc Hm. unfold toggleComponentVisibility, subtreeOf in *. rewrite Hc.
  assert (∀ x, match labels component with
               | Some ls =>
                   fold_left
                     (λ s label, set_display (lh_element label)
                                   (if v then "block" else "none") s) ls x
               | None => x
               end = setLabelDisplays v (default [] (labels component)) x) as Hl.
  { intros x. destruct (labels component); reflexivity. }
  rewrite Hl. destruct (mesh component) as [m'|].
  - by inversion Hm.
  - rewrite Hm. reflexivity.
Qed.

Lemma toggle_component_record c v s component m :
  components s !! c = Some component →
  subtreeOf component = Some m →
  components (toggleComponentVisibility c v s) !! c
  = Some (set_comp_visible v component).
Proof.
  intros Hc Hm.
  rewrite (toggleComponentVisibility_unfold c v s component m Hc Hm).
  pose proof (setLabelDisplays_frame v (default [] (labels component))
    (with_components (alter (set_comp_visible v) c (components s))
       (set_visible m v s))) as Hf.
  simpl in Hf. destruct Hf as (_ & _ & -> & _).
  simpl. rewrite lookup_alter_eq, Hc. reflexivity.
Qed.

(** C6: after [toggleComponentVisibility(c, v)] on a component that holds a
    subtree, the component's stored flag is [v], the subtree's [visible]
    flag is [v], and every label of the component has its overlay element
    displayed iff [v] ("block" for true, "none" for false); the rest of the
    record is untouched. *)
Theorem toggle_makes_flags_agree c v s component m :
  components s !! c = Some component →
  subtreeOf component = Some m →
  let s' := toggleComponentVisibility c v s in
  components s' !! c = Some (set_comp_visible v component)
  ∧ visible <$> components s' !! c = Some v
  ∧ is_visible s' m = v
  ∧ ∀ label, label ∈ default [] (labels component) →
      display (dom s') !! lh_element label = Some (displayFor v)
      ∧ shown s' (lh_element label) = v.
Proof.
  intros Hc Hm s'. subst s'.
  pose proof (toggle_component_record c v s component m Hc Hm) as Hrec.
  rewrite (toggleComponentVisibility_unfold c v s component m Hc Hm) in *.
  pose proof (setLabelDisplays_frame v (default [] (labels component))
    (with_components (alter (set_comp_visible v) c (components s))
       (set_visible m v s))) as Hf.
  simpl in Hf. destruct Hf as (_ & Hg & _).
  split; [exact Hrec|]. split; [by rewrite Hrec|]. split.
  - unfold is_visible. rewrite Hg. simpl. by rewrite lookup_insert_eq.
  - intros label Hin.
    pose proof (setLabelDisplays_member v _
      (with_components (alter (set_comp_visible v) c (components s))
         (set_visible m v s)) label Hin) as Hd.
    split; [exact Hd|]. unfold shown. rewrite Hd. by destruct v.
Qed.

Lemma set_comp_visible_twice v w component :
  set_comp_visible v (set_comp_visible w component) = set_comp_visible v component.
Proof. reflexivity. Qed.

Lemma set_comp_visible_same component :
  set_comp_visible (visible component) component = component.
Proof. by destruct component. Qed.

(** C7: for a component that holds a subtree and starts visible with its
    labels shown, [toggle(c, false)] followed by [toggle(c, true)] gives
    back the component records, the [visible] flag of every object and the
    shown/hidden state of every overlay element exactly as they were; the
    scene and the global label array are not touched. *)
Theorem toggle_off_on_restores c s component m :
  components s !! c = Some component →
  subtreeOf component = Some m →
  visible component = true →
  is_visible s m = true →
  (∀ label, label ∈ default [] (labels component) →
            shown s (lh_element label) = true) →
  let s2 := toggleComponentVisibility c true (toggleComponentVisibility c false s) in
  components s2 = components s
  ∧ (∀ r, is_visible s2 r = is_visible s r)
  ∧ (∀ e, shown s2 e = shown s e)
  ∧ scene (graph s2) = scene (graph s)
  ∧ window_labels s2 = window_labels s.
Proof.
  intros Hc Hm Hvis Hsub Hshown s2. subst s2.
  set (ls := default [] (labels component)).
  pose proof (toggle_component_record c false s component m Hc Hm) as Hc1.
  assert (subtreeOf (set_comp_visible false component) = Some m) as Hm1
    by exact Hm.
  rewrite (toggleComponentVisibility_unfold c true _ _ m Hc1 Hm1).
  rewrite (toggleComponentVisibility_unfold c false s component m Hc Hm) in *.
  simpl labels. fold ls.
  set (x1 := with_components (alter (set_comp_visible false) c (components s))
               (set_visible m false s)).
  set (s1 := setLabelDisplays false ls x1).
  set (x2 := with_components (alter (set_comp_visible true) c (components s1))
               (set_visible m true s1)).
  pose proof (setLabelDisplays_frame false ls x1) as F1.
  pose proof (setLabelDisplays_frame true ls x2) as F2.
  simpl in F1, F2. fold s1 in F1.
  destruct F1 as (_ & Hg1 & Hcs1 & Hw1 & _).
  destruct F2 as (_ & Hg2 & Hcs2 & Hw2 & _).
  split; [|split; [|split; [|split]]].
  - rewrite Hcs2. subst x2. simpl. rewrite Hcs1. subst x1. simpl.
    apply map_eq. intros i. destruct (decide (i = c)) as [->|Hne].
    + rewrite !lookup_alter_eq, Hc. simpl.
      rewrite set_comp_visible_twice, <- Hvis. f_equal.
      apply set_comp_visible_same.
    + by rewrite !lookup_alter_ne.
  - intros r. unfold is_visible. rewrite Hg2. subst x2. simpl.
    rewrite Hg1. subst x1. simpl.
    destruct (decide (r = m)) as [->|Hne].
    + rewrite lookup_insert_eq. simpl. symmetry. exact Hsub.
    + by rewrite !lookup_insert_ne.
  - intros e. unfold shown.
    destruct (decide (e ∈ map lh_element ls)) as [Hin|Hnot].
    + apply list_elem_of_fmap in Hin as (label & -> & Hin).
      rewrite (setLabelDisplays_member true ls x2 label Hin). simpl.
      symmetry. apply (Hshown label Hin).
    + rewrite (setLabelDisplays_other true ls x2 e Hnot).
      subst x2. simpl. subst s1.
      by rewrite (setLabelDisplays_other false ls x1 e Hnot).
  - rewrite Hg2. subst x2. simpl. rewrite Hg1. by subst x1.
  - rewrite Hw2. subst x2. simpl. rewrite Hw1. by subst x1.
Qed.

(** ** The description panel *)

(** C8: a document whose trimmed length is below 50 or which does not
    contain the title marker "<h3>" is rendered verbatim: the markup the
    panel receives is the document itself, whatever the parser would make of
    it, so no tab bar and no tab content is produced. *)
Theorem short_or_untitled_document_verbatim
    (parseFromString : string → HtmlNode) (info : string) (s : State) :
  (String.length (trim info) < 50 ∨ includes info "<h3>" = false) →
  renderInfo parseFromString info = info
  ∧ fossilInfo (view (updateFossilInfo parseFromString info s)) = info.
Proof.
  intros Hguard.
  assert (renderInfo parseFromString info = info) as Hr.
  { unfold renderInfo. destruct Hguard as [Hshort|Hno].
    - apply Nat.ltb_lt in Hshort. by rewrite Hshort.
    - rewrite Hno. simpl. by rewrite orb_true_r. }
  split; [exact Hr|]. unfold updateFossilInfo. simpl. exact Hr.
Qed.

Lemma headedSections_split doc :
  headedSections doc
  = sectionsBeforeTaxonomy doc ++ headingSection "taxonomy" "Taxonomy" "Taxonomy" doc.
Proof. unfold headedSections, sectionsBeforeTaxonomy. by rewrite <- !app_assoc. Qed.

Lemma sectionsBeforeTaxonomy_ids doc :
  Forall (λ sec, sec_id sec ≠ "taxonomy" ∧ sec_title sec ≠ "Source")
    (sectionsBeforeTaxonomy doc).
Proof.
  unfold sectionsBeforeTaxonomy, overviewSection, headingSection.
  repeat apply Forall_app_2.
  - destruct (querySelector sel_h3_plus_p doc); repeat constructor; done.
  - destruct (findHeading "Key Features" doc); repeat constructor; done.
  - destruct (findHeading "Geological Significance" doc);
      repeat constructor; done.
Qed.

Lemma sectionsBeforeTaxonomy_nonempty doc :
  wellFormedDocument doc → is_Some (last (sectionsBeforeTaxonomy doc)).
Proof.
  intros [p Hp]. unfold sectionsBeforeTaxonomy, overviewSection. rewrite Hp.
  simpl. apply last_is_Some. done.
Qed.

(** C9 (amended): the renderer takes the first [em] element of the
    document, in document order, for the citation, whether or not it is the
    trailing citation line.  In a well-formed document that has an [em]
    element, the markup of the first one is appended to the content of the
    Taxonomy section when a Taxonomy heading was recognised, and otherwise
    a section titled "Source" holding it is emitted after all the others;
    in a document without any [em] element the sections are the headed
    ones, unchanged. *)
Theorem citation_goes_to_taxonomy_or_source doc :
  wellFormedDocument doc →
  match querySelector sel_em doc with
  | Some sourceEm =>
      match findHeading "Taxonomy" doc with
      | Some h =>
          sectionsOf doc
          = sectionsBeforeTaxonomy doc
            ++ [{| sec_id := "taxonomy"; sec_title := "Taxonomy";
                   sec_content :=
                     (outerHTML (loc_node h) +:+ collectSiblings (loc_next h))
                     +:+ outerHTML (loc_node sourceEm) |}]
      | None =>
          sectionsOf doc
          = headedSections doc
            ++ [{| sec_id := "source"; sec_title := "Source";
                   sec_content := outerHTML (loc_node sourceEm) |}]
          ∧ Forall (λ sec, sec_id sec ≠ "taxonomy" ∧ sec_title sec ≠ "Source")
              (headedSections doc)
      end
  | None => sectionsOf doc = headedSections doc
  end.
Proof.
  intros Hwf. unfold sectionsOf, addSource.
  destruct (querySelector sel_em doc) as [sourceEm|]; [|done].
  rewrite headedSections_split.
  remember (headingSection "taxonomy" "Taxonomy" "Taxonomy" doc) as tax eqn:Htax.
  unfold headingSection in Htax.
  destruct (findHeading "Taxonomy" doc) as [h|]; subst tax.
  - rewrite last_snoc. simpl. by rewrite removelast_last.
  - rewrite app_nil_r.
    destruct (sectionsBeforeTaxonomy_nonempty doc Hwf) as [sec Hsec].
    rewrite Hsec.
    pose proof (sectionsBeforeTaxonomy_ids doc) as Hids.
    assert (sec_id sec ≠ "taxonomy") as Hne.
    { apply last_Some in Hsec as [l' Hl']. rewrite Hl' in Hids.
      apply Forall_app in Hids as [_ Hlast].
      by apply Forall_singleton in Hlast as [? _]. }
    apply String.eqb_neq in Hne. rewrite Hne. done.
Qed.

(** The guard [sections.length > 0]: a document without any headed section
    gets no Source section either. *)
Remark no_section_no_source doc :
  headedSections doc = [] → sectionsOf doc = [].
Proof.
  intros Hnone. unfold sectionsOf, addSource. rewrite Hnone.
  by destruct (querySelector sel_em doc).
Qed.

(** ** The object graph *)

Lemma Object3D_tree_ind (P : Object3D → Prop) :
  (∀ i k cs, Forall P cs → P (Obj i k cs)) → ∀ o, P o.
Proof.
  intros Hstep. fix IH 1. intros [i k cs]. apply Hstep.
  induction cs as [|c cs IHcs]; constructor; [apply IH | exact IHcs].
Qed.

Lemma traverse_root o : o ∈ traverse o.
Proof. destruct o. simpl. apply elem_of_cons. by left. Qed.

Lemma elem_of_traverse i k cs x :
  x ∈ traverse (Obj i k cs) ↔ x = Obj i k cs ∨ ∃ c, c ∈ cs ∧ x ∈ traverse c.
Proof.
  simpl. rewrite elem_of_cons. apply or_iff_compat_l.
  rewrite list_elem_of_In, in_flat_map. split.
  - intros (c & Hc & Hx). exists c. by rewrite !list_elem_of_In.
  - intros (c & Hc & Hx). exists c. by rewrite <- !list_elem_of_In.
Qed.

Lemma take_child_None r cs :
  take_child r cs = None ↔ r ∉ map obj_id cs.
Proof.
  induction cs as [|c cs IH]; simpl.
  - split; [intros _; apply not_elem_of_nil | done].
  - rewrite not_elem_of_cons. destruct (decide (obj_id c = r)) as [Heq|Hne].
    + split; [done | intros [Hne _]; congruence].
    + destruct (take_child r cs) as [[x rest]|].
      * split; [done|]. intros [_ Hnot]. by apply IH in Hnot.
      * split; [|done]. intros _. split; [congruence | by apply IH].
Qed.

Lemma take_child_Some r cs o rest :
  take_child r cs = Some (o, rest) →
  obj_id o = r ∧ o ∈ cs ∧ rest `sublist_of` cs
  ∧ (NoDup (map obj_id cs) → r ∉ map obj_id rest).
Proof.
  revert rest. induction cs as [|c cs IH]; intros rest; simpl; [done|].
  destruct (decide (obj_id c = r)) as [Heq|Hne].
  - intros [= -> ->]. split; [done|]. split; [apply elem_of_cons; by left|].
    split; [by apply sublist_cons|].
    intros Hnd. apply NoDup_cons in Hnd as [Hnot _]. by rewrite <- Heq.
  - destruct (take_child r cs) as [[x rest']|] eqn:Ht; [|done].
    intros [= -> <-]. destruct (IH rest' eq_refl) as (Hid & Hin & Hsub & Hnd).
    split; [done|]. split; [apply elem_of_cons; by right|].
    split; [by apply sublist_skip|].
    intros Hnd'. apply NoDup_cons in Hnd' as [_ Hnd']. simpl.
    apply not_elem_of_cons. split; [congruence | by apply Hnd].
Qed.

Lemma set_parents_twice p q s : set_parents p (set_parents q s) = set_parents p s.
Proof. reflexivity. Qed.

Lemma set_parents_same s : set_parents (parentNode (dom s)) s = s.
Proof. destruct s as [n g c [cl tx pn ds op] w l m v]. reflexivity. Qed.

Lemma removeChild_set_parents e s :
  removeChild e s = set_parents (delete e (parentNode (dom s))) s.
Proof. reflexivity. Qed.

(** The [removed] listener only detaches elements. *)
Lemma onRemoved_parents o s :
  ∃ p, onRemoved o s = set_parents p s.
Proof.
  unfold onRemoved. destruct (isCSS2DObject o).
  - revert s. induction (traverse o) as [|x l IH]; intros s; simpl.
    + exists (parentNode (dom s)). by rewrite set_parents_same.
    + destruct (obj_kind x) as [| | | |e pos cmp].
      1-4: apply IH.
      destruct (IH (removeChild e s)) as [p Hp]. exists p.
      by rewrite Hp, removeChild_set_parents, set_parents_twice.
  - exists (parentNode (dom s)). by rewrite set_parents_same.
Qed.

Lemma scene_remove_absent r s :
  r ∉ childRefs s → scene_remove r s = s.
Proof.
  unfold childRefs, scene_remove. destruct (scene (graph s)) as [i k cs].
  simpl. intros Hnot. apply take_child_None in Hnot. by rewrite Hnot.
Qed.

(** What [scene.remove] leaves of the scene. *)
Lemma scene_remove_scene r s i k cs :
  scene (graph s) = Obj i k cs →
  ∃ cs', scene (graph (scene_remove r s)) = Obj i k cs'
         ∧ cs' `sublist_of` cs
         ∧ (NoDup (map obj_id cs) → r ∉ map obj_id cs').
Proof.
  intros Hsc. unfold scene_remove. rewrite Hsc.
  destruct (take_child r cs) as [[o rest]|] eqn:Ht.
  - destruct (onRemoved_parents o
      (with_graph (graph_with_detached (o :: detached (graph s))
                     (graph_with_scene (Obj i k rest) (graph s))) s)) as [p ->].
    simpl. exists rest. split; [done|].
    by destruct (take_child_Some r cs o rest Ht) as (_ & _ & Hsub & Hnd).
  - exists cs. split; [done|]. split; [done|].
    intros _. by apply take_child_None.
Qed.

Lemma sublist_not_elem_of {A} (l1 l2 : list A) x :
  l1 `sublist_of` l2 → x ∉ l2 → x ∉ l1.
Proof. intros Hsub Hnot Hin. apply Hnot. by eapply elem_of_sublist. Qed.

Lemma map_sublist {A B} (f : A → B) (l1 l2 : list A) :
  l1 `sublist_of` l2 → map f l1 `sublist_of` map f l2.
Proof. induction 1; simpl; by constructor. Qed.

(** Removing a list of references, one [scene.remove] each. *)
Lemma fold_scene_remove_scene ids s i k cs :
  scene (graph s) = Obj i k cs →
  ∃ cs', scene (graph (fold_left (λ s object, scene_remove object s) ids s))
         = Obj i k cs'
         ∧ cs' `sublist_of` cs
         ∧ (NoDup (map obj_id cs) → ∀ r, r ∈ ids → r ∉ map obj_id cs').
Proof.
  revert s cs. induction ids as [|r ids IH]; intros s cs Hsc; simpl.
  - exists cs. split; [done|]. split; [done|]. intros _ r Hr.
    by apply elem_of_nil in Hr.
  - destruct (scene_remove_scene r s i k cs Hsc) as (cs1 & Hsc1 & Hsub1 & Hnd1).
    destruct (IH (scene_remove r s) cs1 Hsc1) as (cs2 & Hsc2 & Hsub2 & Hnd2).
    exists cs2. split; [done|]. split; [by etrans|].
    intros Hnd r' Hr'.
    assert (NoDup (map obj_id cs1)) as Hnd1'.
    { exact (sublist_NoDup _ _ Hnd (map_sublist obj_id _ _ Hsub1)). }
    apply elem_of_cons in Hr' as [->|Hr'].
    + eapply sublist_not_elem_of; [by apply map_sublist | by apply Hnd1].
    + by apply Hnd2.
Qed.

Lemma fold_scene_remove_absent ids s :
  (∀ r, r ∈ ids → r ∉ childRefs s) →
  fold_left (λ s object, scene_remove object s) ids s = s.
Proof.
  induction ids as [|r ids IH]; intros Hall; simpl; [done|].
  rewrite scene_remove_absent.
  - apply IH. intros r' Hr'. apply Hall, elem_of_cons. by right.
  - apply Hall, elem_of_cons. by left.
Qed.

Lemma elem_of_labelObjectRefs r o :
  r ∈ labelObjectRefs o ↔
  ∃ x, x ∈ traverse o ∧ isCSS2DObject x = true ∧ obj_id x = r.
Proof.
  unfold labelObjectRefs. split.
  - intros Hin. apply (list_elem_of_fmap obj_id) in Hin as (x & -> & Hx).
    apply list_elem_of_filter in Hx as [Hcss Hx]. by exists x.
  - intros (x & Hx & Hcss & <-). apply (list_elem_of_fmap obj_id).
    exists x. split; [done|]. by apply list_elem_of_filter.
Qed.

(** Fewer children, fewer labels to find. *)
Lemma labelObjectRefs_sublist i k cs cs' r :
  cs' `sublist_of` cs →
  r ∈ labelObjectRefs (Obj i k cs') → r ∈ labelObjectRefs (Obj i k cs).
Proof.
  intros Hsub Hin. apply elem_of_labelObjectRefs in Hin as (x & Hx & Hcss & Hid).
  apply elem_of_labelObjectRefs.
  apply elem_of_traverse in Hx as [->|(c & Hc & Hx)].
  - exists (Obj i k cs). split; [apply traverse_root|]. done.
  - exists x. split; [|done]. apply elem_of_traverse. right. exists c.
    split; [by eapply elem_of_sublist | done].
Qed.

Lemma childRefs_sublist_traverse cs :
  map obj_id cs `sublist_of` map obj_id (flat_map traverse cs).
Proof.
  induction cs as [|[i k ds] cs IH]; simpl; [constructor|].
  apply sublist_skip. rewrite map_app. by apply sublist_inserts_l.
Qed.

Lemma uniqueRefs_children s : uniqueRefs s → NoDup (childRefs s).
Proof.
  unfold uniqueRefs, childRefs. destruct (scene (graph s)) as [i k cs]. simpl.
  intros Hnd. apply NoDup_cons in Hnd as [_ Hnd].
  exact (sublist_NoDup _ _ Hnd (childRefs_sublist_traverse cs)).
Qed.

(** ** Teardown of the labels *)

Lemma removeAllLabels_halves s :
  removeAllLabels s = finishLabels (removeLabelObjects s).
Proof. reflexivity. Qed.

Lemma detachLabelElement_parents s l :
  detachLabelElement s l
  = set_parents (delete (li_element l) (parentNode (dom s))) s.
Proof.
  unfold detachLabelElement.
  destruct (parentNode (dom s) !! li_element l) eqn:He; [done|].
  rewrite delete_id by done. by rewrite set_parents_same.
Qed.

Lemma fold_detach_parents ls s :
  ∃ p, fold_left detachLabelElement ls s = set_parents p s
       ∧ ∀ e, p !! e = if decide (e ∈ map li_element ls) then None
                       else parentNode (dom s) !! e.
Proof.
  revert s. induction ls as [|l ls IH]; intros s; simpl.
  - exists (parentNode (dom s)). split; [by rewrite set_parents_same|].
    intros e. reflexivity.
  - destruct (IH (detachLabelElement s l)) as (p & Hp & Hlook).
    exists p. split.
    + by rewrite Hp, detachLabelElement_parents, set_parents_twice.
    + intros e. rewrite Hlook, detachLabelElement_parents. simpl.
      destruct (decide (e ∈ map li_element ls)) as [Hin|Hnot].
      * rewrite decide_True; [done|]. apply elem_of_cons. by right.
      * destruct (decide (e = li_element l)) as [->|Hne].
        -- rewrite decide_True by (apply elem_of_cons; by left).
           apply lookup_delete_eq.
        -- rewrite decide_False.
           ++ by apply lookup_delete_ne.
           ++ intros [?|?]%elem_of_cons; done.
Qed.

(** The overlay half of the teardown: the array is emptied and only
    [parentNode]s change; the elements of the array end up detached, and
    with a label container no [.fossil-label] stays below it. *)
Lemma finishLabels_shape s :
  ∃ p, finishLabels s = set_parents p (with_window_labels [] s)
       ∧ (∀ l, l ∈ window_labels s → p !! li_element l = None)
       ∧ (∀ e, parentNode (dom s) !! e = None → p !! e = None)
       ∧ (labelContainer s = true →
          ∀ e, p !! e = Some InModelContainer →
               className (dom s) !! e ≠ Some "fossil-label").
Proof.
  unfold finishLabels.
  destruct (fold_detach_parents (window_labels s) s) as (p & Hp & Hlook).
  rewrite Hp. simpl.
  assert (∀ l, l ∈ window_labels s → p !! li_element l = None) as Hdet.
  { intros l Hl. rewrite Hlook. rewrite decide_True; [done|].
    apply (list_elem_of_fmap li_element). by exists l. }
  assert (∀ e, parentNode (dom s) !! e = None → p !! e = None) as Hnone.
  { intros e He. rewrite Hlook. by destruct (decide _). }
  destruct (labelContainer s) eqn:Hcontainer.
  - exists (filter (λ ep, ¬ (ep.2 = InModelContainer
                             ∧ className (dom s) !! ep.1 = Some "fossil-label")) p).
    split; [reflexivity|]. split; [|split].
    + intros l Hl. apply map_lookup_filter_None. left. by apply Hdet.
    + intros e He. apply map_lookup_filter_None. left. by apply Hnone.
    + intros _ e He Hcls.
      apply map_lookup_filter_Some in He as [_ Hkeep]. simpl in Hkeep.
      by apply Hkeep.
  - exists p. split; [reflexivity|]. split; [done|]. split; [done|].
    intros Hc. discriminate.
Qed.

Lemma finishLabels_settled p s :
  (labelContainer s = true →
   ∀ e, p !! e = Some InModelContainer →
        className (dom s) !! e ≠ Some "fossil-label") →
  finishLabels (set_parents p (with_window_labels [] s))
  = set_parents p (with_window_labels [] s).
Proof.
  intros Hswept. unfold finishLabels. simpl.
  destruct (labelContainer s) eqn:Hcontainer; [|reflexivity].
  unfold sweepContainer, set_parents. simpl.
  rewrite map_filter_id; [reflexivity|].
  intros e d He [Hd Hcls]. simpl in Hd, Hcls. subst d. by eapply Hswept.
Qed.

(** The scene half of the teardown changes the graph and [parentNode]s
    only. *)
Lemma scene_remove_shape r s :
  ∃ G p, scene_remove r s = set_parents p (with_graph G s)
         ∧ obj_visible G = obj_visible (graph s)
         ∧ group_components G = group_components (graph s)
         ∧ (∀ e, parentNode (dom s) !! e = None → p !! e = None).
Proof.
  unfold scene_remove. destruct (scene (graph s)) as [i k cs] eqn:Hsc.
  destruct (take_child r cs) as [[o rest]|].
  - set (x := with_graph _ s).
    assert (∃ p, onRemoved o x = set_parents p x
                 ∧ ∀ e, parentNode (dom x) !! e = None → p !! e = None)
      as (p & Hp & Hnone).
    { unfold onRemoved. destruct (isCSS2DObject o).
      - generalize x. induction (traverse o) as [|y l IH]; intros z; simpl.
        + exists (parentNode (dom z)). by rewrite set_parents_same.
        + destruct (obj_kind y) as [| | | |e pos cmp]; [apply IH..|].
          destruct (IH (removeChild e z)) as (p & Hp & Hnone). exists p.
          split; [by rewrite Hp, removeChild_set_parents, set_parents_twice|].
          intros e' He'. apply Hnone. simpl.
          destruct (decide (e' = e)) as [->|Hne];
            [apply lookup_delete_eq | by rewrite lookup_delete_ne].
      - exists (parentNode (dom x)). by rewrite set_parents_same. }
    rewrite Hp. eexists _, p. split; [reflexivity|]. by repeat split.
  - exists (graph s), (parentNode (dom s)). split; [|by repeat split].
    destruct s as [n g c [cl tx pn ds op] w l m v]. reflexivity.
Qed.

Lemma fold_scene_remove_shape ids s :
  ∃ G p, fold_left (λ s object, scene_remove object s) ids s
         = set_parents p (with_graph G s)
         ∧ obj_visible G = obj_visible (graph s)
         ∧ group_components G = group_components (graph s)
         ∧ (∀ e, parentNode (dom s) !! e = None → p !! e = None).
Proof.
  revert s. induction ids as [|r ids IH]; intros s; simpl.
  - exists (graph s), (parentNode (dom s)). split; [|by repeat split].
    destruct s as [n g c [cl tx pn ds op] w l m v]. reflexivity.
  - destruct (scene_remove_shape r s) as (G1 & p1 & -> & Hv1 & Hc1 & Hn1).
    destruct (IH (set_parents p1 (with_graph G1 s)))
      as (G2 & p2 & -> & Hv2 & Hc2 & Hn2).
    exists G2, p2. split; [reflexivity|]. simpl in *.
    split; [congruence|]. split; [congruence|]. intros e He. by apply Hn2, Hn1.
Qed.

(** C4: on a scene whose objects have distinct references, a second
    consecutive [removeAllLabels] changes nothing: the state after it, with
    its scene objects, its attached overlay elements and its global label
    array, equals the state after the first call, and the diagnostic count
    of attached label elements is the same. *)
Theorem removeAllLabels_idempotent s :
  uniqueRefs s →
  removeAllLabels (removeAllLabels s) = removeAllLabels s
  ∧ countLabelElements (removeAllLabels (removeAllLabels s))
    = countLabelElements (removeAllLabels s).
Proof.
  intros Huniq. apply uniqueRefs_children in Huniq.
  assert (removeAllLabels (removeAllLabels s) = removeAllLabels s) as Heq;
    [|by rewrite Heq].
  rewrite (removeAllLabels_halves s).
  set (s1 := removeLabelObjects s).
  destruct (finishLabels_shape s1) as (p & Hfin & _ & _ & Hswept).
  rewrite Hfin. rewrite removeAllLabels_halves.
  assert (removeLabelObjects (set_parents p (with_window_labels [] s1))
          = set_parents p (with_window_labels [] s1)) as ->.
  { unfold removeLabelObjects at 1. apply fold_scene_remove_absent.
    intros r Hr. simpl in Hr. unfold childRefs. simpl.
    destruct (scene (graph s)) as [i k cs] eqn:Hsc.
    destruct (fold_scene_remove_scene (labelObjectRefs (Obj i k cs)) s i k cs Hsc)
      as (cs' & Hsc' & Hsub & Hgone).
    unfold childRefs in Huniq. rewrite Hsc in Huniq. simpl in Huniq.
    subst s1. unfold removeLabelObjects in *. rewrite Hsc in *.
    rewrite Hsc' in *. simpl.
    apply (Hgone Huniq). by eapply labelObjectRefs_sublist. }
  by apply finishLabels_settled.
Qed.









(** ** The factories *)

Lemma traverse_add_child i k cs c :
  traverse (Obj i k (cs ++ [c]))
  = Obj i k (cs ++ [c]) :: flat_map traverse cs ++ traverse c.
Proof.
  change (traverse (Obj i k (cs ++ [c])))
    with (Obj i k (cs ++ [c]) :: flat_map traverse (cs ++ [c])).
  rewrite flat_map_app. simpl. by rewrite app_nil_r.
Qed.

Lemma obj_id_add_child c grp : obj_id (add_child c grp) = obj_id grp.
Proof. by destruct grp. Qed.

Lemma refs_add_child c grp :
  map obj_id (traverse (add_child c grp))
  = map obj_id (traverse grp) ++ map obj_id (traverse c).
Proof.
  destruct grp as [i k cs]. unfold add_child. rewrite traverse_add_child.
  change (traverse (Obj i k cs)) with (Obj i k cs :: flat_map traverse cs).
  simpl. by rewrite map_app.
Qed.

Lemma labelObjectRefs_add_child c grp :
  labelObjectRefs (add_child c grp) = labelObjectRefs grp ++ labelObjectRefs c.
Proof.
  destruct grp as [i k cs]. unfold add_child, labelObjectRefs.
  rewrite traverse_add_child.
  change (traverse (Obj i k cs)) with (Obj i k cs :: flat_map traverse cs).
  rewrite !filter_cons. unfold isCSS2DObject at 1 3. simpl obj_kind.
  destruct (decide _); simpl; by rewrite filter_app, map_app.
Qed.

(** A leaf with a fresh reference keeps the references of a group under
    construction distinct and in range. *)
Lemma add_leaf_refs lo hi grp r k :
  Forall (λ i, lo ≤ i < hi) (map obj_id (traverse grp)) →
  NoDup (map obj_id (traverse grp)) →
  lo ≤ hi → hi ≤ r →
  ∀ hi', r < hi' →
  Forall (λ i, lo ≤ i < hi') (map obj_id (traverse (add_child (Obj r k []) grp)))
  ∧ NoDup (map obj_id (traverse (add_child (Obj r k []) grp))).
Proof.
  intros Hrange Hnd Hlo Hr hi' Hhi'. rewrite refs_add_child. simpl. split.
  - apply Forall_app. split.
    + eapply Forall_impl; [exact Hrange|]. simpl. intros o Ho. lia.
    + apply Forall_singleton. lia.
  - apply NoDup_app. split; [done|]. split.
    + intros i Hi Hin. apply list_elem_of_singleton in Hin as ->.
      rewrite Forall_forall in Hrange. specialize (Hrange r Hi). lia.
    + apply NoDup_singleton.
Qed.

Lemma Building_newModelGroup x : Building x 0 [] (newModelGroup x).
Proof.
  unfold Building, newModelGroup, registeredNames. simpl.
  rewrite lookup_insert_eq. simpl.
  split; [done|]. split; [lia|]. split; [repeat constructor; simpl; lia|].
  split; [apply NoDup_singleton|]. split; [by repeat split|].
  split; [|split; [by apply Forall_nil | by rewrite lookup_insert_eq]].
  exists []. rewrite app_nil_r. split; [done|]. split; [done|].
  split; [by apply Forall_nil | done].
Qed.

Lemma Building_addSubtree x k names t gs :
  Building x k names gs → Building x k names (addSubtree t gs).2.
Proof.
  destruct gs as [grp s]. unfold Building, addSubtree. simpl.
  intros (Hid & Hlt & Hrange & Hnd & Hframe & (new & Hwl & Hobj & Hel & Hlen)
          & Hfresh & Hnames).
  rewrite obj_id_add_child.
  destruct (add_leaf_refs (next_ref x) (next_ref s) grp (next_ref s)
              (match t with AsMesh => Mesh | AsGroup => Group end)
              Hrange Hnd ltac:(lia) ltac:(lia) (S (next_ref s)) ltac:(lia))
    as [Hrange' Hnd'].
  split; [done|]. split; [lia|]. split; [done|]. split; [done|].
  split; [done|]. split; [|split].
  - exists new. split; [done|]. split; [|split; [|done]].
    + rewrite labelObjectRefs_add_child, Hobj.
      unfold labelObjectRefs at 2. simpl.
      destruct t; simpl; by rewrite app_nil_r.
    + eapply Forall_impl; [exact Hel|]. simpl.
      intros l [Hl (o & Ho & Hob)]. split; [lia|]. exists o. split; [done | lia].
  - eapply Forall_impl; [exact Hfresh|]. simpl. intros c Hc. lia.
  - exact Hnames.
Qed.

Lemma name_alter_push h c (m : gmap ref Component) c' :
  name <$> alter (push_comp_label h) c m !! c' = name <$> m !! c'.
Proof.
  destruct (decide (c = c')) as [->|Hne].
  - rewrite lookup_alter_eq. by destruct (m !! c').
  - by rewrite lookup_alter_ne.
Qed.

Lemma Building_registerComponent x k names p m gs :
  Building x k names gs →
  Building x k (names ++ [part_name p]) (registerComponent p m gs).2.
Proof.
  destruct gs as [grp s]. unfold Building, registerComponent, registeredNames.
  simpl.
  intros (Hid & Hlt & Hrange & Hnd & Hframe & (new & Hwl & Hobj & Hel & Hlen)
          & Hfresh & Hnames).
  rewrite lookup_insert_eq. simpl.
  split; [done|]. split; [lia|]. split.
  { eapply Forall_impl; [exact Hrange|]. simpl. intros o Ho. lia. }
  split; [done|]. split; [done|]. split; [|split].
  - exists new. split; [done|]. split; [done|]. split; [|done].
    eapply Forall_impl; [exact Hel|]. simpl.
      intros l [Hl (o & Ho & Hob)]. split; [lia|]. exists o. split; [done | lia].
  - apply Forall_app. split; [|apply Forall_singleton; lia].
    eapply Forall_impl; [exact Hfresh|]. simpl. intros c Hc. lia.
  - rewrite lookup_insert_eq. simpl. rewrite !map_app. simpl.
    rewrite lookup_insert_eq. simpl. f_equal.
    rewrite <- Hnames. apply map_ext_in. intros c Hc.
    rewrite Forall_forall in Hfresh. apply list_elem_of_In in Hc.
    specialize (Hfresh c Hc). rewrite lookup_insert_ne by lia. done.
Qed.

Lemma addLabel_unfold text pos c grp s :
  addLabel text pos (Some c) (grp, s)
  = (add_child (Obj (S (next_ref s))
                  (CSS2DObject (next_ref s) pos (Some c)) []) grp,
     with_components
       (alter (push_comp_label {| lh_object := S (next_ref s);
                                  lh_element := next_ref s |}) c (components s))
       (with_window_labels
          (window_labels s
           ++ [{| li_object := Some (S (next_ref s));
                  li_element := next_ref s; li_component := Some c |}])
          (with_next_ref (S (S (next_ref s)))
             (with_dom
                (dom_with_textContent
                   (<[next_ref s := text]> (textContent (dom s)))
                   (dom_with_className
                      (<[next_ref s := "fossil-label"]> (className (dom s)))
                      (dom s))) s)))).
Proof. reflexivity. Qed.

Lemma Building_addLabel x k names text pos c gs :
  Building x k names gs →
  Building x (S k) names (addLabel text pos (Some c) gs).
Proof.
  destruct gs as [grp s]. rewrite addLabel_unfold.
  unfold Building, registeredNames. simpl.
  intros (Hid & Hlt & Hrange & Hnd & Hframe & (new & Hwl & Hobj & Hel & Hlen)
          & Hfresh & Hnames).
  rewrite obj_id_add_child.
  destruct (add_leaf_refs (next_ref x) (next_ref s) grp (S (next_ref s))
              (CSS2DObject (next_ref s) pos (Some c))
              Hrange Hnd ltac:(lia) ltac:(lia) (S (S (next_ref s))) ltac:(lia))
    as [Hrange' Hnd'].
  split; [done|]. split; [lia|]. split; [done|]. split; [done|].
  split; [done|]. split; [|split].
  - exists (new ++ [{| li_object := Some (S (next_ref s));
                       li_element := next_ref s; li_component := Some c |}]).
    split; [by rewrite Hwl, app_assoc|]. split; [|split].
    + rewrite labelObjectRefs_add_child, <- Hobj.
      rewrite omap_app. reflexivity.
    + apply Forall_app. split.
      * eapply Forall_impl; [exact Hel|]. simpl.
      intros l [Hl (o & Ho & Hob)]. split; [lia|]. exists o. split; [done | lia].
      * apply Forall_singleton. simpl. split; [lia|].
        exists (S (next_ref s)). split; [done | lia].
    + rewrite length_app, Hlen. simpl. lia.
  - eapply Forall_impl; [exact Hfresh|]. simpl. intros c' Hc'. lia.
  - rewrite <- Hnames. apply map_ext. intros c'. apply name_alter_push.
Qed.

Lemma Building_createPart x k names p gs :
  Building x k names gs →
  Building x (S k) (names ++ [part_name p]) (createPart p gs).
Proof.
  intros Hb. unfold createPart.
  pose proof (Building_addSubtree x k names (part_subtree p) gs Hb) as H1.
  destruct (addSubtree (part_subtree p) gs) as [m gs1]. simpl in H1.
  pose proof (Building_registerComponent x k names p m gs1 H1) as H2.
  destruct (registerComponent p m gs1) as [c gs2]. simpl in H2.
  by apply Building_addLabel.
Qed.

Lemma Building_createCusp x k names gs :
  Building x k names gs →
  Building x (S (S k)) ((names ++ ["whiteMatter"]) ++ ["cusp"])
    (Conodont.createCusp gs).
Proof.
  intros Hb. unfold Conodont.createCusp.
  pose proof (Building_addSubtree x k names AsMesh gs Hb) as H1.
  destruct (addSubtree AsMesh gs) as [cusp gs1]. simpl in H1.
  pose proof (Building_createPart x k names _ gs1 H1
              : Building x (S k) (names ++ ["whiteMatter"])
                  (Conodont.createWhiteMatter gs1)) as H2.
  pose proof (Building_registerComponent x (S k) _ Conodont.cuspPart cusp _ H2)
    as H3.
  destruct (registerComponent Conodont.cuspPart cusp
              (Conodont.createWhiteMatter gs1)) as [c gs3]. simpl in H3.
  by apply Building_addLabel.
Qed.

(** The four component records of the diatom and the assignment of the
    [components] array. *)
Lemma Building_diatom_components x k names grp s c0 c1 c2 c3 :
  Building x k names (grp, s) →
  let '(r0, s0) := Diatom.newComponent c0 s in
  let '(r1, s1) := Diatom.newComponent c1 s0 in
  let '(r2, s2) := Diatom.newComponent c2 s1 in
  let '(r3, s3) := Diatom.newComponent c3 s2 in
  Building x k [name c0; name c1; name c2; name c3]
    (grp,
     with_graph
       (graph_with_components
          (<[obj_id grp := [r0; r1; r2; r3]]> (group_components (graph s3)))
          (graph s3)) s3).
Proof.
  unfold Building, registeredNames. simpl.
  intros (Hid & Hlt & Hrange & Hnd & Hframe & (new & Hwl & Hobj & Hel & Hlen)
          & Hfresh & Hnames).
  rewrite lookup_insert_eq. simpl.
  split; [done|]. split; [lia|]. split.
  { eapply Forall_impl; [exact Hrange|]. simpl. intros o Ho. lia. }
  split; [done|]. split; [done|]. split; [|split].
  - exists new. split; [done|]. split; [done|]. split; [|done].
    eapply Forall_impl; [exact Hel|]. simpl.
      intros l [Hl (o & Ho & Hob)]. split; [lia|]. exists o. split; [done | lia].
  - repeat (apply Forall_cons; split; [lia|]). by apply Forall_nil.
  - rewrite lookup_insert_eq. simpl. rewrite !lookup_insert.
    repeat (case_decide; try lia). reflexivity.
Qed.

Lemma Building_createDiatomModel x :
  Building x 4 ["frustule"; "ornaments"; "chloroplasts"; "raphe"]
    (Diatom.createDiatomModel x).
Proof.
  unfold Diatom.createDiatomModel.
  pose proof (Building_newModelGroup x) as H0.
  pose proof (Building_addSubtree x _ _ AsMesh _ H0) as H1.
  destruct (addSubtree AsMesh (newModelGroup x)) as [diatom gs1]. simpl in H1.
  pose proof (Building_addSubtree x _ _ AsGroup _ H1) as H2.
  destruct (addSubtree AsGroup gs1) as [ornamentGroup gs2]. simpl in H2.
  pose proof (Building_addSubtree x _ _ AsGroup _ H2) as H3.
  destruct (addSubtree AsGroup gs2) as [chloroplastGroup gs3]. simpl in H3.
  pose proof (Building_addSubtree x _ _ AsGroup _ H3) as H4.
  destruct (addSubtree AsGroup gs3) as [rapheGroup gs4]. simpl in H4.
  destruct gs4 as [grp s].
  pose proof (Building_diatom_components x _ _ grp s
    {| name := "frustule"; displayName := "Frustule (Shell)";
       mesh := Some diatom; group := None; visible := true; labels := None |}
    {| name := "ornaments"; displayName := "Surface Ornaments";
       mesh := None; group := Some ornamentGroup; visible := true;
       labels := None |}
    {| name := "chloroplasts"; displayName := "Chloroplasts";
       mesh := None; group := Some chloroplastGroup; visible := true;
       labels := None |}
    {| name := "raphe"; displayName := "Raphe System";
       mesh := None; group := Some rapheGroup; visible := true;
       labels := None |} H4) as H5.
  simpl name in H5.
  destruct (Diatom.newComponent _ s) as [c0 s0].
  destruct (Diatom.newComponent _ s0) as [c1 s1].
  destruct (Diatom.newComponent _ s1) as [c2 s2].
  destruct (Diatom.newComponent _ s2) as [c3 s3].
  by repeat apply Building_addLabel.
Qed.

Lemma NoDup_names (names : list string) :
  bool_decide (NoDup names) = true → NoDup names.
Proof. intros H. by apply bool_decide_eq_true in H. Qed.

(** Every factory builds its model in the way [Building] describes, with
    as many labels as it has [addLabel] calls and with distinct component
    names. *)
Lemma createModel_Building sp x :
  ∃ names, Building x (labelCount sp) names (createModel sp x) ∧ NoDup names.
Proof.
  destruct sp; simpl createModel; simpl labelCount.
  - eexists. split.
    + unfold Fusuline.createFusulineModel.
      repeat apply Building_createPart. apply Building_newModelGroup.
    + by apply NoDup_names.
  - eexists. split.
    + unfold Radiolarian.createRadiolarianModel.
      repeat apply Building_createPart. apply Building_newModelGroup.
    + by apply NoDup_names.
  - eexists. split.
    + unfold Foraminifera.createForaminiferaModel.
      repeat apply Building_createPart. apply Building_newModelGroup.
    + by apply NoDup_names.
  - eexists. split; [apply Building_createDiatomModel|].
    by apply NoDup_names.
  - eexists. split.
    + unfold Conodont.createConodontModel.
      do 2 apply Building_createPart. apply Building_createCusp.
      do 2 apply Building_createPart. apply Building_newModelGroup.
    + by apply NoDup_names.
  - eexists. split.
    + unfold Ostracod.createOstracodModel.
      repeat apply Building_createPart. apply Building_newModelGroup.
    + by apply NoDup_names.
  - eexists. split.
    + unfold Acritarch.createAcritarchModel.
      repeat apply Building_createPart. apply Building_newModelGroup.
    + by apply NoDup_names.
Qed.

(** ** Loading a specimen *)

Lemma find_object_root i k cs : find_object i (Obj i k cs) = Some (Obj i k cs).
Proof. simpl. by rewrite decide_True. Qed.

(** A reference that no object of the tree carries is neither found in it
    nor pruned from it. *)
Lemma absent_ref_tree r o :
  r ∉ map obj_id (traverse o) → find_object r o = None ∧ prune r o = o.
Proof.
  induction o as [i k cs IH] using Object3D_tree_ind. intros Hnot.
  change (traverse (Obj i k cs)) with (Obj i k cs :: flat_map traverse cs) in Hnot.
  simpl in Hnot. apply not_elem_of_cons in Hnot as [Hne Hnot].
  assert (Forall (λ c, find_object r c = None ∧ prune r c = c ∧ obj_id c ≠ r) cs)
    as Hcs.
  { clear Hne. induction cs as [|c cs IHcs]; [by apply Forall_nil|].
    apply Forall_cons in IH as [IHc IH]. simpl in Hnot.
    rewrite map_app in Hnot. apply not_elem_of_app in Hnot as [Hc Hrest].
    apply Forall_cons. split; [|by apply IHcs].
    destruct (IHc Hc) as [-> ->]. split; [done|]. split; [done|].
    intros Heq. apply Hc. rewrite <- Heq. destruct c. simpl.
    apply elem_of_cons. by left. }
  clear IH Hnot. simpl. rewrite decide_False by congruence. split.
  - induction cs as [|c cs IHcs]; [done|].
    apply Forall_cons in Hcs as [(-> & _ & _) Hcs]. by apply IHcs.
  - f_equal. induction cs as [|c cs IHcs]; [done|].
    apply Forall_cons in Hcs as [(_ & Hp & Hid) Hcs].
    rewrite decide_False by done. rewrite Hp. f_equal. by apply IHcs.
Qed.

Lemma take_child_split r cs o rest :
  take_child r cs = Some (o, rest) →
  ∃ l1 l2, cs = l1 ++ o :: l2 ∧ rest = l1 ++ l2 ∧ obj_id o = r.
Proof.
  revert rest. induction cs as [|c cs IH]; intros rest; simpl; [done|].
  destruct (decide (obj_id c = r)) as [Heq|Hne].
  - intros [= -> ->]. by exists [], rest.
  - destruct (take_child r cs) as [[x rest']|] eqn:Ht; [|done].
    intros [= -> <-]. destruct (IH rest' eq_refl) as (l1 & l2 & -> & -> & Hid).
    by exists (c :: l1), l2.
Qed.

Lemma scene_remove_found r s i k cs o rest :
  scene (graph s) = Obj i k cs →
  take_child r cs = Some (o, rest) →
  ∃ p, scene_remove r s
       = set_parents p
           (with_graph (graph_with_detached (o :: detached (graph s))
                          (graph_with_scene (Obj i k rest) (graph s))) s)
       ∧ ∀ e, parentNode (dom s) !! e = None → p !! e = None.
Proof.
  intros Hsc Ht.
  destruct (scene_remove_shape r s) as (G & p & Heq & _ & _ & Hnone).
  exists p. split; [|done]. rewrite Heq.
  unfold scene_remove in Heq. rewrite Hsc, Ht in Heq.
  destruct (onRemoved_parents o
    (with_graph (graph_with_detached (o :: detached (graph s))
                   (graph_with_scene (Obj i k rest) (graph s))) s)) as [q Hq].
  rewrite Hq in Heq.
  assert (G = graph_with_detached (o :: detached (graph s))
                (graph_with_scene (Obj i k rest) (graph s))) as ->; [|done].
  by apply (f_equal graph) in Heq.
Qed.

Lemma flat_map_sublist {A B} (f : A → list B) (l1 l2 : list A) :
  l1 `sublist_of` l2 → flat_map f l1 `sublist_of` flat_map f l2.
Proof.
  induction 1; simpl; [constructor| |].
  - by apply sublist_app.
  - by apply sublist_inserts_l.
Qed.

Lemma labelFree_no_refs o : labelFree o → labelObjectRefs o = [].
Proof.
  unfold labelFree, labelObjectRefs. intros Hfree.
  induction Hfree as [|x l Hx _ IH]; [done|].
  rewrite filter_cons. destruct (decide _) as [Hcss|_]; [congruence | done].
Qed.

Lemma labelFree_children i k cs :
  isCSS2DObject (Obj i k cs) = false → Forall labelFree cs →
  labelFree (Obj i k cs).
Proof.
  intros Hroot Hcs. unfold labelFree.
  change (traverse (Obj i k cs)) with (Obj i k cs :: flat_map traverse cs).
  apply Forall_cons. split; [done|]. clear Hroot.
  induction Hcs as [|c cs Hc _ IH]; [by apply Forall_nil|].
  change (flat_map traverse (c :: cs)) with (traverse c ++ flat_map traverse cs).
  apply Forall_app. split; [exact Hc | exact IH].
Qed.

Section Loading.

Variable getInfo : Specimen → string.
Variable parseFromString : string → HtmlNode.

Lemma loadFossil_known type sp s :
  specimenOfKey type = Some sp →
  loadFossil getInfo parseFromString type s
  = let x := factoryInput type s in
    let b := modelBuilt sp x in
    resetView
      (updateFossilInfo parseFromString (getInfo sp)
         (updateComponentToggles
            (default [] (group_components (graph b)
                         !! obj_id (createModel sp x).1))
            (scene_add (obj_id (createModel sp x).1) b))).
Proof.
  intros Hkey. unfold loadFossil, build, attach, factoryInput, modelBuilt.
  rewrite Hkey. simpl. by destruct (createModel sp _) as [model x'].
Qed.

Lemma loadFossil_unknown type s :
  specimenOfKey type = None →
  loadFossil getInfo parseFromString type s
  = let x := factoryInput type s in
    resetView
      (updateFossilInfo parseFromString ""
         (updateComponentToggles []
            (match currentModel x with
             | Some m => scene_add m x
             | None => x
             end))).
Proof.
  intros Hkey. unfold loadFossil, build, attach, factoryInput.
  by rewrite Hkey.
Qed.

End Loading.

Lemma with_graph_same s : with_graph (graph s) s = s.
Proof. by destruct s. Qed.

(** [scene.add] touches the scene, the detached objects and, through the
    [removed] listener, [parentNode]s only. *)
Lemma scene_add_shape r s :
  ∃ G p, scene_add r s = set_parents p (with_graph G s)
         ∧ obj_visible G = obj_visible (graph s)
         ∧ group_components G = group_components (graph s)
         ∧ (r ∈ map obj_id (detached (graph s)) → p = parentNode (dom s)).
Proof.
  assert (s = set_parents (parentNode (dom s)) (with_graph (graph s) s)) as Hs.
  { by rewrite with_graph_same, set_parents_same. }
  unfold scene_add. destruct (scene (graph s)) as [i k cs] eqn:Hsc.
  destruct (decide (r = i)); [by exists (graph s), (parentNode (dom s))|].
  destruct (find_in_forest r _) as [o|];
    [|by exists (graph s), (parentNode (dom s))].
  destruct (prune r (Obj i k cs)) as [i' k' cs'].
  set (G := graph_with_detached _ _).
  destruct (decide (r ∈ map obj_id (detached (graph s)))) as [Hin|Hnot].
  - exists G, (parentNode (dom s)). split; [|by repeat split].
    by rewrite <- (set_parents_same (with_graph G s)) at 1.
  - destruct (onRemoved_parents o (with_graph G s)) as [p ->].
    exists G, p. by repeat split.
Qed.

(** Adding a detached object whose reference the scene does not hold. *)
Lemma scene_add_detached r s i k cs o dt :
  scene (graph s) = Obj i k cs →
  detached (graph s) = o :: dt →
  obj_id o = r →
  r ∉ map obj_id (traverse (Obj i k cs)) →
  ∃ G, scene_add r s = with_graph G s
       ∧ scene G = Obj i k (cs ++ [o])
       ∧ obj_visible G = obj_visible (graph s)
       ∧ group_components G = group_components (graph s).
Proof.
  intros Hsc Hdt Hid Hnot. unfold scene_add. rewrite Hsc, Hdt.
  assert (r ≠ i) as Hne.
  { intros ->. apply Hnot. simpl. apply elem_of_cons. by left. }
  rewrite decide_False by done.
  destruct (absent_ref_tree r (Obj i k cs) Hnot) as [Hfind Hprune].
  unfold find_in_forest. rewrite Hfind.
  destruct o as [io ko co]. simpl in Hid. subst io.
  rewrite find_object_root. rewrite Hprune.
  rewrite decide_True by (simpl; apply elem_of_cons; by left).
  eexists. split; [reflexivity|]. by repeat split.
Qed.

(** The teardown at the head of [loadFossil] on a well-formed state: the
    current model leaves the scene, what stays holds no label object, the
    global array is emptied and its elements are detached. *)
Lemma teardown_shape s i k cs :
  wellFormed s →
  scene (graph s) = Obj i k cs →
  ∃ rest dt p,
    teardown s
    = with_view (view_with_crossSection false [] (view s))
        (set_parents p
           (with_window_labels []
              (with_graph (graph_with_detached dt
                             (graph_with_scene (Obj i k rest) (graph s))) s)))
    ∧ Forall labelFree rest
    ∧ (∀ l, l ∈ window_labels s → p !! li_element l = None)
    ∧ match currentModel s with
      | Some m => ∃ o, take_child m cs = Some (o, rest)
                       ∧ dt = o :: detached (graph s)
      | None => rest = cs ∧ dt = detached (graph s)
      end.
Proof.
  intros (Huniq & Hfresh & Hroot & Hkids & Hmodel) Hsc.
  apply uniqueRefs_children in Huniq. unfold childRefs in *.
  rewrite Hsc in *. simpl in Huniq, Hkids, Hmodel.
  assert (∀ x rest',
    scene (graph x) = Obj i k rest' → Forall labelFree rest' →
    removeAllLabels x = finishLabels x) as Hnolabels.
  { intros x rest' Hx Hfree. rewrite removeAllLabels_halves.
    unfold removeLabelObjects. rewrite Hx.
    rewrite (labelFree_no_refs (Obj i k rest')); [done|].
    by apply labelFree_children. }
  unfold teardown. destruct (currentModel s) as [m|] eqn:Hcm.
  - destruct (take_child m cs) as [[o rest]|] eqn:Ht;
      [|by apply take_child_None in Ht].
    destruct (scene_remove_found m s i k cs o rest Hsc Ht) as (p1 & -> & _).
    destruct (take_child_Some m cs o rest Ht) as (_ & _ & Hsub & Hgone).
    assert (Forall labelFree rest) as Hfree.
    { apply Forall_forall. intros c Hc.
      rewrite Forall_forall in Hkids.
      destruct (Hkids c (elem_of_sublist _ _ _ Hc Hsub)) as [[= Heq]|]; [|done].
      exfalso. apply (Hgone Huniq). rewrite Heq.
      apply (list_elem_of_fmap obj_id). by exists c. }
    rewrite (Hnolabels _ rest) by done.
    destruct (finishLabels_shape
      (set_parents p1
         (with_graph (graph_with_detached (o :: detached (graph s))
                        (graph_with_scene (Obj i k rest) (graph s))) s)))
      as (p & -> & Hdet & _).
    exists rest, (o :: detached (graph s)), p.
    split; [reflexivity|]. split; [done|]. split; [exact Hdet|]. by exists o.
  - assert (Forall labelFree cs) as Hfree.
    { eapply Forall_impl; [exact Hkids|]. simpl. by intros c [?|?]. }
    rewrite (Hnolabels s cs) by done.
    destruct (finishLabels_shape s) as (p & -> & Hdet & _).
    exists cs, (detached (graph s)), p.
    split; [|by repeat split].
    destruct s as [n [sc dt vis gc] cmp d wl lc cm vw]. simpl in *.
    by subst sc.
Qed.

Lemma refs_sublist i k cs rest :
  rest `sublist_of` cs →
  map obj_id (traverse (Obj i k rest)) `sublist_of` map obj_id (traverse (Obj i k cs)).
Proof.
  intros Hsub.
  change (traverse (Obj i k rest)) with (Obj i k rest :: flat_map traverse rest).
  change (traverse (Obj i k cs)) with (Obj i k cs :: flat_map traverse cs).
  simpl. apply sublist_skip. by apply map_sublist, flat_map_sublist.
Qed.

Section LoadingKnown.

Variable getInfo : Specimen → string.
Variable parseFromString : string → HtmlNode.

(** A known key on a well-formed state: what is left of the scene after the
    teardown holds no label, and the new model becomes its last child. *)
Lemma loadFossil_known_scene type sp s i k cs :
  wellFormed s →
  specimenOfKey type = Some sp →
  scene (graph s) = Obj i k cs →
  let s' := loadFossil getInfo parseFromString type s in
  let x := factoryInput type s in
  ∃ rest,
    rest `sublist_of` cs
    ∧ Forall labelFree rest
    ∧ scene (graph (teardown s)) = Obj i k rest
    ∧ window_labels (teardown s) = []
    ∧ scene (graph x) = Obj i k rest
    ∧ window_labels x = []
    ∧ next_ref x = next_ref s
    ∧ scene (graph s') = Obj i k (rest ++ [(createModel sp x).1])
    ∧ currentModel s' = Some (obj_id (createModel sp x).1)
    ∧ window_labels s' = window_labels (createModel sp x).2
    ∧ next_ref s' = next_ref (createModel sp x).2
    ∧ components s' = components (createModel sp x).2
    ∧ group_components (graph s') = group_components (graph (createModel sp x).2).
Proof.
  intros Hwf Hkey Hsc s' x. subst s'.
  destruct (teardown_shape s i k cs Hwf Hsc) as (rest & dt & p & Ht & Hfree & _ & Hcm).
  assert (rest `sublist_of` cs) as Hsub.
  { destruct (currentModel s) as [m|].
    - destruct Hcm as (o & Hto & _).
      by destruct (take_child_Some m cs o rest Hto) as (_ & _ & Hsub & _).
    - by destruct Hcm as [-> _]. }
  assert (scene (graph x) = Obj i k rest ∧ window_labels x = []
          ∧ next_ref x = next_ref s) as (Hxsc & Hxwl & Hxn).
  { subst x. unfold factoryInput. rewrite Ht. by repeat split. }
  exists rest. split; [done|]. split; [done|].
  split; [by rewrite Ht|]. split; [by rewrite Ht|].
  split; [done|]. split; [done|]. split; [done|].
  rewrite (loadFossil_known getInfo parseFromString type sp s Hkey).
  cbv zeta. fold x.
  destruct (createModel_Building sp x) as (names & Hb & _).
  rewrite (surjective_pairing (createModel sp x)) in Hb.
  set (model := (createModel sp x).1) in *.
  set (x' := (createModel sp x).2) in *.
  unfold Building in Hb.
  destruct Hb as (Hid & Hlt & Hrange & Hnd & Hframe & _).
  destruct Hframe as (Hsc' & _).
  set (b := modelBuilt sp x).
  assert (scene (graph b) = Obj i k rest) as Hbsc.
  { subst b. unfold modelBuilt. simpl. fold x'. by rewrite Hsc'. }
  assert (detached (graph b) = model :: detached (graph x')) as Hbdt.
  { subst b. by unfold modelBuilt. }
  assert (obj_id model ∉ map obj_id (traverse (Obj i k rest))) as Hnot.
  { intros Hin.
    pose proof (elem_of_sublist _ _ _ Hin (refs_sublist i k cs rest Hsub)) as Hin'.
    destruct Hwf as (_ & Hfresh & _). rewrite Hsc in Hfresh.
    rewrite Forall_forall in Hfresh. specialize (Hfresh _ Hin'). lia. }
  destruct (scene_add_detached (obj_id model) b i k rest model
              (detached (graph x')) Hbsc Hbdt eq_refl Hnot)
    as (G & -> & HGsc & Hvis & Hgc).
  simpl. split; [done|]. by repeat split.
Qed.

(** Loading a known specimen keeps the state well formed. *)
Lemma loadFossil_known_wellFormed type sp s :
  wellFormed s →
  specimenOfKey type = Some sp →
  wellFormed (loadFossil getInfo parseFromString type s).
Proof.
  intros Hwf Hkey. destruct (scene (graph s)) as [i k cs] eqn:Hsc.
  destruct (loadFossil_known_scene type sp s i k cs Hwf Hkey Hsc)
    as (rest & Hsub & Hfree & _ & _ & Hxsc & Hxwl & Hxn & Hsc' & Hcm' & _
        & Hn' & _).
  destruct (createModel_Building sp (factoryInput type s)) as (names & Hb & _).
  destruct (createModel sp (factoryInput type s)) as [model x'].
  unfold Building in Hb. simpl in *.
  destruct Hb as (Hid & Hlt & Hrange & Hnd & _).
  destruct Hwf as (Huniq & Hfresh & Hroot & _).
  unfold uniqueRefs in Huniq. rewrite Hsc in Huniq, Hfresh, Hroot.
  pose proof (refs_sublist i k cs rest Hsub) as Hrefs.
  assert (map obj_id (traverse (Obj i k (rest ++ [model])))
          = map obj_id (traverse (Obj i k rest)) ++ map obj_id (traverse model))
    as Hall by apply (refs_add_child model (Obj i k rest)).
  unfold wellFormed, uniqueRefs, childRefs. rewrite Hsc', Hcm', Hn', Hall.
  split; [|split; [|split; [|split]]].
  - apply NoDup_app. split; [exact (sublist_NoDup _ _ Huniq Hrefs)|].
    split; [|done]. intros r Hr Hr'.
    pose proof (elem_of_sublist _ _ _ Hr Hrefs) as Hold.
    rewrite Forall_forall in Hfresh, Hrange.
    specialize (Hfresh _ Hold). specialize (Hrange _ Hr'). lia.
  - apply Forall_app. split.
    + apply Forall_forall. intros r Hr.
      pose proof (elem_of_sublist _ _ _ Hr Hrefs) as Hold.
      rewrite Forall_forall in Hfresh. specialize (Hfresh _ Hold). lia.
    + eapply Forall_impl; [exact Hrange|]. simpl. intros r Hr. lia.
  - exact Hroot.
  - simpl. apply Forall_app. split.
    + eapply Forall_impl; [exact Hfree|]. simpl. by right.
    + apply Forall_singleton. by left.
  - simpl. rewrite map_app. apply elem_of_app. right. simpl.
    apply elem_of_cons. by left.
Qed.

Lemma loadAll_wellFormed types s :
  wellFormed s →
  Forall (λ type, is_Some (specimenOfKey type)) types →
  wellFormed (loadAll getInfo parseFromString types s).
Proof.
  revert s. induction types as [|type types IH]; intros s Hwf Hknown; [done|].
  apply Forall_cons in Hknown as [[sp Hsp] Hknown].
  unfold loadAll. simpl. apply IH; [|done].
  by eapply loadFossil_known_wellFormed.
Qed.

End LoadingKnown.

(** C1: in every sequence of loads of known specimens from a well-formed
    state, each load first leaves the global label array empty and the
    scene without any CSS2DObject, and after it the global array holds
    exactly what the factory of the specimen just loaded pushed: as many
    entries as the factory has labels, all created during this load, and
    the very label objects the scene now contains, in order. *)
Theorem loads_leave_only_current_labels
    (getInfo : Specimen → string) (parseFromString : string → HtmlNode)
    (types : list string) (type : string) (sp : Specimen) (s0 : State) :
  wellFormed s0 →
  Forall (λ t, is_Some (specimenOfKey t)) types →
  specimenOfKey type = Some sp →
  let s := loadAll getInfo parseFromString types s0 in
  let x := factoryInput type s in
  let s' := loadFossil getInfo parseFromString type s in
  window_labels (teardown s) = []
  ∧ labelObjectRefs (scene (graph (teardown s))) = []
  ∧ window_labels x = []
  ∧ labelObjectRefs (scene (graph x)) = []
  ∧ window_labels s' = window_labels (createModel sp x).2
  ∧ length (window_labels s') = labelCount sp
  ∧ omap li_object (window_labels s') = labelObjectRefs (scene (graph s'))
  ∧ Forall (λ l, next_ref s ≤ li_element l
                 ∧ ∃ o, li_object l = Some o ∧ next_ref s ≤ o)
      (window_labels s').
Proof.
  intros Hwf0 Hknown Hkey s x s'.
  assert (wellFormed s) as Hwf by by apply loadAll_wellFormed.
  destruct (scene (graph s)) as [i k cs] eqn:Hsc.
  destruct (loadFossil_known_scene getInfo parseFromString type sp s i k cs
              Hwf Hkey Hsc)
    as (rest & Hsub & Hfree & Htsc & Htwl & Hxsc & Hxwl & Hxn & Hsc' & _ & Hwl'
        & _).
  fold x s' in Hxsc, Hxwl, Hxn, Hsc', Hwl'. clearbody x s'.
  assert (isCSS2DObject (Obj i k rest) = false) as Hroot.
  { destruct Hwf as (_ & _ & Hroot & _). by rewrite Hsc in Hroot. }
  assert (labelObjectRefs (Obj i k rest) = []) as Hnone
    by by apply labelFree_no_refs, labelFree_children.
  destruct (createModel_Building sp x) as (names & Hb & _).
  rewrite (surjective_pairing (createModel sp x)) in Hb.
  unfold Building in Hb.
  destruct Hb as (_ & _ & _ & _ & _ & (new & Hnew & Hobj & Hel & Hlen) & _).
  rewrite Hxwl in Hnew. simpl in Hnew.
  split; [done|]. split; [by rewrite Htsc|]. split; [done|].
  split; [by rewrite Hxsc|]. split; [done|].
  rewrite Hwl', Hnew, Hsc'.
  split; [done|]. split.
  - rewrite Hobj.
    change (Obj i k (rest ++ [(createModel sp x).1]))
      with (add_child (createModel sp x).1 (Obj i k rest)).
    by rewrite labelObjectRefs_add_child, Hnone.
  - eapply Forall_impl; [exact Hel|]. simpl.
    intros l [Hl (o & Ho & Hob)]. rewrite Hxn in Hl, Hob.
    split; [lia|]. exists o. split; [done | lia].
Qed.

(** The reference of a child occurs nowhere else in a scene whose objects
    have distinct references. *)
Lemma child_ref_elsewhere i k l1 o l2 :
  NoDup (map obj_id (traverse (Obj i k (l1 ++ o :: l2)))) →
  obj_id o ∉ map obj_id (traverse (Obj i k (l1 ++ l2))).
Proof.
  change (traverse (Obj i k (l1 ++ o :: l2)))
    with (Obj i k (l1 ++ o :: l2) :: flat_map traverse (l1 ++ o :: l2)).
  change (traverse (Obj i k (l1 ++ l2)))
    with (Obj i k (l1 ++ l2) :: flat_map traverse (l1 ++ l2)).
  rewrite !flat_map_app. simpl. rewrite !map_app.
  destruct o as [io ko co]. simpl.
  intros Hnd. apply NoDup_cons in Hnd as [Hroot Hnd].
  apply NoDup_app in Hnd as (_ & Hleft & Hnd).
  apply NoDup_cons in Hnd as [Hright _].
  apply not_elem_of_cons. split.
  - intros ->. apply Hroot. apply elem_of_app. right.
    apply elem_of_cons. by left.
  - intros [Hin|Hin]%elem_of_app.
    + apply (Hleft io Hin). apply elem_of_cons. by left.
    + apply Hright. apply elem_of_app. by right.
Qed.

(** C2 (amended): a key outside the supported set is not rejected.  On a
    well-formed state the load still runs the teardown: the global label
    array is emptied, the overlay elements of its labels are detached, and
    the component toggles and the description panel are cleared; what stays
    is the previous model, which remains the current model and is put back
    as the last child of the scene, together with its component records. *)
Theorem unknown_key_keeps_model_only
    (getInfo : Specimen → string) (parseFromString : string → HtmlNode)
    (type : string) (s : State) :
  wellFormed s →
  specimenOfKey type = None →
  let s' := loadFossil getInfo parseFromString type s in
  currentModel s' = currentModel s
  ∧ scene (graph s') = modelMovedLast s
  ∧ components s' = components s
  ∧ group_components (graph s') = group_components (graph s)
  ∧ obj_visible (graph s') = obj_visible (graph s)
  ∧ window_labels s' = []
  ∧ (∀ l, l ∈ window_labels s → parentNode (dom s') !! li_element l = None)
  ∧ componentToggles (view s') = []
  ∧ fossilInfo (view s') = ""
  ∧ fossilType (view s') = type.
Proof.
  intros Hwf Hkey s'. subst s'.
  rewrite (loadFossil_unknown getInfo parseFromString type s Hkey).
  destruct (scene (graph s)) as [i k cs] eqn:Hsc.
  destruct (teardown_shape s i k cs Hwf Hsc) as (rest & dt & p & Ht & _ & Hdet & Hcm).
  cbv zeta. unfold factoryInput. rewrite Ht.
  set (x := with_view _ _).
  assert (currentModel x = currentModel s) as Hxcm by done.
  assert (∃ G, match currentModel x with
               | Some m => scene_add m x
               | None => x
               end = with_graph G x
               ∧ scene G = modelMovedLast s
               ∧ obj_visible G = obj_visible (graph s)
               ∧ group_components G = group_components (graph s))
    as (G & -> & HGsc & HGvis & HGgc).
  { rewrite Hxcm. unfold modelMovedLast. rewrite Hsc.
    destruct (currentModel s) as [m|].
    - destruct Hcm as (o & Hto & ->). rewrite Hto.
      destruct (take_child_split m cs o rest Hto) as (l1 & l2 & -> & -> & Hid).
      destruct Hwf as (Huniq & _). unfold uniqueRefs in Huniq.
      rewrite Hsc in Huniq.
      pose proof (child_ref_elsewhere i k l1 o l2 Huniq) as Hnot.
      rewrite Hid in Hnot.
      destruct (scene_add_detached m x i k (l1 ++ l2) o (detached (graph s))
                  eq_refl eq_refl Hid Hnot) as (G & HG & HGsc & Hvis & Hgc).
      exists G. by repeat split.
    - destruct Hcm as [-> ->]. exists (graph x). split; [by destruct x|].
      by repeat split. }
  simpl. by repeat split.
Qed.

(** ** The component registry *)

Lemma registerComponent_names p m grp s :
  Forall (λ c, c < next_ref s)
    (default [] (group_components (graph s) !! obj_id grp)) →
  registeredNames (registerComponent p m (grp, s)).2.2 (obj_id grp)
  = registeredNames s (obj_id grp) ++ [Some (part_name p)].
Proof.
  intros Hfresh. unfold registerComponent, registeredNames. simpl.
  rewrite lookup_insert_eq. simpl. rewrite map_app. simpl.
  rewrite lookup_insert_eq. simpl. f_equal.
  apply map_ext_in. intros c Hc.
  rewrite Forall_forall in Hfresh. apply list_elem_of_In in Hc.
  specialize (Hfresh c Hc). by rewrite lookup_insert_ne by lia.
Qed.

Lemma loadFossil_known_registry
    (getInfo : Specimen → string) (parseFromString : string → HtmlNode)
    type sp s :
  specimenOfKey type = Some sp →
  ∃ g names,
    currentModel (loadFossil getInfo parseFromString type s) = Some g
    ∧ registeredNames (loadFossil getInfo parseFromString type s) g
      = map Some names
    ∧ NoDup names.
Proof.
  intros Hkey.
  rewrite (loadFossil_known getInfo parseFromString type sp s Hkey).
  cbv zeta. set (x := factoryInput type s).
  destruct (createModel_Building sp x) as (names & Hb & Hnd).
  rewrite (surjective_pairing (createModel sp x)) in Hb.
  unfold Building in Hb.
  destruct Hb as (_ & _ & _ & _ & _ & _ & _ & Hnames).
  destruct (scene_add_shape (obj_id (createModel sp x).1) (modelBuilt sp x))
    as (G & p & -> & _ & Hgc & _).
  exists (obj_id (createModel sp x).1), names.
  split; [done|]. split; [|done].
  rewrite <- Hnames. unfold registeredNames. simpl. by rewrite Hgc.
Qed.

(** C3 (amended): registering a component always appends it to the ordered
    list of its group, whether or not a component of that name is already
    there: no DuplicateNameError exists.  When the name is new this is
    what the specification's [register] does too.  The registry of the
    model a load of a known specimen builds holds distinct names all the
    same, because each factory uses distinct names. *)
Theorem registration_appends_unchecked
    (getInfo : Specimen → string) (parseFromString : string → HtmlNode)
    (p : Part) (m : ref) (grp : Object3D) (s : State)
    (type : string) (sp : Specimen) (s1 : State) :
  Forall (λ c, c < next_ref s)
    (default [] (group_components (graph s) !! obj_id grp)) →
  specimenOfKey type = Some sp →
  let s' := (registerComponent p m (grp, s)).2.2 in
  let loaded := loadFossil getInfo parseFromString type s1 in
  registeredNames s' (obj_id grp)
  = registeredNames s (obj_id grp) ++ [Some (part_name p)]
  ∧ (∀ names,
       registeredNames s (obj_id grp) = map Some names →
       part_name p ∉ names →
       register_spec names (part_name p) = Registered (names ++ [part_name p])
       ∧ registeredNames s' (obj_id grp) = map Some (names ++ [part_name p]))
  ∧ ∃ g names,
      currentModel loaded = Some g
      ∧ registeredNames loaded g = map Some names
      ∧ NoDup names.
Proof.
  intros Hfresh Hkey s' loaded.
  pose proof (registerComponent_names p m grp s Hfresh) as Happ.
  split; [exact Happ|]. split.
  - intros names Hnames Hnew. split.
    + unfold register_spec. by rewrite decide_False.
    + subst s'. rewrite Happ, Hnames, map_app. reflexivity.
  - by apply (loadFossil_known_registry getInfo parseFromString type sp s1).
Qed.

(** ** Concrete runs *)

Ltac by_evaluation := apply (bool_decide_unpack _); vm_compute; exact I.


Lemma loads_leave_only_current_labels_witness :
  wellFormed initial
  ∧ Forall (λ t, is_Some (specimenOfKey t)) ["fusuline"; "diatom"]
  ∧ specimenOfKey "ostracod" = Some ostracod
  ∧ let s := loadAll sampleInfo sampleParser ["fusuline"; "diatom"] initial in
    let s' := loadFossil sampleInfo sampleParser "ostracod" s in
    window_labels (teardown s) = []
    ∧ labelObjectRefs (scene (graph (teardown s))) = []
    ∧ length (window_labels s') = 6
    ∧ omap li_object (window_labels s') = labelObjectRefs (scene (graph s')).
Proof.
  assert (wellFormed initial) as Hwf by by_evaluation.
  assert (Forall (λ t, is_Some (specimenOfKey t)) ["fusuline"; "diatom"])
    as Hknown.
  { apply Forall_cons. split; [by exists fusuline|].
    apply Forall_singleton. by exists diatom. }
  assert (specimenOfKey "ostracod" = Some ostracod) as Hkey by reflexivity.
  split; [exact Hwf|]. split; [exact Hknown|]. split; [exact Hkey|].
  destruct (loads_leave_only_current_labels sampleInfo sampleParser
              ["fusuline"; "diatom"] "ostracod" ostracod initial Hwf Hknown Hkey)
    as (H1 & H2 & _ & _ & _ & H3 & H4 & _).
  cbv zeta. split; [exact H1|]. split; [exact H2|]. split; [exact H3 | exact H4].
Defined.

(** C2: after the fusuline is loaded, selecting the unknown key
    "trilobite" is not rejected: the eight labels leave the global array,
    the eight component toggles disappear and the description is cleared. *)
Lemma unknown_key_not_rejected :
  specimenOfKey "trilobite" = None
  ∧ let s := afterFusuline in
    let s' := loadFossil sampleInfo sampleParser "trilobite" s in
    length (window_labels s) = 8
    ∧ window_labels s' = []
    ∧ length (componentToggles (view s)) = 8
    ∧ componentToggles (view s') = []
    ∧ fossilInfo (view s) = "<p>No description</p>"
    ∧ fossilInfo (view s') = ""
    ∧ s' ≠ s.
Proof.
  split; [reflexivity|]. cbv zeta.
  do 6 (split; [vm_compute; reflexivity|]).
  intros Heq. apply (f_equal (λ x, length (window_labels x))) in Heq.
  vm_compute in Heq. discriminate.
Qed.

Lemma unknown_key_keeps_model_only_witness :
  wellFormed afterFusuline
  ∧ specimenOfKey "trilobite" = None
  ∧ let s' := loadFossil sampleInfo sampleParser "trilobite" afterFusuline in
    currentModel s' = Some 4
    ∧ scene (graph s') = scene (graph afterFusuline)
    ∧ components s' = components afterFusuline
    ∧ window_labels s' = []
    ∧ componentToggles (view s') = [].
Proof.
  assert (wellFormed afterFusuline) as Hwf by by_evaluation.
  split; [exact Hwf|]. split; [reflexivity|].
  destruct (unknown_key_keeps_model_only sampleInfo sampleParser "trilobite"
              afterFusuline Hwf eq_refl)
    as (H1 & H2 & H3 & _ & _ & H4 & _ & H5 & _).
  cbv zeta. split; [rewrite H1; vm_compute; reflexivity|].
  split; [rewrite H2; vm_compute; reflexivity|].
  split; [exact H3|]. split; [exact H4 | exact H5].
Defined.

(** C3: registering the ostracod's carapace a second time on the same
    group succeeds and leaves two components named "carapace", where the
    specification's [register] answers DuplicateNameError. *)
Lemma duplicate_name_is_registered :
  registeredNames carapaceTwice.2 (obj_id carapaceTwice.1)
  = [Some "carapace"; Some "carapace"]
  ∧ register_spec ["carapace"] "carapace" = DuplicateNameError
  ∧ ¬ NoDup [Some "carapace"; Some "carapace"].
Proof.
  split; [vm_compute; reflexivity|]. split; [vm_compute; reflexivity|].
  intros Hnd. apply NoDup_cons in Hnd as [Hnot _]. apply Hnot.
  apply elem_of_cons. by left.
Qed.

Lemma registration_appends_unchecked_witness :
  let part := {| part_name := "carapace"; part_displayName := "Carapace (Shell)";
                 part_subtree := AsGroup; part_label := "Carapace";
                 part_anchor := vec3 0 0.6 0.6 |} in
  let gs := Ostracod.createCarapace (newModelGroup initial) in
  Forall (λ c, c < next_ref gs.2)
    (default [] (group_components (graph gs.2) !! obj_id gs.1))
  ∧ specimenOfKey "conodont" = Some conodont
  ∧ registeredNames (registerComponent part 9 gs).2.2 (obj_id gs.1)
    = [Some "carapace"; Some "carapace"]
  ∧ ∃ g names,
      currentModel (loadFossil sampleInfo sampleParser "conodont" initial) = Some g
      ∧ registeredNames (loadFossil sampleInfo sampleParser "conodont" initial) g
        = map Some names
      ∧ NoDup names.
Proof.
  cbv zeta.
  assert (Forall (λ c, c < next_ref (Ostracod.createCarapace (newModelGroup initial)).2)
            (default []
               (group_components
                  (graph (Ostracod.createCarapace (newModelGroup initial)).2)
                !! obj_id (Ostracod.createCarapace (newModelGroup initial)).1)))
    as Hfresh by by_evaluation.
  split; [exact Hfresh|]. split; [reflexivity|].
  destruct (registration_appends_unchecked sampleInfo sampleParser
              {| part_name := "carapace"; part_displayName := "Carapace (Shell)";
                 part_subtree := AsGroup; part_label := "Carapace";
                 part_anchor := vec3 0 0.6 0.6 |} 9
              (Ostracod.createCarapace (newModelGroup initial)).1
              (Ostracod.createCarapace (newModelGroup initial)).2
              "conodont" conodont initial Hfresh eq_refl)
    as (H1 & _ & H2).
  split; [|exact H2].
  etransitivity; [exact H1|]. vm_compute. reflexivity.
Defined.

Lemma removeAllLabels_idempotent_witness :
  uniqueRefs afterFirstFrame
  ∧ countLabelElements afterFirstFrame = 8
  ∧ countLabelElements (removeAllLabels afterFirstFrame) = 0
  ∧ removeAllLabels (removeAllLabels afterFirstFrame)
    = removeAllLabels afterFirstFrame.
Proof.
  assert (uniqueRefs afterFirstFrame) as Huniq
    by by_evaluation.
  split; [exact Huniq|]. split; [vm_compute; reflexivity|].
  split; [vm_compute; reflexivity|].
  exact (proj1 (removeAllLabels_idempotent afterFirstFrame Huniq)).
Defined.

Lemma updateLabels_distance_rule_witness :
  NoDup (map li_element sampleLabels)
  ∧ opacity (dom (updateLabels sampleWorld (vec3 0 0 0) sampleLabels initial)) !! 11
    = Some "0.3"
  ∧ opacity (dom (updateLabels sampleWorld (vec3 0 0 0) sampleLabels initial)) !! 12
    = Some "1"
  ∧ opacity (dom (updateLabels sampleWorld (vec3 0 0 0) sampleLabels initial)) !! 13
    = Some "1".
Proof.
  assert (NoDup (map li_element sampleLabels)) as Hnd by by_evaluation.
  split; [exact Hnd|]. split; [|split].
  - refine (proj1 (updateLabels_distance_rule sampleWorld (vec3 0 0 0)
                     sampleLabels initial
                     {| li_object := Some 1; li_element := 11;
                        li_component := None |} 1 Hnd _ eq_refl)).
    apply elem_of_cons. by left.
  - refine (proj1 (updateLabels_distance_rule sampleWorld (vec3 0 0 0)
                     sampleLabels initial
                     {| li_object := Some 2; li_element := 12;
                        li_component := None |} 2 Hnd _ eq_refl)).
    apply elem_of_cons. right. apply elem_of_cons. by left.
  - refine (proj1 (updateLabels_distance_rule sampleWorld (vec3 0 0 0)
                     sampleLabels initial
                     {| li_object := Some 3; li_element := 13;
                        li_component := None |} 3 Hnd _ eq_refl)).
    do 2 (apply elem_of_cons; right). apply elem_of_cons. by left.
Defined.

Lemma toggle_makes_flags_agree_witness :
  components afterFusuline !! 6 = Some shellComponent
  ∧ subtreeOf shellComponent = Some 5
  ∧ let s' := toggleComponentVisibility 6 false afterFusuline in
    visible <$> components s' !! 6 = Some false
    ∧ is_visible s' 5 = false
    ∧ display (dom s') !! 7 = Some "none"
    ∧ shown s' 7 = false.
Proof.
  assert (components afterFusuline !! 6 = Some shellComponent) as Hc
    by (vm_compute; reflexivity).
  split; [exact Hc|]. split; [reflexivity|].
  destruct (toggle_makes_flags_agree 6 false afterFusuline shellComponent 5
              Hc eq_refl) as (_ & H1 & H2 & H3).
  destruct (H3 {| lh_object := 8; lh_element := 7 |}) as [H4 H5].
  { apply elem_of_cons. by left. }
  cbv zeta. by repeat split.
Defined.

Lemma toggle_off_on_restores_witness :
  components afterFusuline !! 6 = Some shellComponent
  ∧ subtreeOf shellComponent = Some 5
  ∧ visible shellComponent = true
  ∧ is_visible afterFusuline 5 = true
  ∧ shown afterFusuline 7 = true
  ∧ let s2 := toggleComponentVisibility 6 true
                (toggleComponentVisibility 6 false afterFusuline) in
    components s2 = components afterFusuline
    ∧ is_visible s2 5 = is_visible afterFusuline 5
    ∧ shown s2 7 = shown afterFusuline 7.
Proof.
  assert (components afterFusuline !! 6 = Some shellComponent) as Hc
    by (vm_compute; reflexivity).
  assert (is_visible afterFusuline 5 = true) as Hv by (vm_compute; reflexivity).
  assert (shown afterFusuline 7 = true) as Hs by (vm_compute; reflexivity).
  split; [exact Hc|]. split; [reflexivity|]. split; [reflexivity|].
  split; [exact Hv|]. split; [exact Hs|].
  destruct (toggle_off_on_restores 6 afterFusuline shellComponent 5
              Hc eq_refl eq_refl Hv) as (H1 & H2 & H3 & _).
  { intros label Hin. apply list_elem_of_singleton in Hin as ->. exact Hs. }
  cbv zeta. split; [exact H1|]. split; [apply H2 | apply H3].
Defined.

Lemma short_or_untitled_document_verbatim_witness :
  (String.length (trim "  Loading...  ") < 50
   ∨ includes "  Loading...  " "<h3>" = false)
  ∧ renderInfo sampleParser "  Loading...  " = "  Loading...  ".
Proof.
  assert (String.length (trim "  Loading...  ") < 50
          ∨ includes "  Loading...  " "<h3>" = false) as Hguard.
  { left. vm_compute. lia. }
  split; [exact Hguard|].
  exact (proj1 (short_or_untitled_document_verbatim sampleParser
                  "  Loading...  " initial Hguard)).
Defined.

Lemma citation_goes_to_taxonomy_or_source_witness :
  wellFormedDocument sampleDocument
  ∧ wellFormedDocument sampleDocumentNoTaxonomy
  ∧ map sec_title (sectionsOf sampleDocument)
    = ["Overview"; "Features"; "Taxonomy"]
  ∧ map sec_title (sectionsOf sampleDocumentNoTaxonomy)
    = ["Overview"; "Source"].
Proof.
  assert (wellFormedDocument sampleDocument) as H1 by (eexists; reflexivity).
  assert (wellFormedDocument sampleDocumentNoTaxonomy) as H2
    by (eexists; reflexivity).
  split; [exact H1|]. split; [exact H2|]. split.
  - pose proof (citation_goes_to_taxonomy_or_source sampleDocument H1) as H.
    destruct (querySelector sel_em sampleDocument) as [em|] eqn:Hem;
      [|vm_compute in Hem; discriminate].
    destruct (findHeading "Taxonomy" sampleDocument) as [h|] eqn:Hh;
      [|vm_compute in Hh; discriminate].
    rewrite H, map_app. vm_compute. reflexivity.
  - pose proof (citation_goes_to_taxonomy_or_source sampleDocumentNoTaxonomy H2)
      as H.
    destruct (querySelector sel_em sampleDocumentNoTaxonomy) as [em|] eqn:Hem;
      [|vm_compute in Hem; discriminate].
    destruct (findHeading "Taxonomy" sampleDocumentNoTaxonomy) as [h|] eqn:Hh;
      [vm_compute in Hh; discriminate|].
    rewrite (proj1 H), map_app. vm_compute. reflexivity.
Defined.

(** C9: the citation is not what the renderer places.  In a well-formed
    description whose overview has an emphasis of its own, the Taxonomy
    section ends with that emphasis and not with the trailing citation; and
    a well-formed description with such an emphasis and no citation still
    gets a last section titled "Source". *)
Lemma first_emphasis_is_taken_for_the_citation :
  (wellFormedDocument sampleDocumentEmphasis
   ∧ trailingCitation_spec sampleDocumentEmphasis
     = Some (Element "em" [TextNode "Data sourced from DiatomBase"])
   ∧ sectionsOf sampleDocumentEmphasis
     = [ {| sec_id := "overview"; sec_title := "Overview";
            sec_content :=
              "<p>Diatoms are <em>photosynthetic</em> microalgae.</p>" |};
         {| sec_id := "taxonomy"; sec_title := "Taxonomy";
            sec_content :=
              "<h4>Taxonomy & Classification:</h4><p>Domain: Eukaryota</p>"
              +:+ "<p><em>Data sourced from DiatomBase</em></p>"
              +:+ "<em>photosynthetic</em>" |} ]
   ∧ ¬ citationPlaced_spec sampleDocumentEmphasis)
  ∧ (wellFormedDocument sampleDocumentNoCitation
     ∧ trailingCitation_spec sampleDocumentNoCitation = None
     ∧ map sec_title (sectionsOf sampleDocumentNoCitation)
       = ["Overview"; "Features"; "Source"]
     ∧ last (sectionsOf sampleDocumentNoCitation)
       = Some {| sec_id := "source"; sec_title := "Source";
                 sec_content := "<em>photosynthetic</em>" |}
     ∧ ¬ citationPlaced_spec sampleDocumentNoCitation).
Proof.
  split.
  - split; [eexists; reflexivity|]. split; [vm_compute; reflexivity|].
    split; [vm_compute; reflexivity|].
    intros H. vm_compute in H. discriminate H.
  - split; [eexists; reflexivity|]. split; [vm_compute; reflexivity|].
    split; [vm_compute; reflexivity|]. split; [vm_compute; reflexivity|].
    intros H. vm_compute in H. discriminate H.
Qed.

(** Where the first [em] of the document is its trailing citation, and
    where the document has neither, the citation is placed as the
    specification has it. *)
Remark citation_placed_when_first_emphasis doc :
  wellFormedDocument doc →
  trailingCitation_spec doc = loc_node <$> querySelector sel_em doc →
  citationPlaced_spec doc.
Proof.
  intros Hwf Hcit. unfold citationPlaced_spec. rewrite Hcit.
  unfold sectionsOf, addSource.
  destruct (querySelector sel_em doc) as [sourceEm|]; simpl; [|done].
  rewrite headedSections_split.
  remember (headingSection "taxonomy" "Taxonomy" "Taxonomy" doc) as tax eqn:Htax.
  unfold headingSection in Htax.
  destruct (findHeading "Taxonomy" doc) as [h|]; subst tax.
  - rewrite last_snoc. simpl. by rewrite removelast_last.
  - rewrite app_nil_r.
    destruct (sectionsBeforeTaxonomy_nonempty doc Hwf) as [sec Hsec].
    rewrite Hsec.
    pose proof (sectionsBeforeTaxonomy_ids doc) as Hids.
    assert (sec_id sec ≠ "taxonomy") as Hne.
    { apply last_Some in Hsec as [l' Hl']. rewrite Hl' in Hids.
      apply Forall_app in Hids as [_ Hlast].
      by apply Forall_singleton in Hlast as [? _]. }
    apply String.eqb_neq in Hne. rewrite Hne. done.
Qed.

(** The two descriptions with a citation and no other emphasis are of that
    kind. *)
Remark citation_placed_in_sample_documents :
  citationPlaced_spec sampleDocument
  ∧ citationPlaced_spec sampleDocumentNoTaxonomy.
Proof.
  split; apply citation_placed_when_first_emphasis;
    first [by eexists | vm_compute; reflexivity].
Qed.


(** ** The sections of the description panel *)

Ltac solve_sublist :=
  repeat first [apply sublist_nil | apply sublist_skip | apply sublist_cons].

(** The sections are pushed by fixed steps, whatever the order of the
    headings in the document. *)
Lemma sectionsOf_kinds doc :
  map sectionKind (sectionsOf doc) `sublist_of` headedKinds
  ∨ map sectionKind (sectionsOf doc) `sublist_of` sourceKinds.
Proof.
  unfold sectionsOf, addSource, headedSections, overviewSection, headingSection.
  destruct (querySelector sel_em doc);
    destruct (querySelector sel_h3_plus_p doc);
    destruct (findHeading "Key Features" doc);
    destruct (findHeading "Geological Significance" doc);
    destruct (findHeading "Taxonomy" doc);
    simpl;
    first [ left; unfold headedKinds; solve [solve_sublist]
          | right; unfold sourceKinds; solve [solve_sublist] ].
Qed.

Lemma sectionsOf_ids_NoDup doc : NoDup (map sec_id (sectionsOf doc)).
Proof.
  assert (map sec_id (sectionsOf doc) = map fst (map sectionKind (sectionsOf doc)))
    as ->.
  { rewrite map_map. reflexivity. }
  destruct (sectionsOf_kinds doc) as [Hsub|Hsub].
  - apply (sublist_NoDup _ (map fst headedKinds)).
    + apply (bool_decide_unpack _). vm_compute. exact I.
    + by apply map_sublist.
  - apply (sublist_NoDup _ (map fst sourceKinds)).
    + apply (bool_decide_unpack _). vm_compute. exact I.
    + by apply map_sublist.
Qed.

(** X10: whatever the document, the sections [createTabbedContent] makes
    come in the fixed order Overview, Features, Significance, then Taxonomy
    or Source (never both), each at most once: their [id]/[title] pairs form
    a sublist of one of the two fixed lists, the ids are distinct, and there
    are at most four sections. *)
Theorem sections_come_in_fixed_order doc :
  (map sectionKind (sectionsOf doc) `sublist_of` headedKinds
   ∨ map sectionKind (sectionsOf doc) `sublist_of` sourceKinds)
  ∧ NoDup (map sec_id (sectionsOf doc))
  ∧ length (sectionsOf doc) ≤ 4.
Proof.
  split; [apply sectionsOf_kinds|]. split; [apply sectionsOf_ids_NoDup|].
  rewrite <- (length_map sectionKind).
  destruct (sectionsOf_kinds doc) as [Hsub|Hsub];
    apply sublist_length in Hsub; exact Hsub.
Qed.

(** X11: the sibling walk after a heading stops at the next [h4]: with no
    [h4] among the nodes in front of it, the content collected is the markup
    of the element nodes in front of that [h4], text nodes between them are
    dropped, and nothing behind the [h4] matters. *)
Theorem collectSiblings_stops_at_next_heading l1 cs l2 :
  Forall (λ n, tagIs "h4" n = false) l1 →
  collectSiblings (l1 ++ Element "h4" cs :: l2)
  = concatStrings (map outerHTML (filter (λ n, isElement n = true) l1)).
Proof.
  induction 1 as [|n l1 Hn _ IH]; [reflexivity|].
  destruct n as [t c|d].
  - rewrite filter_cons_True by done.
    change ((Element t c :: l1) ++ Element "h4" cs :: l2)
      with (Element t c :: (l1 ++ Element "h4" cs :: l2)).
    cbn [collectSiblings]. simpl in Hn. rewrite Hn.
    cbn [map concatStrings fold_right]. fold (concatStrings (map outerHTML (filter (λ n, isElement n = true) l1))).
    by rewrite <- IH.
  - rewrite filter_cons_False by done. exact IH.
Qed.

Lemma prefix_append n r : String.prefix n (n +:+ r) = true.
Proof.
  induction n as [|a n IH]; [by destruct r|]. simpl.
  by destruct (Ascii.ascii_dec a a).
Qed.

Lemma includes_prefix hay n : String.prefix n hay = true → includes hay n = true.
Proof. intros H. destruct hay; cbn [includes]; rewrite H; reflexivity. Qed.

Lemma includes_append a hay n : includes hay n = true → includes (a +:+ hay) n = true.
Proof.
  intros H. induction a as [|c a IH]; [exact H|].
  simpl. rewrite IH. apply orb_true_r.
Qed.

(** X12: a document of at least 50 characters after trimming that contains
    "<h3>" is rendered as tabs: the panel receives [createTabbedContent] of
    the parsed document, which always contains the opening tag of the tab
    bar; when no section is recognised the markup is the title followed by
    an empty tab bar. *)
Theorem long_titled_document_gets_tab_bar
    (parseFromString : string → HtmlNode) (info : string) :
  50 ≤ String.length (trim info) →
  includes info "<h3>" = true →
  renderInfo parseFromString info = createTabbedContent (parseFromString info)
  ∧ includes (renderInfo parseFromString info) tabBarOpen = true
  ∧ (sectionsOf (parseFromString info) = [] →
     renderInfo parseFromString info
     = match querySelector sel_h3 (parseFromString info) with
       | Some h => outerHTML (loc_node h)
       | None => ""
       end +:+ tabBarOpen +:+ "</div>").
Proof.
  intros Hlen Hh3.
  assert (renderInfo parseFromString info
          = createTabbedContent (parseFromString info)) as ->.
  { unfold renderInfo. rewrite Hh3.
    destruct (String.length (trim info) <? 50) eqn:Hlt; [|reflexivity].
    apply Nat.ltb_lt in Hlt. lia. }
  split; [reflexivity|]. unfold createTabbedContent. split.
  - apply includes_append, includes_prefix.
    generalize (concatStrings (imap tabButton (sectionsOf (parseFromString info)))
                +:+ "</div>"
                +:+ concatStrings (imap tabContent (sectionsOf (parseFromString info)))).
    intros rest. exact (prefix_append tabBarOpen rest).
  - intros ->. f_equal.
Qed.

(** ** Switching tabs *)

Lemma tab_id_inj a b : "tab-" +:+ a = "tab-" +:+ b → a = b.
Proof. intros H. cbn in H. by injection H. Qed.

Lemma clear_active_imap {A} (h : A → string) (g : nat → bool) (l : list A) :
  map (λ c : string * bool, (c.1, false)) (imap (λ j x, (h x, g j)) l)
  = map (λ x, (h x, false)) l.
Proof.
  revert g. induction l as [|x l IH]; intros g; [reflexivity|].
  rewrite imap_cons. simpl. f_equal. apply (IH (g ∘ S)).
Qed.

Lemma imap_flag_false {A} (h : A → string) (g : nat → bool) (l : list A) :
  (∀ j, g j = false) →
  imap (λ j x, (h x, g j)) l = map (λ x, (h x, false)) l.
Proof.
  revert g. induction l as [|x l IH]; intros g Hg; [reflexivity|].
  rewrite imap_cons. simpl. rewrite Hg. f_equal.
  apply (IH (g ∘ S)). intros j. apply Hg.
Qed.

Lemma activateById_clicked (l : list TabSection) index sec :
  NoDup (map sec_id l) →
  l !! index = Some sec →
  activateById ("tab-" +:+ sec_id sec)
    (map (λ x, ("tab-" +:+ sec_id x, false)) l)
  = Some (imap (λ j x, ("tab-" +:+ sec_id x, bool_decide (j = index))) l).
Proof.
  revert index. induction l as [|x l IH]; intros index Hnd Hsec; [done|].
  apply NoDup_cons in Hnd as [Hx Hnd]. rewrite imap_cons.
  cbn [map activateById fst].
  destruct index as [|index]; simpl in Hsec.
  - injection Hsec as ->. rewrite String.eqb_refl. do 2 f_equal.
    symmetry.
    apply (imap_flag_false (λ x, "tab-" +:+ sec_id x) (λ j, bool_decide (S j = 0))).
    intros j. by apply bool_decide_eq_false_2.
  - assert (String.eqb ("tab-" +:+ sec_id x) ("tab-" +:+ sec_id sec) = false) as ->.
    { apply String.eqb_neq. intros Heq%tab_id_inj. apply Hx. rewrite Heq.
      apply (list_elem_of_fmap sec_id). exists sec. split; [done|].
      by eapply list_elem_of_lookup_2. }
    rewrite (IH index Hnd Hsec). simpl. do 2 f_equal.
    apply imap_ext. intros j y _. unfold compose. f_equal.
    apply bool_decide_ext. lia.
Qed.

Lemma insert_clicked (l : list TabSection) index sec :
  l !! index = Some sec →
  <[index := (sec_id sec, true)]> (map (λ x, (sec_id x, false)) l)
  = imap (λ j x, (sec_id x, bool_decide (j = index))) l.
Proof.
  revert index. induction l as [|x l IH]; intros index Hsec; [done|].
  rewrite imap_cons. destruct index as [|index]; simpl in Hsec.
  - injection Hsec as ->. simpl. f_equal. symmetry.
    apply (imap_flag_false sec_id (λ j, bool_decide (S j = 0))).
    intros j. by apply bool_decide_eq_false_2.
  - simpl. f_equal. rewrite (IH index Hsec).
    apply imap_ext. intros j y _. unfold compose. f_equal.
    apply bool_decide_ext. lia.
Qed.

Lemma clickTab_showing sections index k :
  NoDup (map sec_id sections) →
  index < length sections →
  clickTab index (panelShowing sections k) = Some (panelShowing sections index).
Proof.
  intros Hnd Hlt.
  destruct (lookup_lt_is_Some_2 sections index Hlt) as [sec Hsec].
  unfold clickTab, panelShowing. cbn [panel_tabs panel_contents].
  rewrite list_lookup_imap, Hsec. cbn [fmap option_fmap option_map fst].
  rewrite (clear_active_imap sec_id), (clear_active_imap (λ x, "tab-" +:+ sec_id x)).
  rewrite (activateById_clicked sections index sec Hnd Hsec).
  by rewrite (insert_clicked sections index sec Hsec).
Qed.

Lemma panelOf_showing sections : panelOf sections = panelShowing sections 0.
Proof.
  unfold panelOf, panelShowing. f_equal; apply imap_ext; intros [|j] x _; reflexivity.
Qed.

(** X13: in the panel made from any document, a click on a tab leaves
    exactly that tab and the content block of the same section active,
    whichever tab was shown before; the panel starts with the first tab
    shown. *)
Theorem tab_click_shows_clicked_section doc index k :
  index < length (sectionsOf doc) →
  panelOf (sectionsOf doc) = panelShowing (sectionsOf doc) 0
  ∧ clickTab index (panelShowing (sectionsOf doc) k)
    = Some (panelShowing (sectionsOf doc) index).
Proof.
  intros Hlt. split; [apply panelOf_showing|].
  apply clickTab_showing; [apply sectionsOf_ids_NoDup | done].
Qed.

(** ** The label switch *)

Lemma fold_toggle_frame (ls : list LabelInfo) s :
  let s' := fold_left
              (λ s label,
                 set_display (li_element label)
                   (if String.eqb (default "" (display (dom s) !! li_element label))
                         "none"
                    then "block" else "none") s) ls s in
  next_ref s' = next_ref s ∧ graph s' = graph s
  ∧ components s' = components s ∧ window_labels s' = window_labels s
  ∧ labelContainer s' = labelContainer s ∧ currentModel s' = currentModel s
  ∧ view s' = view s
  ∧ className (dom s') = className (dom s)
  ∧ textContent (dom s') = textContent (dom s)
  ∧ parentNode (dom s') = parentNode (dom s)
  ∧ opacity (dom s') = opacity (dom s).
Proof.
  revert s. induction ls as [|l ls IH]; intros s; [by repeat split|].
  cbn [fold_left]. cbv zeta in IH |- *.
  destruct (IH (set_display (li_element l)
                  (if String.eqb (default "" (display (dom s) !! li_element l)) "none"
                   then "block" else "none") s))
    as (H1 & H2 & H3 & H4 & H5 & H6 & H7 & H8 & H9 & H10 & H11).
  rewrite H1, H2, H3, H4, H5, H6, H7, H8, H9, H10, H11. by repeat split.
Qed.

Lemma fold_toggle_display (ls : list LabelInfo) s e :
  NoDup (map li_element ls) →
  display (dom (fold_left
                  (λ s label,
                     set_display (li_element label)
                       (if String.eqb
                             (default "" (display (dom s) !! li_element label))
                             "none"
                        then "block" else "none") s) ls s)) !! e
  = if decide (e ∈ map li_element ls)
    then Some (flippedDisplay (display (dom s) !! e))
    else display (dom s) !! e.
Proof.
  revert s. induction ls as [|l ls IH]; intros s Hnd; [reflexivity|].
  cbn [map] in Hnd. apply NoDup_cons in Hnd as [Hl Hnd].
  cbn [fold_left]. rewrite (IH _ Hnd). cbn [map].
  destruct (decide (e ∈ map li_element ls)) as [Hin|Hnot].
  - rewrite decide_True by (apply elem_of_cons; by right).
    assert (li_element l ≠ e) as Hne by (by intros <-).
    simpl. by rewrite lookup_insert_ne.
  - destruct (decide (e = li_element l)) as [->|Hne].
    + rewrite decide_True by (apply elem_of_cons; by left).
      simpl. by rewrite lookup_insert_eq.
    + rewrite decide_False by (intros [?|?]%elem_of_cons; done).
      simpl. by rewrite lookup_insert_ne.
Qed.

Lemma shown_flipped s s' e :
  display (dom s') !! e = Some (flippedDisplay (display (dom s) !! e)) →
  shown s' e = negb (shown s e).
Proof.
  unfold shown, flippedDisplay. intros ->. simpl.
  by destruct (String.eqb (default "" (display (dom s) !! e)) "none").
Qed.

Lemma toggleLabels_shown s e :
  NoDup (map li_element (window_labels s)) →
  shown (toggleLabels s) e
  = if decide (e ∈ map li_element (window_labels s)) then negb (shown s e)
    else shown s e.
Proof.
  intros Hnd. pose proof (fold_toggle_display (window_labels s) s e Hnd) as Hd.
  fold (toggleLabels s) in Hd.
  destruct (decide _).
  - by apply shown_flipped.
  - unfold shown. by rewrite Hd.
Qed.

(** X1: with the entries of the global array owning distinct elements,
    [toggleLabels] flips every label: the element of each entry is hidden if
    it was shown and shown if it was hidden (an element whose display was
    never set counts as shown and gets "none"); no other element's display
    changes, and nothing but [style.display] is written: the scene, the
    component records with their [visible] flags, the global array, the
    parents and the opacities stay as they were. *)
Theorem toggleLabels_flips_every_label s :
  NoDup (map li_element (window_labels s)) →
  let s' := toggleLabels s in
  (∀ l, l ∈ window_labels s →
        display (dom s') !! li_element l
        = Some (flippedDisplay (display (dom s) !! li_element l))
        ∧ shown s' (li_element l) = negb (shown s (li_element l)))
  ∧ (∀ e, e ∉ map li_element (window_labels s) →
          display (dom s') !! e = display (dom s) !! e)
  ∧ graph s' = graph s ∧ components s' = components s
  ∧ window_labels s' = window_labels s
  ∧ parentNode (dom s') = parentNode (dom s)
  ∧ opacity (dom s') = opacity (dom s)
  ∧ view s' = view s.
Proof.
  intros Hnd s'. subst s'.
  destruct (fold_toggle_frame (window_labels s) s)
    as (_ & Hg & Hc & Hw & _ & _ & Hv & _ & _ & Hp & Ho).
  fold (toggleLabels s) in Hg, Hc, Hw, Hv, Hp, Ho.
  split; [|split].
  - intros l Hl.
    assert (li_element l ∈ map li_element (window_labels s)) as Hin.
    { apply (list_elem_of_fmap li_element). by exists l. }
    pose proof (fold_toggle_display (window_labels s) s (li_element l) Hnd) as Hd.
    fold (toggleLabels s) in Hd. rewrite decide_True in Hd by done.
    split; [exact Hd | by apply shown_flipped].
  - intros e He.
    pose proof (fold_toggle_display (window_labels s) s e Hnd) as Hd.
    fold (toggleLabels s) in Hd. by rewrite decide_False in Hd.
  - by repeat split.
Qed.

(** X2: two consecutive [toggleLabels] give every overlay element its
    shown/hidden state back (the [display] of a label that was never set
    ends as "block", which shows it as before), for entries with distinct
    elements. *)
Theorem toggleLabels_twice_restores_shown s :
  NoDup (map li_element (window_labels s)) →
  let s2 := toggleLabels (toggleLabels s) in
  (∀ e, shown s2 e = shown s e)
  ∧ window_labels s2 = window_labels s
  ∧ components s2 = components s
  ∧ graph s2 = graph s.
Proof.
  intros Hnd s2. subst s2.
  destruct (fold_toggle_frame (window_labels s) s)
    as (_ & Hg & Hc & Hw & _).
  fold (toggleLabels s) in Hg, Hc, Hw.
  destruct (fold_toggle_frame (window_labels (toggleLabels s)) (toggleLabels s))
    as (_ & Hg2 & Hc2 & Hw2 & _).
  fold (toggleLabels (toggleLabels s)) in Hg2, Hc2, Hw2.
  split; [|split; [congruence | split; congruence]].
  intros e. rewrite toggleLabels_shown by (by rewrite Hw).
  rewrite Hw, toggleLabels_shown by done.
  destruct (decide _); [apply negb_involutive | reflexivity].
Qed.

(** X3: [toggleLabels] does not look at the components.  After a component
    that holds a subtree was hidden with [toggleComponentVisibility], the
    next [toggleLabels] shows the labels of that component again, while the
    component and its subtree stay hidden. *)
Theorem toggleLabels_shows_labels_of_hidden_component c s component m h l :
  components s !! c = Some component →
  subtreeOf component = Some m →
  NoDup (map li_element (window_labels s)) →
  h ∈ default [] (labels component) →
  l ∈ window_labels s →
  li_element l = lh_element h →
  let s1 := toggleComponentVisibility c false s in
  let s2 := toggleLabels s1 in
  shown s1 (lh_element h) = false
  ∧ shown s2 (lh_element h) = true
  ∧ visible <$> components s2 !! c = Some false
  ∧ is_visible s2 m = false.
Proof.
  intros Hc Hm Hnd Hh Hl Heq s1 s2. subst s1 s2.
  rewrite (toggleComponentVisibility_unfold c false s component m Hc Hm).
  set (s0 := with_components _ _).
  destruct (setLabelDisplays_frame false (default [] (labels component)) s0)
    as (_ & Hg & Hcs & Hw & _).
  cbv zeta in Hg, Hcs, Hw.
  set (s1 := setLabelDisplays false (default [] (labels component)) s0) in *.
  assert (shown s1 (lh_element h) = false) as Hhidden.
  { unfold shown. subst s1. by rewrite (setLabelDisplays_member false _ s0 h Hh). }
  assert (window_labels s1 = window_labels s) as Hw' by (by rewrite Hw).
  split; [exact Hhidden|]. split; [|split].
  - rewrite toggleLabels_shown by (by rewrite Hw').
    rewrite decide_True.
    + by rewrite Hhidden.
    + rewrite Hw', <- Heq. apply (list_elem_of_fmap li_element). by exists l.
  - destruct (fold_toggle_frame (window_labels s1) s1) as (_ & Hg2 & Hc2 & _).
    fold (toggleLabels s1) in Hg2, Hc2. rewrite Hc2, Hcs. subst s0. simpl.
    rewrite lookup_alter_eq, Hc. reflexivity.
  - destruct (fold_toggle_frame (window_labels s1) s1) as (_ & Hg2 & Hc2 & _).
    fold (toggleLabels s1) in Hg2, Hc2. unfold is_visible.
    rewrite Hg2, Hg. subst s0. simpl. by rewrite lookup_insert_eq.
Qed.

(** ** The cross-section switch *)

(** X4: [toggleCrossSection] flips the flag; with a model loaded the
    clipping planes follow the flag (one plane with normal (0, 1, 0) and
    constant 0 when enabled, none when disabled), so that two toggles give
    back flag and planes of a consistent state; without a model only the
    flag changes, which leaves a disabled view without planes flagged as
    enabled.  Nothing else is touched. *)
Theorem toggleCrossSection_planes_follow_flag s :
  let t := toggleCrossSection s in
  crossSectionEnabled (view t) = negb (crossSectionEnabled (view s))
  ∧ (is_Some (currentModel s) →
     clippingPlanes (view t)
     = (if crossSectionEnabled (view t) then [(vec3 0 1 0, 0%float)] else [])
     ∧ crossSectionConsistent t
     ∧ (crossSectionConsistent s →
        clippingPlanes (view s) = [] ∨ clippingPlanes (view s) = [(vec3 0 1 0, 0%float)] →
        view (toggleCrossSection t) = view s))
  ∧ (currentModel s = None →
     clippingPlanes (view t) = clippingPlanes (view s)
     ∧ (crossSectionEnabled (view s) = false → clippingPlanes (view s) = [] →
        ¬ crossSectionConsistent t))
  ∧ crossSectionEnabled (view (toggleCrossSection t)) = crossSectionEnabled (view s)
  ∧ graph t = graph s ∧ components t = components s ∧ dom t = dom s
  ∧ window_labels t = window_labels s ∧ currentModel t = currentModel s
  ∧ cameraPosition (view t) = cameraPosition (view s)
  ∧ componentToggles (view t) = componentToggles (view s).
Proof.
  intros t. subst t. unfold toggleCrossSection, crossSectionConsistent.
  destruct s as [n g c d w lc cm [en pl ft tg fi cp]]. simpl.
  destruct cm as [m|]; simpl.
  - split; [done|]. split.
    + intros _. split; [done|]. split.
      * destruct en; simpl; split; intros H; done.
      * intros Hcons [->| ->].
        -- destruct en; simpl; [|done]. by destruct Hcons as [_ Hcons]; destruct Hcons.
        -- destruct en; simpl; [done|].
           destruct Hcons as [Hcons _]. by discriminate Hcons.
    + split; [done|]. split; [by destruct en|]. by repeat split.
  - split; [done|]. split; [by intros [? ?]|]. split.
    + intros _. split; [done|]. intros -> ->. simpl. intros [_ H]. by apply H.
    + split; [by destruct en|]. by repeat split.
Qed.

(** ** What the teardown keeps *)

Lemma fold_removed_subseteq (l : list Object3D) s :
  parentNode (dom (fold_left
                     (λ s x, match obj_kind x with
                             | CSS2DObject e _ _ => removeChild e s
                             | _ => s
                             end) l s))
  ⊆ parentNode (dom s).
Proof.
  revert s. induction l as [|x l IH]; intros s; [done|]. cbn [fold_left].
  destruct (obj_kind x) as [| | | |e pos cmp]; [apply IH..|].
  etrans; [apply IH|]. simpl. apply delete_subseteq.
Qed.

Lemma onRemoved_subseteq o s :
  parentNode (dom (onRemoved o s)) ⊆ parentNode (dom s).
Proof.
  unfold onRemoved. destruct (isCSS2DObject o); [|done].
  apply fold_removed_subseteq.
Qed.

Lemma scene_remove_subseteq r s :
  parentNode (dom (scene_remove r s)) ⊆ parentNode (dom s).
Proof.
  unfold scene_remove. destruct (scene (graph s)) as [i k cs].
  destruct (take_child r cs) as [[o rest]|]; [|done].
  etrans; [apply onRemoved_subseteq|]. done.
Qed.

Lemma fold_scene_remove_subseteq ids s :
  parentNode (dom (fold_left (λ s object, scene_remove object s) ids s))
  ⊆ parentNode (dom s).
Proof.
  revert s. induction ids as [|r ids IH]; intros s; [done|]. cbn [fold_left].
  etrans; [apply IH | apply scene_remove_subseteq].
Qed.

Lemma finishLabels_subseteq s :
  parentNode (dom (finishLabels s)) ⊆ parentNode (dom s).
Proof.
  unfold finishLabels.
  destruct (fold_detach_parents (window_labels s) s) as (p & -> & Hlook).
  assert (p ⊆ parentNode (dom s)) as Hsub.
  { apply map_subseteq_spec. intros e d He. rewrite Hlook in He.
    by destruct (decide _). }
  simpl. destruct (labelContainer s); simpl; [|done].
  etrans; [apply map_filter_subseteq | done].
Qed.

Lemma removeAllLabels_subseteq s :
  parentNode (dom (removeAllLabels s)) ⊆ parentNode (dom s).
Proof.
  rewrite removeAllLabels_halves.
  etrans; [apply finishLabels_subseteq | apply fold_scene_remove_subseteq].
Qed.

(** [removeAllLabels] empties the array and changes the graph and the
    parents only. *)
Lemma removeAllLabels_shape s :
  ∃ G p, removeAllLabels s = set_parents p (with_window_labels [] (with_graph G s))
         ∧ obj_visible G = obj_visible (graph s)
         ∧ group_components G = group_components (graph s)
         ∧ p ⊆ parentNode (dom s)
         ∧ (∀ l, l ∈ window_labels s → p !! li_element l = None)
         ∧ (labelContainer s = true →
            ∀ e, p !! e = Some InModelContainer →
                 className (dom s) !! e ≠ Some "fossil-label").
Proof.
  pose proof (removeAllLabels_subseteq s) as Hsub.
  rewrite removeAllLabels_halves in Hsub |- *. unfold removeLabelObjects in *.
  destruct (fold_scene_remove_shape (labelObjectRefs (scene (graph s))) s)
    as (G & p & HG & Hvis & Hcomp & _).
  rewrite HG in Hsub |- *.
  destruct (finishLabels_shape (set_parents p (with_graph G s)))
    as (p' & Hp' & Hdet & _ & Hswept).
  rewrite Hp' in Hsub |- *. exists G, p'. by repeat split.
Qed.

(** The teardown of [loadFossil], on any state. *)
Lemma teardown_frame s :
  ∃ G p, teardown s
         = with_view (view_with_crossSection false [] (view s))
             (set_parents p (with_window_labels [] (with_graph G s)))
         ∧ obj_visible G = obj_visible (graph s)
         ∧ group_components G = group_components (graph s)
         ∧ p ⊆ parentNode (dom s)
         ∧ (∀ l, l ∈ window_labels s → p !! li_element l = None)
         ∧ (labelContainer s = true →
            ∀ e, p !! e = Some InModelContainer →
                 className (dom s) !! e ≠ Some "fossil-label").
Proof.
  unfold teardown.
  assert (∃ G1 p1, match currentModel s with
                   | Some m => scene_remove m s
                   | None => s
                   end = set_parents p1 (with_graph G1 s)
                   ∧ obj_visible G1 = obj_visible (graph s)
                   ∧ group_components G1 = group_components (graph s)
                   ∧ p1 ⊆ parentNode (dom s))
    as (G1 & p1 & -> & Hv1 & Hc1 & Hs1).
  { destruct (currentModel s) as [m|].
    - pose proof (scene_remove_subseteq m s) as Hsub.
      destruct (scene_remove_shape m s) as (G1 & p1 & HG & Hv & Hc & _).
      rewrite HG in Hsub |- *. by exists G1, p1.
    - exists (graph s), (parentNode (dom s)).
      by rewrite with_graph_same, set_parents_same. }
  destruct (removeAllLabels_shape (set_parents p1 (with_graph G1 s)))
    as (G & p & -> & Hv & Hc & Hs & Hdet & Hswept).
  exists G, p. simpl in *. split; [reflexivity|].
  split; [congruence|]. split; [congruence|]. split; [by etrans|]. done.
Qed.

(** ** What a load does to the stores *)

Section LoadingStores.

Variable getInfo : Specimen → string.
Variable parseFromString : string → HtmlNode.

Lemma factoryInput_frame type s :
  let x := factoryInput type s in
  next_ref x = next_ref s ∧ components x = components s
  ∧ obj_visible (graph x) = obj_visible (graph s)
  ∧ group_components (graph x) = group_components (graph s)
  ∧ className (dom x) = className (dom s)
  ∧ textContent (dom x) = textContent (dom s)
  ∧ display (dom x) = display (dom s)
  ∧ opacity (dom x) = opacity (dom s)
  ∧ labelContainer x = labelContainer s
  ∧ currentModel x = currentModel s
  ∧ window_labels x = []
  ∧ view x = view_with_fossilType type (view_with_crossSection false [] (view s))
  ∧ parentNode (dom x) ⊆ parentNode (dom s)
  ∧ (∀ l, l ∈ window_labels s → parentNode (dom x) !! li_element l = None)
  ∧ (labelContainer s = true →
     ∀ e, parentNode (dom x) !! e = Some InModelContainer →
          className (dom s) !! e ≠ Some "fossil-label").
Proof.
  intros x. subst x. unfold factoryInput.
  destruct (teardown_frame s) as (G & p & -> & Hv & Hc & Hs & Hdet & Hswept).
  simpl. by repeat split.
Qed.

(** The stores after a load of a known specimen are those the factory
    left, the parents those the teardown left. *)
Lemma loadFossil_known_stores type sp s :
  specimenOfKey type = Some sp →
  let x := factoryInput type s in
  let x' := (createModel sp x).2 in
  let s' := loadFossil getInfo parseFromString type s in
  next_ref s' = next_ref x' ∧ components s' = components x'
  ∧ obj_visible (graph s') = obj_visible (graph s)
  ∧ group_components (graph s') = group_components (graph x')
  ∧ dom s' = dom x'
  ∧ labelContainer s' = labelContainer s
  ∧ currentModel s' = Some (obj_id (createModel sp x).1)
  ∧ window_labels s' = window_labels x'
  ∧ componentToggles (view s')
    = omap (makeToggle x')
        (default [] (group_components (graph x') !! obj_id (createModel sp x).1))
  ∧ fossilInfo (view s') = renderInfo parseFromString (getInfo sp)
  ∧ cameraPosition (view s') = ControlsReset (vec3 0 0 5)
  ∧ crossSectionEnabled (view s') = false
  ∧ clippingPlanes (view s') = []
  ∧ fossilType (view s') = type.
Proof.
  intros Hkey x x' s'. subst s'.
  rewrite (loadFossil_known getInfo parseFromString type sp s Hkey).
  cbv zeta. fold x.
  destruct (factoryInput_frame type s)
    as (_ & _ & Hxv & _ & _ & _ & _ & _ & Hxl & _ & _ & Hxview & _).
  fold x in Hxv, Hxl, Hxview.
  destruct (createModel_Building sp x) as (names & Hb & _).
  rewrite (surjective_pairing (createModel sp x)) in Hb.
  fold x' in Hb. set (model := (createModel sp x).1) in *.
  unfold Building in Hb.
  destruct Hb as (_ & _ & _ & _ & (_ & _ & Hvis & _ & Hlc & Hview & _) & _).
  destruct (scene_add_shape (obj_id model) (modelBuilt sp x))
    as (G & p & Hadd & HGv & HGc & Hp).
  assert (p = parentNode (dom x')) as ->.
  { apply Hp. unfold modelBuilt. simpl. apply elem_of_cons. by left. }
  rewrite Hadd. unfold modelBuilt. fold model x'. simpl.
  unfold modelBuilt in HGv, HGc. fold model x' in HGv, HGc. simpl in HGv, HGc.
  rewrite HGv, HGc, Hvis, Hxv, Hlc, Hxl, Hview, Hxview. simpl.
  split; [done|]. split; [done|]. split; [done|]. split; [done|].
  split; [by destruct (dom x')|]. by repeat split.
Qed.

(** X5: every load, of a known key or not, resets the view: the
    cross-section is switched off and the clipping planes are removed, the
    camera is written at (0, 0, 5) and given to [controls.reset()], which
    computes the position it then has, the key is recorded as the fossil
    type, and the description panel receives the rendering of the
    specimen's text (of the empty text for an unknown key).  The label
    container is kept. *)
Theorem load_resets_view type s :
  let s' := loadFossil getInfo parseFromString type s in
  crossSectionEnabled (view s') = false
  ∧ clippingPlanes (view s') = []
  ∧ crossSectionConsistent s'
  ∧ cameraPosition (view s') = ControlsReset (vec3 0 0 5)
  ∧ fossilType (view s') = type
  ∧ fossilInfo (view s')
    = renderInfo parseFromString
        (match specimenOfKey type with Some sp => getInfo sp | None => "" end)
  ∧ labelContainer s' = labelContainer s.
Proof.
  intros s'.
  assert (crossSectionEnabled (view s') = false
          ∧ clippingPlanes (view s') = []
          ∧ cameraPosition (view s') = ControlsReset (vec3 0 0 5)
          ∧ fossilType (view s') = type
          ∧ fossilInfo (view s')
            = renderInfo parseFromString
                (match specimenOfKey type with Some sp => getInfo sp | None => "" end)
          ∧ labelContainer s' = labelContainer s)
    as (He & Hp & Hc & Ht & Hi & Hl).
  { subst s'. destruct (specimenOfKey type) as [sp|] eqn:Hkey.
    - destruct (loadFossil_known_stores type sp s Hkey)
        as (_ & _ & _ & _ & _ & Hl & _ & _ & _ & Hi & Hc & He & Hp & Ht).
      by repeat split.
    - rewrite (loadFossil_unknown getInfo parseFromString type s Hkey).
      cbv zeta.
      destruct (factoryInput_frame type s)
        as (_ & _ & _ & _ & _ & _ & _ & _ & Hxl & _ & _ & Hxview & _).
      set (x := factoryInput type s) in *. clearbody x.
      assert (∃ G p, match currentModel x with
                     | Some m => scene_add m x
                     | None => x
                     end = set_parents p (with_graph G x)) as (G & p & ->).
      { destruct (currentModel x) as [m|].
        - destruct (scene_add_shape m x) as (G & p & HG & _). by exists G, p.
        - exists (graph x), (parentNode (dom x)).
          by rewrite with_graph_same, set_parents_same. }
      simpl. rewrite Hxview, Hxl. by repeat split. }
  split; [done|]. split; [done|]. split; [|by repeat split].
  unfold crossSectionConsistent. rewrite He, Hp. split; intros H; done.
Qed.

End LoadingStores.

(** ** The per-frame update, in general *)

Lemma State_eq s1 s2 :
  next_ref s1 = next_ref s2 → graph s1 = graph s2 →
  components s1 = components s2 → dom s1 = dom s2 →
  window_labels s1 = window_labels s2 → labelContainer s1 = labelContainer s2 →
  currentModel s1 = currentModel s2 → view s1 = view s2 →
  s1 = s2.
Proof. destruct s1, s2. simpl. by intros -> -> -> -> -> -> -> ->. Qed.

Lemma Dom_eq d1 d2 :
  className d1 = className d2 → textContent d1 = textContent d2 →
  parentNode d1 = parentNode d2 → display d1 = display d2 →
  opacity d1 = opacity d2 →
  d1 = d2.
Proof. destruct d1, d2. simpl. by intros -> -> -> -> ->. Qed.

Lemma updateLabels_snoc world cam labels l s :
  updateLabels world cam (labels ++ [l]) s
  = updateLabel world cam (updateLabels world cam labels s) l.
Proof. unfold updateLabels. by rewrite fold_left_app. Qed.

Lemma updateLabels_frame world cam labels s :
  let s' := updateLabels world cam labels s in
  next_ref s' = next_ref s ∧ graph s' = graph s
  ∧ components s' = components s ∧ window_labels s' = window_labels s
  ∧ labelContainer s' = labelContainer s ∧ currentModel s' = currentModel s
  ∧ view s' = view s
  ∧ className (dom s') = className (dom s)
  ∧ textContent (dom s') = textContent (dom s)
  ∧ parentNode (dom s') = parentNode (dom s)
  ∧ display (dom s') = display (dom s).
Proof.
  induction labels as [|l labels IH] using rev_ind; [by repeat split|].
  cbv zeta in IH |- *. rewrite updateLabels_snoc.
  destruct IH as (H1 & H2 & H3 & H4 & H5 & H6 & H7 & H8 & H9 & H10 & H11).
  unfold updateLabel. destruct (li_object l); [|by repeat split].
  simpl. by repeat split.
Qed.

Lemma updateLabels_written world cam labels s e :
  opacity (dom (updateLabels world cam labels s)) !! e
  = match writtenOpacity world cam labels e with
    | Some v => Some v
    | None => opacity (dom s) !! e
    end.
Proof.
  induction labels as [|l labels IH] using rev_ind; [reflexivity|].
  rewrite updateLabels_snoc. unfold writtenOpacity in *. rewrite omap_app.
  unfold updateLabel. cbn [omap list_omap].
  destruct (li_object l) as [object|]; simpl.
  - destruct (decide (li_element l = e)) as [->|Hne]; simpl.
    + by rewrite last_snoc, lookup_insert_eq.
    + by rewrite app_nil_r, lookup_insert_ne.
  - destruct (decide (li_element l = e)); simpl; by rewrite app_nil_r.
Qed.

Lemma writtenOpacity_none world cam labels e :
  (∀ l, l ∈ labels → li_element l = e → li_object l = None) →
  writtenOpacity world cam labels e = None.
Proof.
  intros Hnone. unfold writtenOpacity.
  assert (omap (λ l, if decide (li_element l = e)
                     then (λ object, opacityFor (distanceTo (world object) cam))
                          <$> li_object l
                     else None) labels = []) as ->; [|done].
  induction labels as [|l labels IH]; [done|]. cbn [omap list_omap].
  rewrite IH.
  - destruct (decide (li_element l = e)) as [Heq|]; [|done].
    by rewrite (Hnone l (list_elem_of_here _ _) Heq).
  - intros l' Hl' He. apply Hnone; [|done]. apply elem_of_cons. by right.
Qed.

(** X6: [updateLabels] in general, with entries that may share an element
    or lack their [object]: an element's opacity after the call is the one
    computed for the last entry with that element that has an [object]; an
    element all of whose entries lack the [object] keeps its opacity; every
    opacity written is "0.3" or "1"; and nothing but opacities is written:
    displays, parents, the scene, the component records and the global
    array stay as they were. *)
Theorem updateLabels_last_entry_wins world cam labels s :
  let s' := updateLabels world cam labels s in
  (∀ e, opacity (dom s') !! e
        = match writtenOpacity world cam labels e with
          | Some v => Some v
          | None => opacity (dom s) !! e
          end)
  ∧ (∀ e, (∀ l, l ∈ labels → li_element l = e → li_object l = None) →
          opacity (dom s') !! e = opacity (dom s) !! e)
  ∧ (∀ e v, writtenOpacity world cam labels e = Some v → v = "0.3" ∨ v = "1")
  ∧ display (dom s') = display (dom s)
  ∧ parentNode (dom s') = parentNode (dom s)
  ∧ graph s' = graph s ∧ components s' = components s
  ∧ window_labels s' = window_labels s ∧ view s' = view s.
Proof.
  intros s'. subst s'.
  destruct (updateLabels_frame world cam labels s)
    as (_ & Hg & Hc & Hw & _ & _ & Hv & _ & _ & Hp & Hd).
  split; [apply updateLabels_written|]. split; [|split].
  - intros e Hnone. rewrite updateLabels_written.
    by rewrite writtenOpacity_none.
  - intros e v Hv'. unfold writtenOpacity in Hv'.
    apply last_Some in Hv' as (l' & Hv').
    assert (v ∈ omap (λ l, if decide (li_element l = e)
                           then (λ object, opacityFor (distanceTo (world object) cam))
                                <$> li_object l
                           else None) labels) as Hin.
    { rewrite Hv'. apply elem_of_app. right. apply list_elem_of_singleton. done. }
    apply list_elem_of_omap in Hin as (l & _ & Hl).
    destruct (decide _); [|done]. destruct (li_object l) as [o|]; [|done].
    simpl in Hl. injection Hl as <-. unfold opacityFor.
    destruct (10 <? distanceTo (world o) cam)%float; [by left | by right].
  - by repeat split.
Qed.

(** X7: a second [updateLabels] with the same positions changes nothing:
    the state after two consecutive calls is the state after one. *)
Theorem updateLabels_idempotent world cam labels s :
  updateLabels world cam labels (updateLabels world cam labels s)
  = updateLabels world cam labels s.
Proof.
  set (s1 := updateLabels world cam labels s).
  destruct (updateLabels_frame world cam labels s1)
    as (H1 & H2 & H3 & H4 & H5 & H6 & H7 & H8 & H9 & H10 & H11).
  apply State_eq; try done. apply Dom_eq; try done.
  apply map_eq. intros e. rewrite updateLabels_written. subst s1.
  rewrite updateLabels_written.
  by destruct (writtenOpacity world cam labels e).
Qed.

(** ** Toggling a component, in general *)

Lemma setLabelDisplays_lookup v ls s e :
  display (dom (setLabelDisplays v ls s)) !! e
  = if decide (e ∈ map lh_element ls) then Some (displayFor v)
    else display (dom s) !! e.
Proof.
  destruct (decide _) as [Hin|Hnot].
  - apply (list_elem_of_fmap lh_element) in Hin as (h & -> & Hh).
    by apply setLabelDisplays_member.
  - by apply setLabelDisplays_other.
Qed.

Lemma toggleComponentVisibility_cases c v s component :
  components s !! c = Some component →
  toggleComponentVisibility c v s
  = setLabelDisplays v (default [] (labels component))
      (markVisible c v component s).
Proof.
  intros Hc. unfold toggleComponentVisibility, markVisible, subtreeOf.
  rewrite Hc.
  destruct (mesh component), (group component), (labels component); reflexivity.
Qed.

Lemma markVisible_frame c v component s :
  let s' := markVisible c v component s in
  next_ref s' = next_ref s ∧ dom s' = dom s
  ∧ window_labels s' = window_labels s
  ∧ labelContainer s' = labelContainer s ∧ currentModel s' = currentModel s
  ∧ view s' = view s
  ∧ scene (graph s') = scene (graph s)
  ∧ detached (graph s') = detached (graph s)
  ∧ group_components (graph s') = group_components (graph s).
Proof. unfold markVisible. destruct (subtreeOf component); by repeat split. Qed.

(** X8: toggling one component leaves the others alone.  For a component
    that holds a subtree, [toggleComponentVisibility] changes no other
    component record, no other object's [visible] flag and the display of
    no element outside the component's own labels; the scene, the global
    label array, parents, opacities and the view (the checkboxes included)
    stay as they were. *)
Theorem toggle_leaves_the_rest_untouched c v s component m :
  components s !! c = Some component →
  subtreeOf component = Some m →
  let s' := toggleComponentVisibility c v s in
  (∀ c', c' ≠ c → components s' !! c' = components s !! c')
  ∧ (∀ r, r ≠ m → is_visible s' r = is_visible s r)
  ∧ (∀ e, e ∉ map lh_element (default [] (labels component)) →
          display (dom s') !! e = display (dom s) !! e)
  ∧ scene (graph s') = scene (graph s)
  ∧ detached (graph s') = detached (graph s)
  ∧ group_components (graph s') = group_components (graph s)
  ∧ window_labels s' = window_labels s
  ∧ parentNode (dom s') = parentNode (dom s)
  ∧ opacity (dom s') = opacity (dom s)
  ∧ className (dom s') = className (dom s)
  ∧ view s' = view s
  ∧ next_ref s' = next_ref s.
Proof.
  intros Hc Hm s'. subst s'.
  rewrite (toggleComponentVisibility_cases c v s component Hc).
  unfold markVisible. rewrite Hm. set (s0 := with_components _ _).
  destruct (setLabelDisplays_frame v (default [] (labels component)) s0)
    as (Hn & Hg & Hcs & Hw & _ & _ & Hv & Hcl & _ & Hp & Ho).
  cbv zeta in Hn, Hg, Hcs, Hw, Hv, Hcl, Hp, Ho.
  split; [|split; [|split]].
  - intros c' Hne. rewrite Hcs. subst s0. simpl. by rewrite lookup_alter_ne.
  - intros r Hne. unfold is_visible. rewrite Hg. subst s0. simpl.
    by rewrite lookup_insert_ne.
  - intros e He. by rewrite setLabelDisplays_other.
  - rewrite Hg, Hw, Hp, Ho, Hcl, Hv, Hn. by repeat split.
Qed.

Lemma alter_set_comp_visible_twice v c (m : gmap ref Component) :
  alter (set_comp_visible v) c (alter (set_comp_visible v) c m)
  = alter (set_comp_visible v) c m.
Proof.
  apply map_eq. intros i. destruct (decide (c = i)) as [->|Hne].
  - rewrite !lookup_alter_eq. by destruct (m !! i).
  - by rewrite !lookup_alter_ne.
Qed.

(** X9: [toggleComponentVisibility] is idempotent: calling it again with the
    same flag changes nothing, whatever the component reference (one
    without a record, without a subtree or without labels included). *)
Theorem toggle_same_flag_twice c v s :
  toggleComponentVisibility c v (toggleComponentVisibility c v s)
  = toggleComponentVisibility c v s.
Proof.
  destruct (components s !! c) as [component|] eqn:Hc.
  2:{ unfold toggleComponentVisibility. by rewrite !Hc. }
  rewrite (toggleComponentVisibility_cases c v s component Hc).
  set (ls := default [] (labels component)).
  set (s0 := markVisible c v component s).
  set (s1 := setLabelDisplays v ls s0).
  destruct (setLabelDisplays_frame v ls s0)
    as (Hn & Hg & Hcs & Hw & Hlc & Hcm & Hv & Hcl & Htx & Hp & Ho).
  fold s1 in Hn, Hg, Hcs, Hw, Hlc, Hcm, Hv, Hcl, Htx, Hp, Ho.
  cbv zeta in Hn, Hg, Hcs, Hw, Hlc, Hcm, Hv, Hcl, Htx, Hp, Ho.
  assert (∃ component1, components s1 !! c = Some component1
                        ∧ subtreeOf component1 = subtreeOf component
                        ∧ labels component1 = labels component)
    as (component1 & Hc1 & Hsub1 & Hlab1).
  { rewrite Hcs. subst s0. unfold markVisible.
    destruct (subtreeOf component) as [m|] eqn:Hm.
    - exists (set_comp_visible v component). simpl.
      rewrite lookup_alter_eq, Hc. by repeat split.
    - by exists component. }
  rewrite (toggleComponentVisibility_cases c v s1 component1 Hc1).
  rewrite Hlab1. fold ls.
  set (s2 := markVisible c v component1 s1).
  destruct (setLabelDisplays_frame v ls s2)
    as (Hn' & Hg' & Hcs' & Hw' & Hlc' & Hcm' & Hv' & Hcl' & Htx' & Hp' & Ho').
  cbv zeta in Hn', Hg', Hcs', Hw', Hlc', Hcm', Hv', Hcl', Htx', Hp', Ho'.
  destruct (markVisible_frame c v component1 s1)
    as (Mn & Md & Mw & Mlc & Mcm & Mv & _).
  fold s2 in Mn, Md, Mw, Mlc, Mcm, Mv. cbv zeta in Mn, Md, Mw, Mlc, Mcm, Mv.
  assert (graph s2 = graph s1 ∧ components s2 = components s1) as [Hg2 Hc2].
  { subst s2. unfold markVisible. rewrite Hsub1.
    destruct (subtreeOf component) as [m|] eqn:Hm; [|done]. simpl. split.
    - rewrite Hg. subst s0. unfold markVisible. rewrite Hm. simpl.
      unfold graph_with_visible. simpl. by rewrite insert_insert_eq.
    - rewrite Hcs. subst s0. unfold markVisible. rewrite Hm. simpl.
      apply alter_set_comp_visible_twice. }
  apply State_eq; try congruence.
  apply Dom_eq; try congruence.
  apply map_eq. intros e. rewrite setLabelDisplays_lookup, Md.
  subst s1. rewrite setLabelDisplays_lookup. by destruct (decide _).
Qed.

(** X22: a component record with neither [mesh] nor [group] is only half
    toggled: no [visible] flag is written, neither the stored one nor an
    object's, while the elements of its labels still get the display for the
    requested flag. *)
Theorem toggle_without_subtree_touches_labels_only c v s component :
  components s !! c = Some component →
  subtreeOf component = None →
  let s' := toggleComponentVisibility c v s in
  components s' = components s
  ∧ graph s' = graph s
  ∧ (∀ h, h ∈ default [] (labels component) →
          display (dom s') !! lh_element h = Some (displayFor v)
          ∧ shown s' (lh_element h) = v).
Proof.
  intros Hc Hm s'. subst s'.
  rewrite (toggleComponentVisibility_cases c v s component Hc).
  unfold markVisible. rewrite Hm.
  destruct (setLabelDisplays_frame v (default [] (labels component)) s)
    as (_ & Hg & Hcs & _).
  split; [done|]. split; [done|]. intros h Hh.
  pose proof (setLabelDisplays_member v _ s h Hh) as Hd.
  split; [done|]. unfold shown. rewrite Hd. by destruct v.
Qed.

(** ** The records a factory writes *)

Lemma handlesOf_app c a b : handlesOf c (a ++ b) = handlesOf c a ++ handlesOf c b.
Proof. unfold handlesOf. apply omap_app. Qed.

Lemma handlesOf_none c ls :
  Forall (λ l, li_component l ≠ Some c) ls → handlesOf c ls = [].
Proof.
  induction 1 as [|l ls Hl _ IH]; [done|]. unfold handlesOf in *.
  cbn [omap list_omap]. rewrite IH. unfold handleOf.
  by rewrite decide_False.
Qed.

Lemma children_add_child c grp :
  map obj_id (obj_children (add_child c grp))
  = map obj_id (obj_children grp) ++ [obj_id c].
Proof. destruct grp as [i k cs]. simpl. by rewrite map_app. Qed.

Lemma subtreeOf_push h component :
  subtreeOf (push_comp_label h component) = subtreeOf component.
Proof. reflexivity. Qed.

Lemma Recorded_newModelGroup x : Recorded x (newModelGroup x).
Proof.
  unfold Recorded, newModelGroup. simpl. rewrite lookup_insert_eq. simpl.
  split; [by intros r Hr|]. split; [done|].
  exists []. rewrite app_nil_r. split; [done|].
  split; by apply Forall_nil.
Qed.

Lemma addSubtree_child t gs :
  (addSubtree t gs).1 ∈ map obj_id (obj_children (addSubtree t gs).2.1).
Proof.
  destruct gs as [grp s]. unfold addSubtree. simpl.
  rewrite children_add_child. apply elem_of_app. right.
  by apply list_elem_of_singleton.
Qed.

Lemma addSubtree_children t gs r :
  r ∈ map obj_id (obj_children gs.1) →
  r ∈ map obj_id (obj_children (addSubtree t gs).2.1).
Proof.
  destruct gs as [grp s]. unfold addSubtree. simpl. intros Hr.
  rewrite children_add_child. apply elem_of_app. by left.
Qed.

Lemma Recorded_addSubtree x t gs :
  Recorded x gs → Recorded x (addSubtree t gs).2.
Proof.
  destruct gs as [grp s]. unfold Recorded, addSubtree. simpl.
  rewrite obj_id_add_child.
  intros (Hold & Hop & new & Hwl & Hreg & Hnew).
  split; [done|]. split; [done|]. exists new. split; [done|].
  split; [|done].
  eapply Forall_impl; [exact Hreg|]. simpl.
  intros c (Hc & component & m & H1 & H2 & H3 & H4 & H5).
  split; [done|]. exists component, m. repeat split; try done.
  rewrite children_add_child. apply elem_of_app. by left.
Qed.

Lemma registerComponent_registered p m gs :
  (registerComponent p m gs).1
  ∈ default [] (group_components (graph (registerComponent p m gs).2.2)
                !! obj_id (registerComponent p m gs).2.1).
Proof.
  destruct gs as [grp s]. unfold registerComponent. simpl.
  rewrite lookup_insert_eq. simpl. apply elem_of_app. right.
  by apply list_elem_of_singleton.
Qed.

Lemma registerComponent_group p m gs :
  (registerComponent p m gs).2.1 = gs.1.
Proof. by destruct gs as [grp s]. Qed.

Lemma Recorded_registerComponent x k names p m gs :
  Building x k names gs → Recorded x gs →
  m ∈ map obj_id (obj_children gs.1) →
  Recorded x (registerComponent p m gs).2.
Proof.
  destruct gs as [grp s]. unfold Building, Recorded, registerComponent.
  simpl.
  intros (Hid & Hlt & _ & _ & _ & _ & Hfresh & _)
         (Hold & Hop & new & Hwl & Hreg & Hnew) Hm.
  rewrite lookup_insert_eq. simpl.
  rewrite Forall_forall in Hfresh.
  split; [|split; [done|]].
  { intros r Hr. rewrite lookup_insert_ne by lia. by apply Hold. }
  exists new. split; [done|]. split.
  - apply Forall_app. split.
    + rewrite Forall_forall in Hreg |- *. intros c Hc.
      destruct (Hreg c Hc) as (Hge & component & m' & H1 & H2 & H3 & H4 & H5).
      split; [done|]. exists component, m'.
      specialize (Hfresh c Hc).
      rewrite lookup_insert_ne by lia. by repeat split.
    + apply Forall_singleton. split; [lia|].
      eexists _, m. rewrite lookup_insert_eq.
      split; [reflexivity|]. split; [done|]. split.
      { unfold subtreeOf. simpl. by destruct (part_subtree p). }
      split; [done|]. simpl. symmetry. apply handlesOf_none.
      eapply Forall_impl; [exact Hnew|]. simpl.
      intros l [(c & Hc & Hin) _]. rewrite Hc. intros [= ->].
      specialize (Hfresh _ Hin). lia.
  - eapply Forall_impl; [exact Hnew|]. simpl.
    intros l [(c & Hc & Hin) Hcls]. split; [|done].
    exists c. split; [done|]. apply elem_of_app. by left.
Qed.

Lemma addLabel_group_components text pos c gs :
  obj_id (addLabel text pos (Some c) gs).1 = obj_id gs.1
  ∧ group_components (graph (addLabel text pos (Some c) gs).2)
    = group_components (graph gs.2).
Proof.
  destruct gs as [grp s]. rewrite addLabel_unfold. simpl.
  by rewrite obj_id_add_child.
Qed.

Lemma addLabel_children text pos c gs r :
  r ∈ map obj_id (obj_children gs.1) →
  r ∈ map obj_id (obj_children (addLabel text pos (Some c) gs).1).
Proof.
  destruct gs as [grp s]. rewrite addLabel_unfold. simpl. intros Hr.
  rewrite children_add_child. apply elem_of_app. by left.
Qed.

Lemma Recorded_addLabel x k names text pos c gs :
  Building x k names gs → Recorded x gs →
  c ∈ default [] (group_components (graph gs.2) !! obj_id gs.1) →
  Recorded x (addLabel text pos (Some c) gs).
Proof.
  destruct gs as [grp s]. rewrite addLabel_unfold.
  unfold Building, Recorded. simpl.
  intros (Hid & Hlt & _ & _ & _ & (new' & Hwl' & _ & Hel & _) & Hfresh & _)
         (Hold & Hop & new & Hwl & Hreg & Hnew) Hc.
  assert (new' = new) as -> by (rewrite Hwl in Hwl'; by apply app_inv_head in Hwl').
  rewrite obj_id_add_child.
  rewrite Forall_forall in Hreg.
  destruct (Hreg c Hc) as (Hcge & _).
  split; [|split; [done|]].
  { intros r Hr. rewrite lookup_alter_ne by lia.
    rewrite !lookup_insert_ne by lia. by apply Hold. }
  set (l := {| li_object := Some (S (next_ref s)); li_element := next_ref s;
               li_component := Some c |}).
  exists (new ++ [l]). split; [by rewrite Hwl, app_assoc|]. split.
  - apply Forall_forall. intros c' Hc'.
    destruct (Hreg c' Hc') as (Hge & component & m & H1 & H2 & H3 & H4 & H5).
    split; [done|].
    destruct (decide (c' = c)) as [->|Hne].
    + exists (push_comp_label {| lh_object := S (next_ref s);
                                 lh_element := next_ref s |} component), m.
      rewrite lookup_alter_eq, H1. split; [done|]. split; [done|].
      split; [done|]. split.
      { rewrite children_add_child. apply elem_of_app. by left. }
      simpl. rewrite H5, handlesOf_app. f_equal.
      unfold handlesOf, handleOf. simpl. by rewrite decide_True.
    + exists component, m. rewrite lookup_alter_ne by done.
      split; [done|]. split; [done|]. split; [done|]. split.
      { rewrite children_add_child. apply elem_of_app. by left. }
      rewrite H5, handlesOf_app.
      unfold handlesOf at 3. unfold handleOf. simpl.
      rewrite decide_False by congruence. by rewrite app_nil_r.
  - apply Forall_app. split.
    + rewrite Forall_forall in Hnew, Hel |- *. intros l' Hl'.
      destruct (Hnew l' Hl') as [Hcomp Hcls]. split; [done|].
      destruct (Hel l' Hl') as [Hrange _].
      rewrite lookup_insert_ne by lia. done.
    + apply Forall_singleton. simpl. split; [by exists c|].
      by rewrite lookup_insert_eq.
Qed.

Lemma Built_createPart x k names p gs :
  Building x k names gs ∧ Recorded x gs →
  Building x (S k) (names ++ [part_name p]) (createPart p gs)
  ∧ Recorded x (createPart p gs).
Proof.
  intros [Hb Hr]. unfold createPart.
  pose proof (Building_addSubtree x k names (part_subtree p) gs Hb) as B1.
  pose proof (Recorded_addSubtree x (part_subtree p) gs Hr) as R1.
  pose proof (addSubtree_child (part_subtree p) gs) as Hm.
  destruct (addSubtree (part_subtree p) gs) as [m gs1]. simpl in B1, R1, Hm.
  pose proof (Building_registerComponent x k names p m gs1 B1) as B2.
  pose proof (Recorded_registerComponent x k names p m gs1 B1 R1 Hm) as R2.
  pose proof (registerComponent_registered p m gs1) as Hc.
  destruct (registerComponent p m gs1) as [c gs2]. simpl in B2, R2, Hc.
  split; [by apply Building_addLabel|]. by eapply Recorded_addLabel.
Qed.

Lemma createPart_children p gs r :
  r ∈ map obj_id (obj_children gs.1) →
  r ∈ map obj_id (obj_children (createPart p gs).1).
Proof.
  intros Hr. unfold createPart.
  pose proof (addSubtree_children (part_subtree p) gs r Hr) as H1.
  destruct (addSubtree (part_subtree p) gs) as [m gs1]. simpl in H1.
  pose proof (registerComponent_group p m gs1) as H2.
  destruct (registerComponent p m gs1) as [c gs2]. simpl in H2.
  apply addLabel_children. by rewrite H2.
Qed.

Lemma Built_createCusp x k names gs :
  Building x k names gs ∧ Recorded x gs →
  Building x (S (S k)) ((names ++ ["whiteMatter"]) ++ ["cusp"])
    (Conodont.createCusp gs)
  ∧ Recorded x (Conodont.createCusp gs).
Proof.
  intros [Hb Hr]. unfold Conodont.createCusp.
  pose proof (Building_addSubtree x k names AsMesh gs Hb) as B1.
  pose proof (Recorded_addSubtree x AsMesh gs Hr) as R1.
  pose proof (addSubtree_child AsMesh gs) as Hm.
  destruct (addSubtree AsMesh gs) as [cusp gs1]. simpl in B1, R1, Hm.
  destruct (Built_createPart x k names _ gs1 (conj B1 R1)
            : Building x (S k) (names ++ ["whiteMatter"])
                (Conodont.createWhiteMatter gs1)
              ∧ Recorded x (Conodont.createWhiteMatter gs1)) as [B2 R2].
  pose proof (createPart_children _ gs1 cusp Hm
              : cusp ∈ map obj_id (obj_children (Conodont.createWhiteMatter gs1).1))
    as Hm2.
  pose proof (Building_registerComponent x (S k) _ Conodont.cuspPart cusp _ B2)
    as B3.
  pose proof (Recorded_registerComponent x (S k) _ Conodont.cuspPart cusp _ B2 R2 Hm2)
    as R3.
  pose proof (registerComponent_registered Conodont.cuspPart cusp
                (Conodont.createWhiteMatter gs1)) as Hc.
  destruct (registerComponent Conodont.cuspPart cusp
              (Conodont.createWhiteMatter gs1)) as [c gs3].
  simpl in B3, R3, Hc.
  split; [by apply Building_addLabel|]. by eapply Recorded_addLabel.
Qed.

(** The four records of the diatom, then the assignment of the
    [components] array. *)
Lemma Recorded_diatom_components x names grp s c0 c1 c2 c3 m0 m1 m2 m3 :
  Building x 0 names (grp, s) → Recorded x (grp, s) →
  Forall (λ cm : Component * ref,
            visible cm.1 = true ∧ labels cm.1 = None
            ∧ subtreeOf cm.1 = Some cm.2
            ∧ cm.2 ∈ map obj_id (obj_children grp))
    [(c0, m0); (c1, m1); (c2, m2); (c3, m3)] →
  let '(r0, s0) := Diatom.newComponent c0 s in
  let '(r1, s1) := Diatom.newComponent c1 s0 in
  let '(r2, s2) := Diatom.newComponent c2 s1 in
  let '(r3, s3) := Diatom.newComponent c3 s2 in
  Recorded x
    (grp,
     with_graph
       (graph_with_components
          (<[obj_id grp := [r0; r1; r2; r3]]> (group_components (graph s3)))
          (graph s3)) s3).
Proof.
  unfold Building, Recorded. simpl.
  intros (Hid & Hlt & _ & _ & _ & (new' & Hwl' & _ & _ & Hlen) & _)
         (Hold & Hop & new & Hwl & _ & _) Hcs.
  assert (new' = new) as -> by (rewrite Hwl in Hwl'; by apply app_inv_head in Hwl').
  destruct new; [|done].
  apply Forall_cons in Hcs as [(V0 & L0 & S0 & M0) Hcs].
  apply Forall_cons in Hcs as [(V1 & L1 & S1 & M1) Hcs].
  apply Forall_cons in Hcs as [(V2 & L2 & S2 & M2) Hcs].
  apply Forall_cons in Hcs as [(V3 & L3 & S3 & M3) _].
  simpl in *.
  rewrite lookup_insert_eq. simpl.
  split; [|split; [done|]].
  { intros r Hr. rewrite !lookup_insert_ne by lia. by apply Hold. }
  exists []. split; [done|]. split; [|by apply Forall_nil].
  repeat (apply Forall_cons; split); [..|by apply Forall_nil].
  - split; [lia|]. exists c0, m0. rewrite !lookup_insert.
    repeat (case_decide; try lia). by rewrite L0.
  - split; [lia|]. exists c1, m1. rewrite !lookup_insert.
    repeat (case_decide; try lia). by rewrite L1.
  - split; [lia|]. exists c2, m2. rewrite !lookup_insert.
    repeat (case_decide; try lia). by rewrite L2.
  - split; [lia|]. exists c3, m3. rewrite !lookup_insert.
    repeat (case_decide; try lia). by rewrite L3.
Qed.

Lemma Built_addLabel x k names text pos c gs :
  Building x k names gs ∧ Recorded x gs →
  c ∈ default [] (group_components (graph gs.2) !! obj_id gs.1) →
  (Building x (S k) names (addLabel text pos (Some c) gs)
   ∧ Recorded x (addLabel text pos (Some c) gs))
  ∧ default [] (group_components (graph (addLabel text pos (Some c) gs).2)
                !! obj_id (addLabel text pos (Some c) gs).1)
    = default [] (group_components (graph gs.2) !! obj_id gs.1).
Proof.
  intros [Hb Hr] Hc. split.
  - split; [by apply Building_addLabel | by eapply Recorded_addLabel].
  - destruct (addLabel_group_components text pos c gs) as [-> ->]. done.
Qed.

Lemma Built_createDiatomModel x :
  Building x 4 ["frustule"; "ornaments"; "chloroplasts"; "raphe"]
    (Diatom.createDiatomModel x)
  ∧ Recorded x (Diatom.createDiatomModel x).
Proof.
  split; [apply Building_createDiatomModel|].
  unfold Diatom.createDiatomModel.
  pose proof (Building_newModelGroup x) as B0.
  pose proof (Recorded_newModelGroup x) as R0.
  pose proof (Building_addSubtree x _ _ AsMesh _ B0) as B1.
  pose proof (Recorded_addSubtree x AsMesh _ R0) as R1.
  pose proof (addSubtree_child AsMesh (newModelGroup x)) as M0.
  destruct (addSubtree AsMesh (newModelGroup x)) as [diatom gs1].
  simpl in B1, R1, M0.
  pose proof (Building_addSubtree x _ _ AsGroup _ B1) as B2.
  pose proof (Recorded_addSubtree x AsGroup _ R1) as R2.
  pose proof (addSubtree_child AsGroup gs1) as M1.
  apply (addSubtree_children AsGroup gs1) in M0.
  destruct (addSubtree AsGroup gs1) as [ornamentGroup gs2].
  simpl in B2, R2, M0, M1.
  pose proof (Building_addSubtree x _ _ AsGroup _ B2) as B3.
  pose proof (Recorded_addSubtree x AsGroup _ R2) as R3.
  pose proof (addSubtree_child AsGroup gs2) as M2.
  apply (addSubtree_children AsGroup gs2) in M0, M1.
  destruct (addSubtree AsGroup gs2) as [chloroplastGroup gs3].
  simpl in B3, R3, M0, M1, M2.
  pose proof (Building_addSubtree x _ _ AsGroup _ B3) as B4.
  pose proof (Recorded_addSubtree x AsGroup _ R3) as R4.
  pose proof (addSubtree_child AsGroup gs3) as M3.
  apply (addSubtree_children AsGroup gs3) in M0, M1, M2.
  destruct (addSubtree AsGroup gs3) as [rapheGroup gs4].
  simpl in B4, R4, M0, M1, M2, M3.
  destruct gs4 as [grp s]. simpl in M0, M1, M2, M3.
  set (c0 := {| name := "frustule"; displayName := "Frustule (Shell)";
                mesh := Some diatom; group := None; visible := true;
                labels := None |}).
  set (c1 := {| name := "ornaments"; displayName := "Surface Ornaments";
                mesh := None; group := Some ornamentGroup; visible := true;
                labels := None |}).
  set (c2 := {| name := "chloroplasts"; displayName := "Chloroplasts";
                mesh := None; group := Some chloroplastGroup; visible := true;
                labels := None |}).
  set (c3 := {| name := "raphe"; displayName := "Raphe System";
                mesh := None; group := Some rapheGroup; visible := true;
                labels := None |}).
  pose proof (Building_diatom_components x _ _ grp s c0 c1 c2 c3 B4) as B5.
  pose proof (Recorded_diatom_components x _ grp s c0 c1 c2 c3
                diatom ornamentGroup chloroplastGroup rapheGroup B4 R4) as R5.
  destruct (Diatom.newComponent c0 s) as [r0 s0].
  destruct (Diatom.newComponent c1 s0) as [r1 s1].
  destruct (Diatom.newComponent c2 s1) as [r2 s2].
  destruct (Diatom.newComponent c3 s2) as [r3 s3].
  assert (Forall (λ cm : Component * ref,
            visible cm.1 = true ∧ labels cm.1 = None
            ∧ subtreeOf cm.1 = Some cm.2
            ∧ cm.2 ∈ map obj_id (obj_children grp))
            [(c0, diatom); (c1, ornamentGroup); (c2, chloroplastGroup);
             (c3, rapheGroup)]) as Hcs.
  { repeat (apply Forall_cons; split; [by repeat split|]). by apply Forall_nil. }
  specialize (R5 Hcs).
  set (gs5 := (grp, with_graph _ s3)) in *.
  assert (default [] (group_components (graph gs5.2) !! obj_id gs5.1)
          = [r0; r1; r2; r3]) as Hreg.
  { subst gs5. simpl. by rewrite lookup_insert_eq. }
  clearbody gs5.
  destruct (Built_addLabel x _ _ "Frustule" (vec3 0 0.4 0.9) r0 gs5 (conj B5 R5))
    as [H6 Hreg6].
  { rewrite Hreg. solve [repeat first [apply list_elem_of_here | apply list_elem_of_further]]. }
  rewrite Hreg in Hreg6.
  destruct (Built_addLabel x _ _ "Surface Ornaments" (vec3 0.9 0.2 0) r1 _ H6)
    as [H7 Hreg7].
  { rewrite Hreg6. solve [repeat first [apply list_elem_of_here | apply list_elem_of_further]]. }
  rewrite Hreg6 in Hreg7.
  destruct (Built_addLabel x _ _ "Chloroplasts" (vec3 (-0.9) 0 0.2) r2 _ H7)
    as [H8 Hreg8].
  { rewrite Hreg7. solve [repeat first [apply list_elem_of_here | apply list_elem_of_further]]. }
  rewrite Hreg7 in Hreg8.
  destruct (Built_addLabel x _ _ "Raphe" (vec3 0 0.3 (-0.9)) r3 _ H8)
    as [[_ H9] _].
  { rewrite Hreg8. solve [repeat first [apply list_elem_of_here | apply list_elem_of_further]]. }
  exact H9.
Qed.

(** Every factory builds its model in the way [Building] and [Recorded]
    describe, with the component names of its source. *)
Lemma createModel_Built sp x :
  Building x (labelCount sp) (componentNames sp) (createModel sp x)
  ∧ Recorded x (createModel sp x).
Proof.
  assert (∃ names, (Building x (labelCount sp) names (createModel sp x)
                    ∧ Recorded x (createModel sp x))
                   ∧ names = componentNames sp) as (names & H & ->); [|done].
  pose proof (conj (Building_newModelGroup x) (Recorded_newModelGroup x)) as H0.
  destruct sp; simpl createModel; simpl labelCount.
  - eexists. split.
    + unfold Fusuline.createFusulineModel.
      repeat apply Built_createPart. exact H0.
    + reflexivity.
  - eexists. split.
    + unfold Radiolarian.createRadiolarianModel.
      repeat apply Built_createPart. exact H0.
    + reflexivity.
  - eexists. split.
    + unfold Foraminifera.createForaminiferaModel.
      repeat apply Built_createPart. exact H0.
    + reflexivity.
  - eexists. split; [apply Built_createDiatomModel | reflexivity].
  - eexists. split.
    + unfold Conodont.createConodontModel.
      do 2 apply Built_createPart. apply Built_createCusp.
      do 2 apply Built_createPart. exact H0.
    + reflexivity.
  - eexists. split.
    + unfold Ostracod.createOstracodModel.
      repeat apply Built_createPart. exact H0.
    + reflexivity.
  - eexists. split.
    + unfold Acritarch.createAcritarchModel.
      repeat apply Built_createPart. exact H0.
    + reflexivity.
Qed.

(** X21: a factory works beside the scene.  It returns a group with the
    next free reference whose objects carry distinct references handed out
    during the call; it leaves the scene, the detached objects, every
    [visible] flag, the current model, the view, and the parents, displays
    and opacities of the overlay elements as they were, and every record
    and element that existed before it; it only appends to the global label
    array, one entry per label object of the group in order, as many as the
    specimen has labels; and it registers the components under the names of
    its source, one per label. *)
Theorem factory_builds_beside_the_scene sp x :
  let model := (createModel sp x).1 in
  let x' := (createModel sp x).2 in
  obj_id model = next_ref x
  ∧ NoDup (map obj_id (traverse model))
  ∧ Forall (λ r, next_ref x ≤ r < next_ref x') (map obj_id (traverse model))
  ∧ scene (graph x') = scene (graph x)
  ∧ detached (graph x') = detached (graph x)
  ∧ obj_visible (graph x') = obj_visible (graph x)
  ∧ currentModel x' = currentModel x
  ∧ view x' = view x
  ∧ parentNode (dom x') = parentNode (dom x)
  ∧ display (dom x') = display (dom x)
  ∧ opacity (dom x') = opacity (dom x)
  ∧ (∀ r : ref, r < next_ref x →
          components x' !! r = components x !! r
          ∧ className (dom x') !! r = className (dom x) !! r
          ∧ textContent (dom x') !! r = textContent (dom x) !! r)
  ∧ (∃ new, window_labels x' = window_labels x ++ new
            ∧ length new = labelCount sp
            ∧ omap li_object new = labelObjectRefs model)
  ∧ registeredNames x' (obj_id model) = map Some (componentNames sp)
  ∧ length (componentNames sp) = labelCount sp.
Proof.
  intros model x'. destruct (createModel_Built sp x) as [Hb Hr].
  rewrite (surjective_pairing (createModel sp x)) in Hb, Hr.
  fold model x' in Hb, Hr. unfold Building in Hb. unfold Recorded in Hr.
  destruct Hb as (Hid & Hlt & Hrange & Hnd
                  & (Hsc & Hdt & Hvis & Hcm & Hlc & Hview & Hpn & Hds)
                  & (new & Hwl & Hobj & Hel & Hlen) & Hfresh & Hnames).
  destruct Hr as (Hold & Hop & _).
  split; [done|]. split; [done|]. split; [done|]. split; [done|].
  split; [done|]. split; [done|]. split; [done|]. split; [done|].
  split; [done|]. split; [done|]. split; [done|]. split; [done|].
  split; [by exists new|]. split; [done|]. by destruct sp.
Qed.

(** ** The state after a load *)

Lemma child_in_traverse m o :
  m ∈ map obj_id (obj_children o) → m ∈ map obj_id (traverse o).
Proof.
  destruct o as [i k cs]. simpl. intros Hm. apply elem_of_cons. right.
  exact (elem_of_sublist _ _ _ Hm (childRefs_sublist_traverse cs)).
Qed.

Lemma fresh_lookup_None {A} (m : gmap ref A) (n r : ref) :
  map_Forall (λ r _, r < n) m → n ≤ r → m !! r = None.
Proof.
  intros Hm Hr. destruct (m !! r) as [a|] eqn:Ha; [|done].
  apply (map_Forall_lookup_1 _ _ _ _ Hm) in Ha. lia.
Qed.

Lemma toggles_of_registry s cs names :
  Forall (λ c, ∃ component,
            components s !! c = Some component ∧ visible component = true) cs →
  map (λ c, name <$> components s !! c) cs = map Some names →
  map toggle_component (omap (makeToggle s) cs) = cs
  ∧ map toggle_id (omap (makeToggle s) cs) = map (λ n, "toggle-" +:+ n) names
  ∧ Forall (λ t, toggle_checked t = true) (omap (makeToggle s) cs).
Proof.
  revert names. induction cs as [|c cs IH]; intros names Hcs Hnames.
  - destruct names; [|done]. by repeat split.
  - apply Forall_cons in Hcs as [(component & Hc & Hv) Hcs].
    destruct names as [|n names]; [done|]. simpl in Hnames.
    injection Hnames as Hn Hnames. rewrite Hc in Hn. simpl in Hn.
    injection Hn as Hn.
    destruct (IH names Hcs Hnames) as (H1 & H2 & H3).
    assert (omap (makeToggle s) (c :: cs)
            = {| toggle_id := "toggle-" +:+ n; toggle_checked := true;
                 toggle_text := match displayName component with
                                | EmptyString => name component
                                | d => d
                                end;
                 toggle_component := c |} :: omap (makeToggle s) cs) as ->.
    { cbn [omap list_omap]. unfold makeToggle at 1. by rewrite Hc, Hn, Hv. }
    cbn [map toggle_component toggle_id]. rewrite H1, H2.
    split; [done|]. split; [done|]. by apply Forall_cons.
Qed.

Section Loaded.

Variable getInfo : Specimen → string.
Variable parseFromString : string → HtmlNode.

(** X16: after a load of a known specimen into a state whose unused
    references are fresh, model, records and labels agree.  Every component
    registered on the current model has a record that is visible, holds a
    subtree whose [visible] flag is true, and has as its [labels] exactly
    the handles of the entries of the global array that name it, each with
    its element shown; and every entry of the global array names a
    component registered on the current model. *)
Theorem loaded_components_are_visible_and_labelled type sp s :
  freshStores s →
  specimenOfKey type = Some sp →
  let s' := loadFossil getInfo parseFromString type s in
  ∃ g, currentModel s' = Some g
    ∧ Forall (λ c, ∃ component m,
                components s' !! c = Some component
                ∧ visible component = true
                ∧ subtreeOf component = Some m
                ∧ is_visible s' m = true
                ∧ default [] (labels component) = handlesOf c (window_labels s')
                ∧ Forall (λ h, shown s' (lh_element h) = true)
                    (default [] (labels component)))
        (default [] (group_components (graph s') !! g))
    ∧ Forall (λ l, ∃ c, li_component l = Some c
                        ∧ c ∈ default [] (group_components (graph s') !! g))
        (window_labels s').
Proof.
  intros (Hfv & Hfd & _) Hkey s'. subst s'.
  destruct (loadFossil_known_stores getInfo parseFromString type sp s Hkey)
    as (_ & Hcomp & Hvis & Hgc & Hdom & _ & Hcm & Hwl & _).
  destruct (factoryInput_frame type s)
    as (Hxn & _ & _ & _ & _ & _ & Hxd & _ & _ & _ & Hxwl & _).
  cbv zeta in Hcomp, Hvis, Hgc, Hdom, Hcm, Hwl, Hxn, Hxd, Hxwl.
  set (s' := loadFossil getInfo parseFromString type s) in *.
  set (x := factoryInput type s) in *.
  destruct (createModel_Built sp x) as [Hb Hr].
  rewrite (surjective_pairing (createModel sp x)) in Hb, Hr.
  set (model := (createModel sp x).1) in *.
  set (x' := (createModel sp x).2) in *.
  unfold Building in Hb. unfold Recorded in Hr.
  destruct Hb as (Hid & Hlt & Hrange & _ & (_ & _ & _ & _ & _ & _ & _ & Hds)
                  & (new' & Hwl' & _ & Hel & _) & _).
  destruct Hr as (_ & _ & new & Hnew & Hreg & Hnamed).
  assert (new' = new) as -> by (rewrite Hnew in Hwl'; by apply app_inv_head in Hwl').
  rewrite Hxwl in Hnew. simpl in Hnew.
  exists (obj_id model). split; [done|]. rewrite Hgc, Hwl, Hnew.
  split; [|eapply Forall_impl; [exact Hnamed|]; simpl; by intros l [? _]].
  eapply Forall_impl; [exact Hreg|]. simpl.
  intros c (_ & component & m & H1 & H2 & H3 & H4 & H5).
  exists component, m. rewrite Hcomp. split; [done|]. split; [done|].
  split; [done|]. split; [|split; [done|]].
  - unfold is_visible. rewrite Hvis.
    apply child_in_traverse in H4.
    rewrite Forall_forall in Hrange. specialize (Hrange m H4).
    rewrite (fresh_lookup_None _ (next_ref s) m Hfv); [done | lia].
  - rewrite H5. apply Forall_forall. intros h Hh.
    apply list_elem_of_omap in Hh as (l & Hl & Hh).
    unfold handleOf in Hh. destruct (decide _); [|done].
    destruct (li_object l) as [o|]; [|done]. simpl in Hh.
    injection Hh as <-. simpl.
    rewrite Forall_forall in Hel. destruct (Hel l Hl) as [Hge _].
    unfold shown. rewrite Hdom, Hds, Hxd.
    rewrite (fresh_lookup_None _ (next_ref s) (li_element l) Hfd); [done | lia].
Qed.

(** X17: after a load of a known specimen the component panel mirrors the
    registry of the current model: one checkbox per registered component,
    in the order of registration, with the id "toggle-" followed by the
    component's name as the factory's source lists them, every one checked;
    there are as many checkboxes as the specimen has labels. *)
Theorem loaded_toggles_mirror_registry type sp s :
  specimenOfKey type = Some sp →
  let s' := loadFossil getInfo parseFromString type s in
  ∃ g, currentModel s' = Some g
    ∧ map toggle_component (componentToggles (view s'))
      = default [] (group_components (graph s') !! g)
    ∧ map toggle_id (componentToggles (view s'))
      = map (λ n, "toggle-" +:+ n) (componentNames sp)
    ∧ Forall (λ t, toggle_checked t = true) (componentToggles (view s'))
    ∧ length (componentToggles (view s')) = labelCount sp.
Proof.
  intros Hkey s'. subst s'.
  destruct (loadFossil_known_stores getInfo parseFromString type sp s Hkey)
    as (_ & _ & _ & Hgc & _ & _ & Hcm & _ & Htog & _).
  cbv zeta in Hgc, Hcm, Htog.
  set (s' := loadFossil getInfo parseFromString type s) in *.
  set (x := factoryInput type s) in *.
  destruct (createModel_Built sp x) as [Hb Hr].
  rewrite (surjective_pairing (createModel sp x)) in Hb, Hr.
  set (model := (createModel sp x).1) in *.
  set (x' := (createModel sp x).2) in *.
  unfold Building in Hb. unfold Recorded in Hr.
  destruct Hb as (_ & _ & _ & _ & _ & _ & _ & Hnames).
  destruct Hr as (_ & _ & new & _ & Hreg & _).
  unfold registeredNames in Hnames.
  destruct (toggles_of_registry x'
              (default [] (group_components (graph x') !! obj_id model))
              (componentNames sp)) as (H1 & H2 & H3).
  { eapply Forall_impl; [exact Hreg|]. simpl.
    intros c (_ & component & m & Hc & Hv & _). by exists component. }
  { exact Hnames. }
  exists (obj_id model). rewrite Htog, Hgc.
  split; [done|]. split; [done|]. split; [done|]. split; [done|].
  rewrite <- (length_map toggle_id), H2, length_map. by destruct sp.
Qed.

(** X18: after a load of a known specimen into a state whose unused
    references are fresh, no label element is attached: the elements of the
    previous labels and those of the new labels have no parent (the label
    renderer attaches the new ones later), with a label container no
    element of class "fossil-label" sits below it, the load attached
    nothing, and the unused references are still fresh. *)
Theorem load_leaves_no_label_element_attached type sp s :
  freshStores s →
  specimenOfKey type = Some sp →
  let s' := loadFossil getInfo parseFromString type s in
  (∀ l, l ∈ window_labels s → parentNode (dom s') !! li_element l = None)
  ∧ (∀ l, l ∈ window_labels s' → parentNode (dom s') !! li_element l = None)
  ∧ (labelContainer s = true →
     ∀ e, className (dom s') !! e = Some "fossil-label" →
          parentNode (dom s') !! e ≠ Some InModelContainer)
  ∧ parentNode (dom s') ⊆ parentNode (dom s)
  ∧ freshStores s'.
Proof.
  intros (Hfv & Hfd & Hfp) Hkey s'. subst s'.
  destruct (loadFossil_known_stores getInfo parseFromString type sp s Hkey)
    as (Hn & _ & Hvis & _ & Hdom & _ & _ & Hwl & _).
  destruct (factoryInput_frame type s)
    as (Hxn & _ & _ & _ & Hxc & _ & Hxd & _ & _ & _ & Hxwl & _ & Hxsub & Hxdet
        & Hxswept).
  cbv zeta in Hn, Hvis, Hdom, Hwl, Hxn, Hxc, Hxd, Hxwl, Hxsub, Hxdet, Hxswept.
  set (s' := loadFossil getInfo parseFromString type s) in *.
  set (x := factoryInput type s) in *.
  destruct (createModel_Built sp x) as [Hb Hr].
  rewrite (surjective_pairing (createModel sp x)) in Hb, Hr.
  set (model := (createModel sp x).1) in *.
  set (x' := (createModel sp x).2) in *.
  unfold Building in Hb. unfold Recorded in Hr.
  destruct Hb as (_ & Hlt & _ & _ & (_ & _ & _ & _ & _ & _ & Hpn & Hds)
                  & (new & Hnew & _ & Hel & _) & _).
  destruct Hr as (Hold & _).
  rewrite Hxwl in Hnew. simpl in Hnew.
  assert (parentNode (dom s') = parentNode (dom x)) as Hp by (by rewrite Hdom).
  assert (∀ e : ref, next_ref s ≤ e → parentNode (dom s') !! e = None) as Hnone.
  { intros e He. rewrite Hp.
    pose proof (fresh_lookup_None _ (next_ref s) e Hfp He) as Hs.
    destruct (parentNode (dom x) !! e) as [d|] eqn:Hx; [|done].
    apply (lookup_weaken _ _ _ _ Hx) in Hxsub. congruence. }
  split; [|split; [|split; [|split]]].
  - intros l Hl. rewrite Hp. by apply Hxdet.
  - intros l Hl. rewrite Hwl, Hnew in Hl.
    rewrite Forall_forall in Hel. destruct (Hel l Hl) as [Hge _].
    apply Hnone. lia.
  - intros Hcontainer e Hcls Hatt.
    destruct (decide (e < next_ref s)) as [Hlt'|Hge].
    + rewrite Hdom in Hcls. destruct (Hold e ltac:(lia)) as (_ & Hcl & _).
      rewrite Hcl, Hxc in Hcls. rewrite Hp in Hatt.
      by apply (Hxswept Hcontainer e Hatt).
    + rewrite Hnone in Hatt by lia. done.
  - by rewrite Hp.
  - unfold freshStores. rewrite Hn, Hvis, Hdom, Hds, Hxd, Hpn.
    split; [|split].
    + eapply map_Forall_impl; [exact Hfv|]. simpl. intros r _ Hr. lia.
    + eapply map_Forall_impl; [exact Hfd|]. simpl. intros r _ Hr. lia.
    + apply map_Forall_lookup. intros r d Hr.
      apply (lookup_weaken _ _ _ _ Hr) in Hxsub.
      apply (map_Forall_lookup_1 _ _ _ _ Hfp) in Hxsub. lia.
Qed.

End Loaded.

(** ** Loads of any key *)

Lemma refs_moved_last i k l1 o l2 :
  map obj_id (traverse (Obj i k ((l1 ++ l2) ++ [o])))
  ≡ₚ map obj_id (traverse (Obj i k (l1 ++ o :: l2))).
Proof.
  change (traverse (Obj i k ((l1 ++ l2) ++ [o])))
    with (Obj i k ((l1 ++ l2) ++ [o]) :: flat_map traverse ((l1 ++ l2) ++ [o])).
  change (traverse (Obj i k (l1 ++ o :: l2)))
    with (Obj i k (l1 ++ o :: l2) :: flat_map traverse (l1 ++ o :: l2)).
  cbn [map obj_id]. apply perm_skip.
  rewrite !flat_map_app. cbn [flat_map]. rewrite app_nil_r, !map_app.
  rewrite <- app_assoc. apply Permutation_app_head, Permutation_app_comm.
Qed.

(** Moving the current model behind the other children keeps the state
    well formed. *)
Lemma wellFormed_moved s s' :
  wellFormed s →
  scene (graph s') = modelMovedLast s →
  currentModel s' = currentModel s →
  next_ref s' = next_ref s →
  wellFormed s'.
Proof.
  intros (Huniq & Hfresh & Hroot & Hkids & Hmodel) Hsc Hcm Hn.
  unfold wellFormed, uniqueRefs, childRefs, modelMovedLast in *.
  rewrite Hcm, Hn.
  destruct (scene (graph s)) as [i k cs] eqn:Hs.
  destruct (currentModel s) as [m|]; [|by rewrite Hsc].
  destruct (take_child m cs) as [[o rest]|] eqn:Ht; [|by rewrite Hsc].
  destruct (take_child_split m cs o rest Ht) as (l1 & l2 & -> & -> & Hid).
  rewrite Hsc. pose proof (refs_moved_last i k l1 o l2) as Hperm.
  split; [by rewrite Hperm|]. split; [by rewrite Hperm|]. split; [done|].
  simpl in *. split.
  - apply Forall_app in Hkids as [H1 H2]. apply Forall_cons in H2 as [H2 H3].
    apply Forall_app. split; [|by apply Forall_singleton].
    apply Forall_app. by split.
  - rewrite !map_app. simpl. apply elem_of_app. right.
    rewrite Hid. by apply list_elem_of_singleton.
Qed.

Section LoadingAny.

Variable getInfo : Specimen → string.
Variable parseFromString : string → HtmlNode.

(** An unknown key on a well-formed state: the model is taken out and put
    back as the last child. *)
Lemma loadFossil_unknown_graph type s :
  wellFormed s →
  specimenOfKey type = None →
  let s' := loadFossil getInfo parseFromString type s in
  scene (graph s') = modelMovedLast s
  ∧ currentModel s' = currentModel s
  ∧ next_ref s' = next_ref s.
Proof.
  intros Hwf Hkey s'. subst s'.
  rewrite (loadFossil_unknown getInfo parseFromString type s Hkey).
  destruct (scene (graph s)) as [i k cs] eqn:Hsc.
  destruct (teardown_shape s i k cs Hwf Hsc) as (rest & dt & p & Ht & _ & _ & Hcm).
  cbv zeta. unfold factoryInput. rewrite Ht.
  set (x := with_view _ _).
  assert (currentModel x = currentModel s) as Hxcm by done.
  assert (∃ G, match currentModel x with
               | Some m => scene_add m x
               | None => x
               end = with_graph G x
               ∧ scene G = modelMovedLast s) as (G & -> & HGsc).
  { rewrite Hxcm. unfold modelMovedLast. rewrite Hsc.
    destruct (currentModel s) as [m|].
    - destruct Hcm as (o & Hto & ->). rewrite Hto.
      destruct (take_child_split m cs o rest Hto) as (l1 & l2 & -> & -> & Hid).
      destruct Hwf as (Huniq & _). unfold uniqueRefs in Huniq.
      rewrite Hsc in Huniq.
      pose proof (child_ref_elsewhere i k l1 o l2 Huniq) as Hnot.
      rewrite Hid in Hnot.
      destruct (scene_add_detached m x i k (l1 ++ l2) o (detached (graph s))
                  eq_refl eq_refl Hid Hnot) as (G & HG & HGsc & _).
      by exists G.
    - destruct Hcm as [-> ->]. exists (graph x). split; [by destruct x|]. done. }
  simpl. by repeat split.
Qed.

Lemma loadFossil_wellFormed type s :
  wellFormed s → wellFormed (loadFossil getInfo parseFromString type s).
Proof.
  intros Hwf. destruct (specimenOfKey type) as [sp|] eqn:Hkey.
  - by eapply loadFossil_known_wellFormed.
  - destruct (loadFossil_unknown_graph type s Hwf Hkey) as (Hsc & Hcm & Hn).
    by eapply wellFormed_moved.
Qed.

(** X14: well-formedness of the object graph is an invariant of loading:
    after any sequence of loads, of known and unknown keys alike, the scene
    still holds distinct references that were all handed out, no label
    object sits outside the current model, and the current model is a child
    of the scene. *)
Theorem every_load_keeps_the_graph_well_formed types s :
  wellFormed s →
  wellFormed (loadAll getInfo parseFromString types s).
Proof.
  revert s. induction types as [|type types IH]; intros s Hwf; [done|].
  unfold loadAll. simpl. apply IH. by apply loadFossil_wellFormed.
Qed.

(** X15: a load of a known specimen replaces exactly the current model.
    The scene keeps its identity, every child other than the current model
    stays, in order, and holds no label object, and the new model is put
    behind them; so the number of children is unchanged when a model was
    loaded before and grows by one on the first load. *)
Theorem load_replaces_only_the_model type sp s :
  wellFormed s →
  specimenOfKey type = Some sp →
  let s' := loadFossil getInfo parseFromString type s in
  obj_children (scene (graph s'))
  = withoutCurrentModel s ++ [(createModel sp (factoryInput type s)).1]
  ∧ obj_id (scene (graph s')) = obj_id (scene (graph s))
  ∧ obj_kind (scene (graph s')) = obj_kind (scene (graph s))
  ∧ withoutCurrentModel s `sublist_of` obj_children (scene (graph s))
  ∧ Forall labelFree (withoutCurrentModel s)
  ∧ length (obj_children (scene (graph s')))
    = match currentModel s with
      | Some _ => length (obj_children (scene (graph s)))
      | None => S (length (obj_children (scene (graph s))))
      end.
Proof.
  intros Hwf Hkey s'. subst s'.
  destruct (scene (graph s)) as [i k cs] eqn:Hsc.
  destruct (loadFossil_known_scene getInfo parseFromString type sp s i k cs
              Hwf Hkey Hsc)
    as (rest' & _ & _ & Htsc & _ & _ & _ & _ & Hsc' & _).
  destruct (teardown_shape s i k cs Hwf Hsc) as (rest & dt & p & Ht & Hfree & _ & Hcm).
  rewrite Ht in Htsc. simpl in Htsc. injection Htsc as <-.
  rewrite Hsc'. unfold withoutCurrentModel. rewrite Hsc. simpl.
  destruct (currentModel s) as [m|].
  - destruct Hcm as (o & Hto & _). rewrite Hto.
    destruct (take_child_split m cs o rest Hto) as (l1 & l2 & -> & -> & _).
    split; [done|]. split; [done|]. split; [done|]. split.
    { apply sublist_app; [done|]. by apply sublist_cons. }
    split; [done|]. rewrite !length_app. simpl. lia.
  - destruct Hcm as [-> _].
    split; [done|]. split; [done|]. split; [done|]. split; [done|].
    split; [done|]. rewrite length_app. simpl. lia.
Qed.

End LoadingAny.

(** ** The clean-up and the diagnostic *)

(** X19: [removeAllLabels] only detaches.  The parents after it are among
    the parents before it, so it attaches nothing and the diagnostic count
    of attached label elements cannot grow; classes, texts, displays and
    opacities of the elements, the current model, the label container, the
    view and the allocation counter stay as they were. *)
Theorem removeAllLabels_only_detaches s :
  let s' := removeAllLabels s in
  parentNode (dom s') ⊆ parentNode (dom s)
  ∧ countLabelElements s' ≤ countLabelElements s
  ∧ className (dom s') = className (dom s)
  ∧ textContent (dom s') = textContent (dom s)
  ∧ display (dom s') = display (dom s)
  ∧ opacity (dom s') = opacity (dom s)
  ∧ currentModel s' = currentModel s
  ∧ labelContainer s' = labelContainer s
  ∧ view s' = view s
  ∧ next_ref s' = next_ref s.
Proof.
  intros s'. subst s'.
  destruct (removeAllLabels_shape s) as (G & p & -> & _ & _ & Hsub & _).
  simpl. split; [done|]. split; [|by repeat split].
  unfold countLabelElements. simpl.
  by apply map_subseteq_size, map_filter_subseteq_mono.
Qed.

(** X20: with the label container set and every attached element sitting
    below it, as the label renderer places them, the diagnostic
    [checkForOrphanedLabels] reports no label element left, and it leaves
    the state [removeAllLabels] produces, with the global array empty. *)
Theorem checkForOrphanedLabels_finds_none_below_container s :
  labelContainer s = true →
  map_Forall (λ _ d, d = InModelContainer) (parentNode (dom s)) →
  (checkForOrphanedLabels s).1 = 0
  ∧ (checkForOrphanedLabels s).2 = removeAllLabels s
  ∧ window_labels (checkForOrphanedLabels s).2 = [].
Proof.
  intros Hcontainer Hbelow. unfold checkForOrphanedLabels. simpl.
  destruct (removeAllLabels_shape s) as (G & p & -> & _ & _ & Hsub & _ & Hswept).
  split; [|done]. unfold countLabelElements. simpl.
  apply map_size_empty_iff, map_empty_filter. simpl.
  apply map_Forall_lookup. intros e d He Hcls.
  pose proof (lookup_weaken _ _ _ _ He Hsub) as Hs.
  apply (map_Forall_lookup_1 _ _ _ _ Hbelow) in Hs. subst d.
  by apply (Hswept Hcontainer e He).
Qed.

(** ** Further concrete runs *)

Lemma toggleLabels_flips_every_label_witness :
  NoDup (map li_element (window_labels afterFusuline))
  ∧ shown afterFusuline (li_element shellLabel) = true
  ∧ display (dom (toggleLabels afterFusuline)) !! li_element shellLabel
    = Some "none"
  ∧ shown (toggleLabels afterFusuline) (li_element shellLabel) = false.
Proof.
  assert (NoDup (map li_element (window_labels afterFusuline))) as Hnd
    by (apply (@bool_decide_unpack _ (NoDup_dec _)); vm_compute; exact I).
  split; [exact Hnd|]. split; [vm_compute; reflexivity|].
  destruct (toggleLabels_flips_every_label afterFusuline Hnd) as (H & _).
  destruct (H shellLabel) as [H1 H2].
  { apply (list_elem_of_lookup_2 _ 0). vm_compute. reflexivity. }
  split.
  - rewrite H1. vm_compute. reflexivity.
  - rewrite H2. vm_compute. reflexivity.
Defined.

Lemma toggleLabels_twice_restores_shown_witness :
  NoDup (map li_element (window_labels afterFusuline))
  ∧ shown (toggleLabels (toggleLabels afterFusuline)) (li_element shellLabel)
    = shown afterFusuline (li_element shellLabel)
  ∧ display (dom afterFusuline) !! li_element shellLabel = None
  ∧ display (dom (toggleLabels (toggleLabels afterFusuline)))
    !! li_element shellLabel = Some "block".
Proof.
  assert (NoDup (map li_element (window_labels afterFusuline))) as Hnd
    by (apply (@bool_decide_unpack _ (NoDup_dec _)); vm_compute; exact I).
  split; [exact Hnd|].
  destruct (toggleLabels_twice_restores_shown afterFusuline Hnd) as (H & _).
  split; [apply H|]. split; vm_compute; reflexivity.
Defined.

Lemma toggleLabels_shows_labels_of_hidden_component_witness :
  components afterFusuline !! 6 = Some shellComponent
  ∧ subtreeOf shellComponent = Some 5
  ∧ NoDup (map li_element (window_labels afterFusuline))
  ∧ let s2 := toggleLabels (toggleComponentVisibility 6 false afterFusuline) in
    shown s2 (lh_element shellHandle) = true
    ∧ visible <$> components s2 !! 6 = Some false
    ∧ is_visible s2 5 = false.
Proof.
  assert (components afterFusuline !! 6 = Some shellComponent) as Hc
    by (vm_compute; reflexivity).
  assert (NoDup (map li_element (window_labels afterFusuline))) as Hnd
    by (apply (@bool_decide_unpack _ (NoDup_dec _)); vm_compute; exact I).
  split; [exact Hc|]. split; [reflexivity|]. split; [exact Hnd|].
  destruct (toggleLabels_shows_labels_of_hidden_component 6 afterFusuline
              shellComponent 5 shellHandle shellLabel Hc eq_refl Hnd)
    as (_ & H1 & H2 & H3).
  { apply elem_of_cons. by left. }
  { apply (list_elem_of_lookup_2 _ 0). vm_compute. reflexivity. }
  { reflexivity. }
  cbv zeta. split; [exact H1|]. split; [exact H2 | exact H3].
Defined.

Lemma toggle_leaves_the_rest_untouched_witness :
  components afterFusuline !! 6 = Some shellComponent
  ∧ subtreeOf shellComponent = Some 5
  ∧ let s' := toggleComponentVisibility 6 false afterFusuline in
    components s' !! 10 = components afterFusuline !! 10
    ∧ is_visible s' 9 = is_visible afterFusuline 9
    ∧ display (dom s') !! 11 = display (dom afterFusuline) !! 11
    ∧ window_labels s' = window_labels afterFusuline
    ∧ view s' = view afterFusuline.
Proof.
  assert (components afterFusuline !! 6 = Some shellComponent) as Hc
    by (vm_compute; reflexivity).
  split; [exact Hc|]. split; [reflexivity|].
  destruct (toggle_leaves_the_rest_untouched 6 false afterFusuline
              shellComponent 5 Hc eq_refl)
    as (H1 & H2 & H3 & _ & _ & _ & H4 & _ & _ & _ & H5 & _).
  cbv zeta. split; [apply H1; lia|]. split; [apply H2; lia|].
  split; [apply H3; by_evaluation|]. split; [exact H4 | exact H5].
Defined.

Lemma toggle_without_subtree_touches_labels_only_witness :
  components withBareComponent !! 100 = Some bareComponent
  ∧ subtreeOf bareComponent = None
  ∧ let s' := toggleComponentVisibility 100 false withBareComponent in
    visible <$> components s' !! 100 = Some true
    ∧ shown s' (lh_element shellHandle) = false.
Proof.
  assert (components withBareComponent !! 100 = Some bareComponent) as Hc
    by (vm_compute; reflexivity).
  split; [exact Hc|]. split; [reflexivity|].
  destruct (toggle_without_subtree_touches_labels_only 100 false
              withBareComponent bareComponent Hc eq_refl) as (H1 & _ & H2).
  destruct (H2 shellHandle) as [_ H3].
  { apply elem_of_cons. by left. }
  cbv zeta. split; [|exact H3].
  rewrite H1, Hc. reflexivity.
Defined.

Lemma collectSiblings_stops_at_next_heading_witness :
  Forall (λ n, tagIs "h4" n = false) sampleSiblings
  ∧ collectSiblings
      (sampleSiblings
       ++ Element "h4" [TextNode "Taxonomy"] :: [Element "p" [TextNode "later"]])
    = "<ul><li>Frustule</li></ul><p>Domain: Eukaryota</p>".
Proof.
  assert (Forall (λ n, tagIs "h4" n = false) sampleSiblings) as Hno
    by by_evaluation.
  split; [exact Hno|].
  rewrite (collectSiblings_stops_at_next_heading sampleSiblings
             [TextNode "Taxonomy"] [Element "p" [TextNode "later"]] Hno).
  vm_compute. reflexivity.
Defined.

Lemma long_titled_document_gets_tab_bar_witness :
  50 ≤ String.length (trim sampleMarkup)
  ∧ includes sampleMarkup "<h3>" = true
  ∧ renderInfo sampleDocumentParser sampleMarkup
    = createTabbedContent sampleDocument
  ∧ includes (renderInfo sampleDocumentParser sampleMarkup) tabBarOpen = true.
Proof.
  assert (50 ≤ String.length (trim sampleMarkup)) as Hlen by (vm_compute; lia).
  assert (includes sampleMarkup "<h3>" = true) as Hh3 by (vm_compute; reflexivity).
  split; [exact Hlen|]. split; [exact Hh3|].
  destruct (long_titled_document_gets_tab_bar sampleDocumentParser sampleMarkup
              Hlen Hh3) as (H1 & H2 & _).
  split; [exact H1 | exact H2].
Defined.

Lemma tab_click_shows_clicked_section_witness :
  2 < length (sectionsOf sampleDocument)
  ∧ clickTab 2 (panelOf (sectionsOf sampleDocument))
    = Some (panelShowing (sectionsOf sampleDocument) 2)
  ∧ panel_tabs (panelShowing (sectionsOf sampleDocument) 2)
    = [("overview", false); ("features", false); ("taxonomy", true)].
Proof.
  assert (2 < length (sectionsOf sampleDocument)) as Hlt by (vm_compute; lia).
  split; [exact Hlt|].
  destruct (tab_click_shows_clicked_section sampleDocument 2 0 Hlt) as [H1 H2].
  split; [rewrite H1; exact H2|]. vm_compute. reflexivity.
Defined.

Lemma every_load_keeps_the_graph_well_formed_witness :
  wellFormed initial
  ∧ wellFormed
      (loadAll sampleInfo sampleParser ["fusuline"; "trilobite"; "diatom"] initial).
Proof.
  assert (wellFormed initial) as Hwf by by_evaluation.
  split; [exact Hwf|].
  exact (every_load_keeps_the_graph_well_formed sampleInfo sampleParser
           ["fusuline"; "trilobite"; "diatom"] initial Hwf).
Defined.

Lemma load_replaces_only_the_model_witness :
  wellFormed afterFusuline
  ∧ specimenOfKey "diatom" = Some diatom
  ∧ let s' := loadFossil sampleInfo sampleParser "diatom" afterFusuline in
    withoutCurrentModel afterFusuline = [Obj 1 Light []; Obj 2 Light []; Obj 3 Light []]
    ∧ length (obj_children (scene (graph s'))) = 4
    ∧ length (obj_children (scene (graph afterFusuline))) = 4.
Proof.
  assert (wellFormed afterFusuline) as Hwf by by_evaluation.
  split; [exact Hwf|]. split; [reflexivity|].
  destruct (load_replaces_only_the_model sampleInfo sampleParser "diatom" diatom
              afterFusuline Hwf eq_refl) as (_ & _ & _ & _ & _ & H).
  cbv zeta. split; [vm_compute; reflexivity|].
  split; [|vm_compute; reflexivity].
  rewrite H. vm_compute. reflexivity.
Defined.

Lemma loaded_components_are_visible_and_labelled_witness :
  freshStores initial
  ∧ specimenOfKey "fusuline" = Some fusuline
  ∧ ∃ g, currentModel afterFusuline = Some g
      ∧ Forall (λ l, ∃ c, li_component l = Some c
                          ∧ c ∈ default [] (group_components (graph afterFusuline) !! g))
          (window_labels afterFusuline).
Proof.
  assert (freshStores initial) as Hfresh
    by (apply (@bool_decide_unpack _ (freshStores_dec _)); vm_compute; exact I).
  split; [exact Hfresh|]. split; [reflexivity|].
  destruct (loaded_components_are_visible_and_labelled sampleInfo sampleParser
              "fusuline" fusuline initial Hfresh eq_refl) as (g & H1 & _ & H2).
  unfold afterFusuline. exists g. split; [exact H1 | exact H2].
Defined.

Lemma loaded_toggles_mirror_registry_witness :
  specimenOfKey "fusuline" = Some fusuline
  ∧ map toggle_id (componentToggles (view afterFusuline))
    = ["toggle-shell"; "toggle-septa"; "toggle-aperture"; "toggle-chambers";
       "toggle-chomata"; "toggle-tunnel"; "toggle-cuniculus";
       "toggle-septalPores"]
  ∧ Forall (λ t, toggle_checked t = true) (componentToggles (view afterFusuline)).
Proof.
  split; [reflexivity|].
  destruct (loaded_toggles_mirror_registry sampleInfo sampleParser
              "fusuline" fusuline initial eq_refl) as (g & _ & _ & H1 & H2 & _).
  unfold afterFusuline. split; [|exact H2].
  rewrite H1. vm_compute. reflexivity.
Defined.

Lemma load_leaves_no_label_element_attached_witness :
  freshStores afterFirstFrame
  ∧ specimenOfKey "diatom" = Some diatom
  ∧ parentNode (dom afterFirstFrame) !! li_element shellLabel
    = Some InModelContainer
  ∧ let s' := loadFossil sampleInfo sampleParser "diatom" afterFirstFrame in
    parentNode (dom s') !! li_element shellLabel = None
    ∧ freshStores s'.
Proof.
  assert (freshStores afterFirstFrame) as Hfresh
    by (apply (@bool_decide_unpack _ (freshStores_dec _)); vm_compute; exact I).
  split; [exact Hfresh|]. split; [reflexivity|].
  split; [vm_compute; reflexivity|].
  destruct (load_leaves_no_label_element_attached sampleInfo sampleParser
              "diatom" diatom afterFirstFrame Hfresh eq_refl)
    as (H1 & _ & _ & _ & H2).
  cbv zeta. split; [|exact H2].
  apply (H1 shellLabel). apply (list_elem_of_lookup_2 _ 0). vm_compute. reflexivity.
Defined.

Lemma checkForOrphanedLabels_finds_none_below_container_witness :
  labelContainer afterFirstFrame = true
  ∧ map_Forall (λ _ d, d = InModelContainer) (parentNode (dom afterFirstFrame))
  ∧ countLabelElements afterFirstFrame = 8
  ∧ (checkForOrphanedLabels afterFirstFrame).1 = 0.
Proof.
  assert (map_Forall (λ _ d, d = InModelContainer)
            (parentNode (dom afterFirstFrame))) as Hbelow by by_evaluation.
  split; [reflexivity|]. split; [exact Hbelow|].
  split; [vm_compute; reflexivity|].
  exact (proj1 (checkForOrphanedLabels_finds_none_below_container
                  afterFirstFrame eq_refl Hbelow)).
Defined.

(** ** The invariant of the running viewer *)

Lemma allocatedRecord_mono s s' c component :
  next_ref s ≤ next_ref s' →
  allocatedRecord s c component → allocatedRecord s' c component.
Proof.
  intros Hle (Hc & Hm & Hl). split; [lia|]. split.
  - intros m Hsub. specialize (Hm m Hsub). lia.
  - eapply Forall_impl; [exact Hl|]. simpl. intros h Hh. lia.
Qed.

Lemma allocatedRecords_mono s s' :
  components s' = components s → next_ref s ≤ next_ref s' →
  allocatedRecords s → allocatedRecords s'.
Proof.
  unfold allocatedRecords. intros -> Hle Hall.
  eapply map_Forall_impl; [exact Hall|]. intros c component.
  by apply allocatedRecord_mono.
Qed.

Lemma add_child_kind c grp : isCSS2DObject (add_child c grp) = isCSS2DObject grp.
Proof. by destruct grp. Qed.

Lemma soundGroup_newModelGroup x :
  allocatedRecords x → soundGroup (newModelGroup x).
Proof.
  intros Hall. split; [|done]. unfold newModelGroup. simpl.
  eapply allocatedRecords_mono; [| |exact Hall]; [done | simpl; lia].
Qed.

Lemma soundGroup_addSubtree t gs :
  soundGroup gs → soundGroup (addSubtree t gs).2.
Proof.
  destruct gs as [grp s]. unfold soundGroup, addSubtree. simpl.
  intros [Hall Hk]. rewrite add_child_kind. split; [|done].
  eapply allocatedRecords_mono; [| |exact Hall]; [done | simpl; lia].
Qed.

Lemma addSubtree_allocated t gs :
  (addSubtree t gs).1 < next_ref (addSubtree t gs).2.2.
Proof. destruct gs as [grp s]. unfold addSubtree. simpl. lia. Qed.

Lemma soundGroup_registerComponent p (m : ref) gs :
  soundGroup gs → m < next_ref gs.2 →
  soundGroup (registerComponent p m gs).2.
Proof.
  destruct gs as [grp s]. unfold soundGroup, registerComponent. simpl.
  intros [Hall Hk] Hm. split; [|done].
  unfold allocatedRecords in *. simpl.
  apply map_Forall_insert_2.
  - split; [simpl; lia|]. split; [|by apply Forall_nil].
    intros m'. unfold subtreeOf. simpl.
    destruct (part_subtree p); intros [= <-]; simpl; lia.
  - eapply map_Forall_impl; [exact Hall|]. intros c component.
    apply allocatedRecord_mono. simpl. lia.
Qed.

Lemma soundGroup_addLabel text pos c gs :
  soundGroup gs → soundGroup (addLabel text pos (Some c) gs).
Proof.
  destruct gs as [grp s]. rewrite addLabel_unfold.
  unfold soundGroup, allocatedRecords. simpl.
  intros [Hall Hk]. rewrite add_child_kind. split; [|done].
  apply map_Forall_lookup. intros i component' Hi.
  destruct (decide (c = i)) as [->|Hne].
  - rewrite lookup_alter_eq in Hi.
    destruct (components s !! i) as [component|] eqn:Hc; [|done].
    simpl in Hi. injection Hi as <-.
    destruct (map_Forall_lookup_1 _ _ _ _ Hall Hc) as (H1 & H2 & H3).
    split; [simpl; lia|]. split.
    + intros m Hsub. specialize (H2 m Hsub). simpl. lia.
    + simpl. apply Forall_app. split.
      * eapply Forall_impl; [exact H3|]. simpl. intros h Hh. lia.
      * apply Forall_singleton. simpl. lia.
  - rewrite lookup_alter_ne in Hi by done.
    apply (allocatedRecord_mono s); [simpl; lia|].
    exact (map_Forall_lookup_1 _ _ _ _ Hall Hi).
Qed.

Lemma addLabel_next_ref text pos c gs :
  next_ref gs.2 ≤ next_ref (addLabel text pos (Some c) gs).2.
Proof. destruct gs as [grp s]. rewrite addLabel_unfold. simpl. lia. Qed.

Lemma registerComponent_next_ref p m gs :
  next_ref gs.2 ≤ next_ref (registerComponent p m gs).2.2.
Proof. destruct gs as [grp s]. unfold registerComponent. simpl. lia. Qed.

Lemma soundGroup_createPart p gs :
  soundGroup gs → soundGroup (createPart p gs).
Proof.
  intros Hs. unfold createPart.
  pose proof (soundGroup_addSubtree (part_subtree p) gs Hs) as H1.
  pose proof (addSubtree_allocated (part_subtree p) gs) as Hm.
  destruct (addSubtree (part_subtree p) gs) as [m gs1]. simpl in H1, Hm.
  pose proof (soundGroup_registerComponent p m gs1 H1 Hm) as H2.
  destruct (registerComponent p m gs1) as [c gs2]. simpl in H2.
  by apply soundGroup_addLabel.
Qed.

Lemma createPart_next_ref p gs :
  next_ref gs.2 ≤ next_ref (createPart p gs).2.
Proof.
  unfold createPart.
  pose proof (addSubtree_allocated (part_subtree p) gs) as Hm.
  assert (next_ref gs.2 ≤ next_ref (addSubtree (part_subtree p) gs).2.2) as H0.
  { destruct gs as [grp s]. unfold addSubtree. simpl. lia. }
  destruct (addSubtree (part_subtree p) gs) as [m gs1]. simpl in H0.
  pose proof (registerComponent_next_ref p m gs1) as H1.
  destruct (registerComponent p m gs1) as [c gs2]. simpl in H1.
  pose proof (addLabel_next_ref (part_label p) (part_anchor p) c gs2) as H2.
  lia.
Qed.

Lemma soundGroup_createCusp gs :
  soundGroup gs → soundGroup (Conodont.createCusp gs).
Proof.
  intros Hs. unfold Conodont.createCusp.
  pose proof (soundGroup_addSubtree AsMesh gs Hs) as H1.
  pose proof (addSubtree_allocated AsMesh gs) as Hm.
  destruct (addSubtree AsMesh gs) as [cusp gs1]. simpl in H1, Hm.
  pose proof (soundGroup_createPart _ gs1 H1
              : soundGroup (Conodont.createWhiteMatter gs1)) as H2.
  pose proof (createPart_next_ref _ gs1
              : next_ref gs1.2 ≤ next_ref (Conodont.createWhiteMatter gs1).2)
    as Hle.
  pose proof (soundGroup_registerComponent Conodont.cuspPart cusp _ H2
                ltac:(lia)) as H3.
  destruct (registerComponent Conodont.cuspPart cusp
              (Conodont.createWhiteMatter gs1)) as [c gs3]. simpl in H3.
  by apply soundGroup_addLabel.
Qed.

Lemma soundGroup_newComponent component grp s :
  soundGroup (grp, s) →
  (∀ m : ref, subtreeOf component = Some m → m < next_ref s) →
  labels component = None →
  soundGroup (grp, (Diatom.newComponent component s).2).
Proof.
  unfold soundGroup, allocatedRecords, Diatom.newComponent. simpl.
  intros [Hall Hk] Hm Hl. split; [|done].
  apply map_Forall_insert_2.
  - split; [simpl; lia|]. split.
    + intros m Hsub. specialize (Hm m Hsub). simpl. lia.
    + rewrite Hl. by apply Forall_nil.
  - eapply map_Forall_impl; [exact Hall|]. intros c component'.
    apply allocatedRecord_mono. simpl. lia.
Qed.

Lemma soundGroup_createDiatomModel x :
  allocatedRecords x → soundGroup (Diatom.createDiatomModel x).
Proof.
  intros Hall. unfold Diatom.createDiatomModel.
  pose proof (soundGroup_newModelGroup x Hall) as H0.
  pose proof (soundGroup_addSubtree AsMesh _ H0) as H1.
  pose proof (addSubtree_allocated AsMesh (newModelGroup x)) as M0.
  destruct (addSubtree AsMesh (newModelGroup x)) as [diatom gs1].
  simpl in H1, M0.
  pose proof (soundGroup_addSubtree AsGroup _ H1) as H2.
  pose proof (addSubtree_allocated AsGroup gs1) as M1.
  assert (next_ref gs1.2 ≤ next_ref (addSubtree AsGroup gs1).2.2) as L1.
  { destruct gs1 as [g1 s1]. unfold addSubtree. simpl. lia. }
  destruct (addSubtree AsGroup gs1) as [ornamentGroup gs2].
  simpl in H2, M1, L1.
  pose proof (soundGroup_addSubtree AsGroup _ H2) as H3.
  pose proof (addSubtree_allocated AsGroup gs2) as M2.
  assert (next_ref gs2.2 ≤ next_ref (addSubtree AsGroup gs2).2.2) as L2.
  { destruct gs2 as [g2 s2]. unfold addSubtree. simpl. lia. }
  destruct (addSubtree AsGroup gs2) as [chloroplastGroup gs3].
  simpl in H3, M2, L2.
  pose proof (soundGroup_addSubtree AsGroup _ H3) as H4.
  pose proof (addSubtree_allocated AsGroup gs3) as M3.
  assert (next_ref gs3.2 ≤ next_ref (addSubtree AsGroup gs3).2.2) as L3.
  { destruct gs3 as [g3 s3]. unfold addSubtree. simpl. lia. }
  destruct (addSubtree AsGroup gs3) as [rapheGroup gs4].
  simpl in H4, M3, L3.
  destruct gs4 as [grp s]. simpl in M3, L3.
  set (c0 := {| name := "frustule"; displayName := "Frustule (Shell)";
                mesh := Some diatom; group := None; visible := true;
                labels := None |}).
  set (c1 := {| name := "ornaments"; displayName := "Surface Ornaments";
                mesh := None; group := Some ornamentGroup; visible := true;
                labels := None |}).
  set (c2 := {| name := "chloroplasts"; displayName := "Chloroplasts";
                mesh := None; group := Some chloroplastGroup; visible := true;
                labels := None |}).
  set (c3 := {| name := "raphe"; displayName := "Raphe System";
                mesh := None; group := Some rapheGroup; visible := true;
                labels := None |}).
  pose proof (soundGroup_newComponent c0 grp s) as S0.
  assert (next_ref s ≤ next_ref (Diatom.newComponent c0 s).2) as N0
    by (unfold Diatom.newComponent; simpl; lia).
  destruct (Diatom.newComponent c0 s) as [r0 s0]. simpl in S0, N0.
  pose proof (soundGroup_newComponent c1 grp s0) as S1.
  assert (next_ref s0 ≤ next_ref (Diatom.newComponent c1 s0).2) as N1
    by (unfold Diatom.newComponent; simpl; lia).
  destruct (Diatom.newComponent c1 s0) as [r1 s1]. simpl in S1, N1.
  pose proof (soundGroup_newComponent c2 grp s1) as S2.
  assert (next_ref s1 ≤ next_ref (Diatom.newComponent c2 s1).2) as N2
    by (unfold Diatom.newComponent; simpl; lia).
  destruct (Diatom.newComponent c2 s1) as [r2 s2]. simpl in S2, N2.
  pose proof (soundGroup_newComponent c3 grp s2) as S3.
  destruct (Diatom.newComponent c3 s2) as [r3 s3]. simpl in S3.
  simpl in M0, M1, M2, L1, L2.
  assert (soundGroup (grp, s0)) as G0.
  { apply S0; [done| |done]. unfold subtreeOf. simpl. intros m [= <-]. lia. }
  assert (soundGroup (grp, s1)) as G1.
  { apply S1; [done| |done]. unfold subtreeOf. simpl. intros m [= <-]. lia. }
  assert (soundGroup (grp, s2)) as G2.
  { apply S2; [done| |done]. unfold subtreeOf. simpl. intros m [= <-]. lia. }
  assert (soundGroup (grp, s3)) as Hs3.
  { apply S3; [done| |done]. unfold subtreeOf. simpl. intros m [= <-]. lia. }
  assert (soundGroup
            (grp,
             with_graph
               (graph_with_components
                  (<[obj_id grp := [r0; r1; r2; r3]]> (group_components (graph s3)))
                  (graph s3)) s3)) as Hs4 by exact Hs3.
  by repeat apply soundGroup_addLabel.
Qed.

Lemma createModel_soundGroup sp x :
  allocatedRecords x → soundGroup (createModel sp x).
Proof.
  intros Hall. pose proof (soundGroup_newModelGroup x Hall) as H0.
  destruct sp; simpl createModel.
  - unfold Fusuline.createFusulineModel. by repeat apply soundGroup_createPart.
  - unfold Radiolarian.createRadiolarianModel.
    by repeat apply soundGroup_createPart.
  - unfold Foraminifera.createForaminiferaModel.
    by repeat apply soundGroup_createPart.
  - by apply soundGroup_createDiatomModel.
  - unfold Conodont.createConodontModel.
    do 2 apply soundGroup_createPart. apply soundGroup_createCusp.
    by do 2 apply soundGroup_createPart.
  - unfold Ostracod.createOstracodModel. by repeat apply soundGroup_createPart.
  - unfold Acritarch.createAcritarchModel.
    by repeat apply soundGroup_createPart.
Qed.

Lemma wellFormed_same_graph s s' :
  scene (graph s') = scene (graph s) → next_ref s' = next_ref s →
  currentModel s' = currentModel s →
  wellFormed s → wellFormed s'.
Proof.
  unfold wellFormed, uniqueRefs, childRefs. by intros -> -> ->.
Qed.

Lemma freshStores_intro s s' :
  next_ref s ≤ next_ref s' →
  obj_visible (graph s') = obj_visible (graph s) →
  display (dom s') = display (dom s) →
  parentNode (dom s') ⊆ parentNode (dom s) →
  freshStores s → freshStores s'.
Proof.
  unfold freshStores. intros Hle -> -> Hsub (Hv & Hd & Hp).
  split; [|split].
  - eapply map_Forall_impl; [exact Hv|]. simpl. intros r _ Hr. lia.
  - eapply map_Forall_impl; [exact Hd|]. simpl. intros r _ Hr. lia.
  - apply map_Forall_lookup. intros r d Hr.
    apply (lookup_weaken _ _ _ _ Hr) in Hsub.
    apply (map_Forall_lookup_1 _ _ _ _ Hp) in Hsub. lia.
Qed.

Lemma scene_add_subseteq r s :
  parentNode (dom (scene_add r s)) ⊆ parentNode (dom s).
Proof.
  unfold scene_add. destruct (scene (graph s)) as [i k cs].
  destruct (decide (r = i)); [done|].
  destruct (find_in_forest r _) as [o|]; [|done].
  destruct (prune r (Obj i k cs)) as [i' k' cs'].
  destruct (decide _); [done|].
  etrans; [apply onRemoved_subseteq|]. done.
Qed.

Lemma NoDup_fmap_inj_on {A B} (f : A → B) (l : list A) x y :
  NoDup (map f l) → x ∈ l → y ∈ l → f x = f y → x = y.
Proof.
  induction l as [|a l IH]; intros Hnd Hx Hy Heq; [by apply elem_of_nil in Hx|].
  simpl in Hnd. apply NoDup_cons in Hnd as [Ha Hnd].
  apply elem_of_cons in Hx as [->|Hx]; apply elem_of_cons in Hy as [->|Hy].
  - done.
  - exfalso. apply Ha. rewrite Heq. apply (list_elem_of_fmap f). by exists y.
  - exfalso. apply Ha. rewrite <- Heq. apply (list_elem_of_fmap f). by exists x.
  - by apply IH.
Qed.

(** With distinct references and no label object among the children of the
    scene, [scene.remove] finds none of the label objects: they all sit
    deeper. *)
Lemma removeLabelObjects_nested s :
  uniqueRefs s →
  Forall (λ c, isCSS2DObject c = false) (obj_children (scene (graph s))) →
  removeLabelObjects s = s.
Proof.
  intros Huniq Hkids. unfold removeLabelObjects.
  apply fold_scene_remove_absent. intros r Hr Hchild.
  apply elem_of_labelObjectRefs in Hr as (x & Hx & Hcss & Hid).
  unfold childRefs in Hchild.
  apply (list_elem_of_fmap obj_id) in Hchild as (c & Hc & Hin).
  unfold uniqueRefs in Huniq.
  destruct (scene (graph s)) as [i k cs] eqn:Hsc. simpl in Hin, Hkids.
  assert (c ∈ traverse (Obj i k cs)) as Hct.
  { apply elem_of_traverse. right. exists c. split; [done | apply traverse_root]. }
  assert (x = c) as ->.
  { apply (NoDup_fmap_inj_on obj_id (traverse (Obj i k cs))); try done.
    congruence. }
  rewrite Forall_forall in Hkids. specialize (Hkids c Hin). congruence.
Qed.

Lemma fold_toggle_display_keys (ls : list LabelInfo) s (n : ref) :
  map_Forall (λ r _, r < n) (display (dom s)) →
  Forall (λ l, li_element l < n) ls →
  map_Forall (λ r _, r < n)
    (display (dom (fold_left
                     (λ s label,
                        set_display (li_element label)
                          (if String.eqb
                                (default "" (display (dom s) !! li_element label))
                                "none"
                           then "block" else "none") s) ls s))).
Proof.
  revert s. induction ls as [|l ls IH]; intros s Hd Hls; [done|].
  apply Forall_cons in Hls as [Hl Hls]. cbn [fold_left]. apply IH; [|done].
  simpl. by apply map_Forall_insert_2.
Qed.

Lemma setLabelDisplays_keys v ls s (n : ref) :
  map_Forall (λ r _, r < n) (display (dom s)) →
  Forall (λ h, lh_element h < n) ls →
  map_Forall (λ r _, r < n) (display (dom (setLabelDisplays v ls s))).
Proof.
  intros Hd Hls. apply map_Forall_lookup. intros e d He.
  rewrite setLabelDisplays_lookup in He.
  destruct (decide (e ∈ map lh_element ls)) as [Hin|Hnot].
  - apply (list_elem_of_fmap lh_element) in Hin as (h & -> & Hh).
    rewrite Forall_forall in Hls. by apply Hls.
  - rewrite decide_False in He by done.
    exact (map_Forall_lookup_1 _ _ _ _ Hd He).
Qed.

Lemma toggleComponentVisibility_invariant c v s :
  viewerInvariant s → viewerInvariant (toggleComponentVisibility c v s).
Proof.
  intros Hinv. pose proof Hinv as (Hwf & (Hfv & Hfd & Hfp) & Hrec & Hlab & Hkids).
  destruct (components s !! c) as [component|] eqn:Hc.
  2:{ unfold toggleComponentVisibility. by rewrite Hc. }
  rewrite (toggleComponentVisibility_cases c v s component Hc).
  destruct (map_Forall_lookup_1 _ _ _ _ Hrec Hc) as (Hcn & Hsub & Hels).
  set (s0 := markVisible c v component s).
  destruct (markVisible_frame c v component s)
    as (Mn & Md & Mw & _ & Mcm & _ & Msc & _).
  fold s0 in Mn, Md, Mw, Mcm, Msc. cbv zeta in Mn, Md, Mw, Mcm, Msc.
  destruct (setLabelDisplays_frame v (default [] (labels component)) s0)
    as (Hn & Hg & Hcs & Hw & _ & Hcm & _ & _ & _ & Hp & _).
  cbv zeta in Hn, Hg, Hcs, Hw, Hcm, Hp.
  set (s1 := setLabelDisplays v (default [] (labels component)) s0) in *.
  assert (map_Forall (λ r _, r < next_ref s) (obj_visible (graph s0))
          ∧ allocatedRecords s0) as [Hv0 Hrec0].
  { subst s0. unfold markVisible, allocatedRecords.
    destruct (subtreeOf component) as [m|] eqn:Hm; [|done]. simpl. split.
    - apply map_Forall_insert_2; [by apply Hsub | done].
    - apply map_Forall_lookup. intros i component' Hi.
      destruct (decide (c = i)) as [->|Hne].
      + rewrite lookup_alter_eq, Hc in Hi. simpl in Hi. injection Hi as <-.
        split; [done|]. split; [|done]. intros m'. unfold subtreeOf. simpl.
        fold (subtreeOf component). rewrite Hm. by intros [= <-]; apply Hsub.
      + rewrite lookup_alter_ne in Hi by done.
        exact (map_Forall_lookup_1 _ _ _ _ Hrec Hi). }
  split; [|split; [|split; [|split]]].
  - apply (wellFormed_same_graph s); [| |  |done].
    + by rewrite Hg.
    + by rewrite Hn.
    + by rewrite Hcm.
  - unfold freshStores. rewrite Hn, Mn, Hg, Hp, Md. split; [done|]. split; [|done].
    subst s1. apply setLabelDisplays_keys; [by rewrite Md | done].
  - unfold allocatedRecords in *. rewrite Hcs.
    eapply map_Forall_impl; [exact Hrec0|]. intros i component'.
    apply allocatedRecord_mono. rewrite Hn, Mn. lia.
  - rewrite Hw, Mw, Hn, Mn. done.
  - rewrite Hg, Msc. done.
Qed.

Lemma removeAllLabels_invariant s :
  viewerInvariant s → viewerInvariant (removeAllLabels s).
Proof.
  intros (Hwf & Hfresh & Hrec & Hlab & Hkids).
  rewrite removeAllLabels_halves.
  rewrite removeLabelObjects_nested; [|by destruct Hwf|done].
  pose proof (finishLabels_subseteq s) as Hsub.
  destruct (finishLabels_shape s) as (p & Hp & _). rewrite Hp in Hsub |- *.
  split; [|split; [|split; [|split]]].
  - by apply (wellFormed_same_graph s).
  - by apply (freshStores_intro s).
  - by apply (allocatedRecords_mono s).
  - by apply Forall_nil.
  - done.
Qed.

Lemma renderLabels_invariant parents displays s :
  viewerInvariant s → viewerInvariant (renderLabels parents displays s).
Proof.
  intros (Hwf & (Hfv & Hfd & Hfp) & Hrec & Hlab & Hkids).
  split; [|split; [|split; [|split]]]; try done.
  unfold freshStores, renderLabels. simpl. split; [done|]. split.
  - apply map_Forall_lookup. intros e d He.
    by apply map_lookup_filter_Some in He as [_ He].
  - apply map_Forall_lookup. intros e d He.
    by apply map_lookup_filter_Some in He as [_ He].
Qed.

Lemma toggleLabels_invariant s :
  viewerInvariant s → viewerInvariant (toggleLabels s).
Proof.
  intros (Hwf & (Hfv & Hfd & Hfp) & Hrec & Hlab & Hkids).
  destruct (fold_toggle_frame (window_labels s) s)
    as (Hn & Hg & Hc & Hw & _ & Hcm & _ & _ & _ & Hp & _).
  pose proof (fold_toggle_display_keys (window_labels s) s (next_ref s) Hfd Hlab)
    as Hd.
  fold (toggleLabels s) in Hn, Hg, Hc, Hw, Hcm, Hp, Hd.
  split; [|split; [|split; [|split]]].
  - apply (wellFormed_same_graph s); [by rewrite Hg|done|done|done].
  - unfold freshStores. rewrite Hn, Hg, Hp. by repeat split.
  - by apply (allocatedRecords_mono s); [|rewrite Hn|].
  - by rewrite Hw, Hn.
  - by rewrite Hg.
Qed.

Lemma updateLabels_invariant world cam labels s :
  viewerInvariant s → viewerInvariant (updateLabels world cam labels s).
Proof.
  intros (Hwf & (Hfv & Hfd & Hfp) & Hrec & Hlab & Hkids).
  destruct (updateLabels_frame world cam labels s)
    as (Hn & Hg & Hc & Hw & _ & Hcm & _ & _ & _ & Hp & Hd).
  split; [|split; [|split; [|split]]].
  - apply (wellFormed_same_graph s); [by rewrite Hg|done|done|done].
  - unfold freshStores. rewrite Hn, Hg, Hp, Hd. by repeat split.
  - by apply (allocatedRecords_mono s); [|rewrite Hn|].
  - by rewrite Hw, Hn.
  - by rewrite Hg.
Qed.

(** The invariant does not read the view. *)
Lemma viewerInvariant_with_view v s :
  viewerInvariant s → viewerInvariant (with_view v s).
Proof. intros H. exact H. Qed.

Section Running.

Variable getInfo : Specimen → string.
Variable parseFromString : string → HtmlNode.

Lemma loadFossil_unknown_stores type s :
  specimenOfKey type = None →
  let s' := loadFossil getInfo parseFromString type s in
  components s' = components s ∧ next_ref s' = next_ref s
  ∧ window_labels s' = []
  ∧ obj_visible (graph s') = obj_visible (graph s)
  ∧ display (dom s') = display (dom s)
  ∧ parentNode (dom s') ⊆ parentNode (dom s).
Proof.
  intros Hkey s'. subst s'.
  rewrite (loadFossil_unknown getInfo parseFromString type s Hkey). cbv zeta.
  destruct (factoryInput_frame type s)
    as (Hxn & Hxc & Hxv & _ & _ & _ & Hxd & _ & _ & _ & Hxwl & _ & Hxsub & _).
  set (x := factoryInput type s) in *. clearbody x.
  assert (∃ G p, match currentModel x with
                 | Some m => scene_add m x
                 | None => x
                 end = set_parents p (with_graph G x)
                 ∧ obj_visible G = obj_visible (graph x)
                 ∧ p ⊆ parentNode (dom x)) as (G & p & -> & HGv & Hp).
  { destruct (currentModel x) as [m|].
    - pose proof (scene_add_subseteq m x) as Hsub.
      destruct (scene_add_shape m x) as (G & p & HG & Hv & _).
      rewrite HG in Hsub |- *. by exists G, p.
    - exists (graph x), (parentNode (dom x)).
      by rewrite with_graph_same, set_parents_same. }
  simpl. rewrite HGv, Hxc, Hxn, Hxwl, Hxv, Hxd.
  split; [done|]. split; [done|]. split; [done|]. split; [done|].
  split; [done|]. by etrans.
Qed.

Lemma loadFossil_invariant type s :
  viewerInvariant s →
  viewerInvariant (loadFossil getInfo parseFromString type s).
Proof.
  intros (Hwf & Hfresh & Hrec & Hlab & Hkids).
  pose proof (loadFossil_wellFormed getInfo parseFromString type s Hwf) as Hwf'.
  destruct (scene (graph s)) as [i k cs] eqn:Hsc. simpl in Hkids.
  destruct (specimenOfKey type) as [sp|] eqn:Hkey.
  - destruct (loadFossil_known_stores getInfo parseFromString type sp s Hkey)
      as (Hn & Hcomp & Hvis & _ & Hdom & _ & _ & Hwl & _).
    destruct (factoryInput_frame type s)
      as (Hxn & Hxc & _ & _ & _ & _ & Hxd & _ & _ & _ & Hxwl & _ & Hxsub & _).
    destruct (loadFossil_known_scene getInfo parseFromString type sp s i k cs
                Hwf Hkey Hsc)
      as (rest & Hsub & _ & _ & _ & _ & _ & _ & Hsc' & _).
    cbv zeta in Hn, Hcomp, Hvis, Hdom, Hwl, Hxn, Hxc, Hxd, Hxwl, Hxsub, Hsc'.
    set (s' := loadFossil getInfo parseFromString type s) in *.
    set (x := factoryInput type s) in *.
    assert (allocatedRecords x) as Hrecx by (by apply (allocatedRecords_mono s); [|rewrite Hxn|]).
    destruct (createModel_soundGroup sp x Hrecx) as [Hrec' Hkind].
    destruct (createModel_Building sp x) as (names & Hb & _).
    rewrite (surjective_pairing (createModel sp x)) in Hb.
    set (model := (createModel sp x).1) in *.
    set (x' := (createModel sp x).2) in *.
    unfold Building in Hb.
    destruct Hb as (_ & Hlt & _ & _ & (_ & _ & _ & _ & _ & _ & Hpn & Hds)
                    & (new & Hnew & _ & Hel & _) & _).
    rewrite Hxwl in Hnew. simpl in Hnew.
    split; [done|]. split; [|split; [|split]].
    + apply (freshStores_intro s); [lia|done| |  |done].
      * by rewrite Hdom, Hds.
      * by rewrite Hdom, Hpn.
    + apply (allocatedRecords_mono x'); [done | lia | done].
    + rewrite Hwl, Hnew, Hn. eapply Forall_impl; [exact Hel|]. simpl.
      intros l [Hl _]. lia.
    + rewrite Hsc'. simpl. apply Forall_app. split.
      * apply Forall_forall. intros c Hc. rewrite Forall_forall in Hkids.
        apply Hkids. by eapply elem_of_sublist.
      * by apply Forall_singleton.
  - destruct (loadFossil_unknown_stores type s Hkey)
      as (Hcomp & Hn & Hwl & Hvis & Hd & Hp).
    destruct (loadFossil_unknown_graph getInfo parseFromString type s Hwf Hkey)
      as (Hsc' & _).
    cbv zeta in Hcomp, Hn, Hwl, Hvis, Hd, Hp, Hsc'.
    split; [done|]. split; [|split; [|split]].
    + apply (freshStores_intro s); [lia|done..].
    + apply (allocatedRecords_mono s); [done | lia | done].
    + rewrite Hwl. by apply Forall_nil.
    + rewrite Hsc'. unfold modelMovedLast. rewrite Hsc.
      destruct (currentModel s) as [m|]; [|done].
      destruct (take_child m cs) as [[o rest]|] eqn:Ht; [|done].
      destruct (take_child_split m cs o rest Ht) as (l1 & l2 & -> & -> & _).
      simpl. apply Forall_app in Hkids as [H1 H2].
      apply Forall_cons in H2 as [H2 H3].
      apply Forall_app. split; [|by apply Forall_singleton].
      apply Forall_app. by split.
Qed.

Lemma handle_invariant e s :
  viewerInvariant s → viewerInvariant (handle getInfo parseFromString e s).
Proof.
  intros Hinv.
  destruct e as [type|index checked| | | |world cam|parents displays|];
    cbn [handle].
  - by apply loadFossil_invariant.
  - destruct (componentToggles (view s) !! index); [|done].
    by apply toggleComponentVisibility_invariant.
  - by apply toggleLabels_invariant.
  - unfold toggleCrossSection.
    destruct (currentModel s); by apply viewerInvariant_with_view.
  - by apply viewerInvariant_with_view.
  - unfold animateLabels. destruct (window_labels s) eqn:Hw; [done|].
    rewrite <- Hw. by apply updateLabels_invariant.
  - by apply renderLabels_invariant.
  - by apply removeAllLabels_invariant.
Qed.

Lemma run_invariant events s :
  viewerInvariant s → viewerInvariant (run getInfo parseFromString events s).
Proof.
  revert s. induction events as [|e events IH]; intros s Hinv; [done|].
  unfold run. simpl. apply IH. by apply handle_invariant.
Qed.

Lemma initial_invariant : viewerInvariant initial.
Proof.
  split; [by_evaluation|]. split.
  { apply (@bool_decide_unpack _ (freshStores_dec _)). vm_compute. exact I. }
  split; [apply map_Forall_empty|]. split; [by apply Forall_nil|].
  simpl. repeat (apply Forall_cons; split; [done|]). by apply Forall_nil.
Qed.

(** X23: the invariant of the running viewer.  Whatever the user and the
    animation loop do after [init] (selecting fossils by any key, changing
    the checkboxes of the component panel, clicking the label, cross-section
    and reset buttons, running label passes and overlay renderings,
    calling the diagnostic), the state stays well formed, every reference
    not handed out yet is free of flags, displays and parents, every
    component record, every handle and every entry of the global array refers
    to objects and elements that exist, and no label object is a direct child
    of the scene; each event keeps this true of any state of which it is
    true. *)
Theorem every_reachable_state_satisfies_the_invariant events :
  viewerInvariant (run getInfo parseFromString events initial)
  ∧ ∀ e s, viewerInvariant s →
           viewerInvariant (handle getInfo parseFromString e s).
Proof.
  split.
  - apply run_invariant, initial_invariant.
  - intros e s. apply handle_invariant.
Qed.

End Running.

(** X24: [removeAllLabels] cannot remove the label objects of a loaded
    model.  With distinct references and no label object among the direct
    children of the scene, every CSS2DObject sits deeper than [scene.remove]
    looks, so the scene and its label objects are exactly as before; only the
    overlay part runs: the global array is emptied (after which
    [toggleLabels] has nothing to flip) and elements are detached. *)
Theorem removeAllLabels_leaves_the_label_objects_of_the_model s :
  uniqueRefs s →
  Forall (λ c, isCSS2DObject c = false) (obj_children (scene (graph s))) →
  let s' := removeAllLabels s in
  s' = finishLabels s
  ∧ graph s' = graph s
  ∧ labelObjectRefs (scene (graph s')) = labelObjectRefs (scene (graph s))
  ∧ window_labels s' = []
  ∧ toggleLabels s' = s'.
Proof.
  intros Huniq Hkids s'. subst s'.
  rewrite removeAllLabels_halves, removeLabelObjects_nested by done.
  destruct (finishLabels_shape s) as (p & -> & _).
  split; [done|]. split; [done|]. split; [done|]. split; [done|].
  reflexivity.
Qed.

Lemma removeAllLabels_leaves_the_label_objects_of_the_model_witness :
  uniqueRefs afterFirstFrame
  ∧ Forall (λ c, isCSS2DObject c = false)
      (obj_children (scene (graph afterFirstFrame)))
  ∧ length (labelObjectRefs (scene (graph afterFirstFrame))) = 8
  ∧ graph (removeAllLabels afterFirstFrame) = graph afterFirstFrame
  ∧ window_labels (removeAllLabels afterFirstFrame) = [].
Proof.
  assert (uniqueRefs afterFirstFrame) as Huniq by by_evaluation.
  assert (Forall (λ c, isCSS2DObject c = false)
            (obj_children (scene (graph afterFirstFrame)))) as Hkids
    by (apply (@bool_decide_unpack _ (Forall_dec _ _)); vm_compute; exact I).
  split; [exact Huniq|]. split; [exact Hkids|].
  split; [vm_compute; reflexivity|].
  destruct (removeAllLabels_leaves_the_label_objects_of_the_model
              afterFirstFrame Huniq Hkids) as (_ & H1 & _ & H2 & _).
  split; [exact H1 | exact H2].
Defined.
